(** * FactureSimple: invoice numbering, lifecycle, line items and PDF pagination

    A shallow embedding of the algorithmic core of [src/App.tsx]
    (component [InvoiceApp], its date picker and settings modal, and the
    helpers [calculatePaymentDue], [encryptData] and [decryptData])
    together with the properties of its specification.

    Conventions of the embedding:
    - a JavaScript string is a [string]; each [ascii] stands for one UTF-16
      code unit below 256, so accented letters are single characters
      (U+00E0 is [a_grave]); only where the code tells the code units
      from 256 on from the others, in the storage of the sensitive fields,
      a string is the list of its code units;
    - a JavaScript number read from a string or from a [Date] is a
      [JS.number]: [NaN], an infinity or a double that holds an integer,
      with the rounding of the doubles from 2^53 on; a page coordinate or
      a line count, which stays far below 2^53, is a [Z];
    - quantities, prices and totals are kept abstract: the class [Number]
      gives the operations the code applies to them, so that every result
      holds for IEEE doubles as well as for the instance on [Z] used in
      the examples;
    - React state is threaded explicitly; the clock and the outcome of the
      remote calls are inputs. *)

From Stdlib Require Import ZArith NArith List Bool Ascii String Lia.
From Stdlib Require Import DecimalString.
From Stdlib Require Decimal DecimalFacts DecimalPos DecimalN DecimalZ.
Import ListNotations.

Local Open Scope string_scope.
Local Open Scope Z_scope.

(** ** JavaScript built-ins used by the code *)

Module JS.

Definition chr (n : nat) : string := String (ascii_of_nat n) EmptyString.

(** U+00E0 and U+00E9, the accented letters of the literals below. *)
Definition a_grave : string := chr 224.
Definition e_acute : string := chr 233.

(** *** Numbers

    The numbers that the modelled code computes are [NaN], the two
    infinities and the doubles that hold an integer. Minus zero is
    identified with zero: the code compares, adds and prints its numbers,
    and none of these tells the two apart. *)
Inductive number :=
  | NaN
  | Infinity (negative : bool)
  | Int (z : Z).

(** The double nearest to an integer, ties to the even significand; from
    [2^1024 - 2^970] on the result is infinite. Below [2^53] every integer
    is a double. *)
Definition toDouble (z : Z) : number :=
  let a := Z.abs z in
  if a <? 2 ^ 53 then Int z
  else
    let ulp := 2 ^ (Z.log2 a - 52) in
    let q := a / ulp in
    let r := a mod ulp in
    let m :=
      if 2 * r <? ulp then q
      else if ulp <? 2 * r then q + 1
      else if Z.even q then q else q + 1 in
    if 2 ^ 1024 <=? m * ulp then Infinity (z <? 0)
    else Int (Z.sgn z * (m * ulp)).

(** [x + y]. *)
Definition add (x y : number) : number :=
  match x, y with
  | NaN, _ | _, NaN => NaN
  | Infinity a, Infinity b => if Bool.eqb a b then Infinity a else NaN
  | Infinity a, Int _ | Int _, Infinity a => Infinity a
  | Int a, Int b => toDouble (a + b)
  end.

(** [x - y]. *)
Definition sub (x y : number) : number :=
  match x, y with
  | NaN, _ | _, NaN => NaN
  | Infinity a, Infinity b => if Bool.eqb a b then NaN else Infinity a
  | Infinity a, Int _ => Infinity a
  | Int _, Infinity b => Infinity (negb b)
  | Int a, Int b => toDouble (a - b)
  end.

(** [isNaN(x)]. *)
Definition isNaN (x : number) : bool :=
  match x with NaN => true | _ => false end.

(** [x || 0] on a number: [NaN] and zero are falsy. *)
Definition orZero (x : number) : number :=
  match x with
  | NaN => Int 0
  | _ => x
  end.

(** The greater of two numbers, as [Math.max] takes it. *)
Definition max2 (x y : number) : number :=
  match x, y with
  | NaN, _ | _, NaN => NaN
  | Infinity false, _ | _, Infinity false => Infinity false
  | Infinity true, v | v, Infinity true => v
  | Int a, Int b => Int (Z.max a b)
  end.

(** [Math.max(...args)]: minus infinity when there is no argument. *)
Definition Math_max (args : list number) : number :=
  fold_left max2 args (Infinity true).

(** The comparator [(a, b) => a - b] returns a positive number: [a] is
    sorted after [b]. *)
Definition sortsAfter (a b : number) : bool :=
  match sub a b with
  | Int d => 0 <? d
  | Infinity negative => negb negative
  | NaN => false
  end.

(** [xs.sort((a, b) => a - b)]: the stable ascending order, by insertion
    from the right. *)
Fixpoint insert_asc (x : number) (l : list number) : list number :=
  match l with
  | [] => [x]
  | y :: r => if sortsAfter x y then y :: insert_asc x r else x :: l
  end.

Definition sort_asc (l : list number) : list number :=
  fold_right insert_asc [] l.

(** *** Strings *)

(** A decimal digit. *)
Definition isDigit (a : ascii) : bool :=
  let n := nat_of_ascii a in ((48 <=? n) && (n <=? 57))%nat.

(** Every character of the string passes the test. *)
Fixpoint allChars (p : ascii -> bool) (s : string) : bool :=
  match s with
  | EmptyString => true
  | String a rest => p a && allChars p rest
  end.

(** [String(n)] for an integer below [10^21] in absolute value: its
    decimal digits. *)
Definition String_of (n : Z) : string := NilZero.string_of_int (Z.to_int n).

(** The number of decimal digits of a positive integer. *)
Definition digitCount (a : Z) : Z := Z.of_nat (String.length (String_of a)).

(** How [String] picks the digits of a double [z] of [d] digits, from
    [10^21] on: the least number [k] of digits for which some [s] of [k]
    digits gives a decimal [s * 10^(d - k)] that the double nearest to it
    is [z], and for that [k] the [s] nearest to [z] (the even one of two).
    The candidates are the two multiples of [10^(d - k)] around [z]. *)
Definition readsBack (z v : Z) : bool :=
  match toDouble v with
  | Int w => w =? z
  | _ => false
  end.

Definition digitsOfLength (z d k : Z) : option Z :=
  let p := 10 ^ (d - k) in
  let lo := z / p in
  let hi := lo + 1 in
  match readsBack z (lo * p), readsBack z (hi * p) with
  | true, false => Some lo
  | false, true => Some hi
  | true, true =>
      let below := z - lo * p in
      let above := hi * p - z in
      if below <? above then Some lo
      else if above <? below then Some hi
      else if Z.even lo then Some lo else Some hi
  | false, false => None
  end.

Fixpoint shortestDigits (z d : Z) (k : Z) (fuel : nat) : option (Z * Z) :=
  match fuel with
  | O => None
  | S fuel' =>
      match digitsOfLength z d k with
      | Some s => Some (s, k)
      | None => shortestDigits z d (k + 1) fuel'
      end
  end.

(** The decimal point after the first digit. *)
Definition pointAfterFirst (digits : string) : string :=
  match digits with
  | String a EmptyString => digits
  | String a rest => String a (String "." rest)
  | EmptyString => EmptyString
  end.

(** The exponent form of a positive double from [10^21] on, as in
    [1e+21] and [1.1805916207174113e+21]; seventeen digits are always
    enough. *)
Definition exponentForm (z : Z) : string :=
  let d := digitCount z in
  match shortestDigits z d 1 17 with
  | Some (s, k) =>
      if s =? 10 ^ k then "1e+" ++ String_of d
      else pointAfterFirst (String_of s) ++ "e+" ++ String_of (d - 1)
  | None => String_of z
  end.

(** [String(x)]. *)
Definition toString (x : number) : string :=
  match x with
  | NaN => "NaN"
  | Infinity false => "Infinity"
  | Infinity true => "-Infinity"
  | Int z =>
      if Z.abs z <? 10 ^ 21 then String_of z
      else if z <? 0 then "-" ++ exponentForm (- z)
      else exponentForm z
  end.

Fixpoint repeat0 (k : nat) : string :=
  match k with
  | O => EmptyString
  | S k' => String "0" (repeat0 k')
  end.

(** [s.padStart(n, '0')]. *)
Definition padStart0 (s : string) (n : nat) : string :=
  repeat0 (n - String.length s) ++ s.

(** [s.startsWith(p)]. *)
Definition startsWith (s p : string) : bool := String.prefix p s.

(** [s.split(c)] for a one-character separator: the accumulator [cur]
    holds the segment read so far. *)
Fixpoint split_aux (c : ascii) (s : string) (cur : string) : list string :=
  match s with
  | EmptyString => [cur]
  | String a rest =>
      if Ascii.eqb a c then cur :: split_aux c rest EmptyString
      else split_aux c rest (cur ++ String a EmptyString)
  end.

Definition split (s : string) (c : ascii) : list string :=
  split_aux c s EmptyString.

(** White space skipped by [parseInt] (StrWhiteSpaceChar below 256):
    TAB, LF, VT, FF, CR, SP and NBSP. *)
Definition isWhiteSpace (a : ascii) : bool :=
  let n := nat_of_ascii a in
  ((9 <=? n) && (n <=? 13))%nat || (n =? 32)%nat || (n =? 160)%nat.

Fixpoint trimStart (s : string) : string :=
  match s with
  | EmptyString => EmptyString
  | String a rest => if isWhiteSpace a then trimStart rest else s
  end.

(** The value of a character as a digit in the given radix. *)
Definition digitValue (radix : Z) (a : ascii) : option Z :=
  let n := Z.of_nat (nat_of_ascii a) in
  let v :=
    if (48 <=? n) && (n <=? 57) then Some (n - 48)
    else if (97 <=? n) && (n <=? 122) then Some (n - 87)
    else if (65 <=? n) && (n <=? 90) then Some (n - 55)
    else None in
  match v with
  | Some d => if d <? radix then Some d else None
  | None => None
  end.

(** The longest prefix of digits, read left to right; [None] when there
    is no digit at all. *)
Fixpoint digits (radix : Z) (s : string) (acc : option Z) : option Z :=
  match s with
  | EmptyString => acc
  | String a rest =>
      match digitValue radix a with
      | Some d =>
          digits radix rest
            (Some (match acc with Some v => v * radix + d | None => d end))
      | None => acc
      end
  end.

(** The integer that [parseInt(s)] reads, with no radix argument: leading
    white space, an optional sign, an optional [0x]/[0X] prefix, then
    digits; [None] when there is no digit. *)
Definition parseInteger (s : string) : option Z :=
  let t := trimStart s in
  let '(sign, t) :=
    match t with
    | String "-" r => (-1, r)
    | String "+" r => (1, r)
    | _ => (1, t)
    end in
  let '(radix, t) :=
    match t with
    | String "0" (String "x" r) => (16, r)
    | String "0" (String "X" r) => (16, r)
    | _ => (10, t)
    end in
  match digits radix t None with
  | Some v => Some (sign * v)
  | None => None
  end.

(** [parseInt(s)]: the double nearest to the integer read, [NaN] when
    there is none. (Past twenty significant decimal digits the language
    lets an engine read the further digits as zeros; the engines round
    the integer as it is written.) *)
Definition parseInt (s : string) : number :=
  match parseInteger s with
  | Some v => toDouble v
  | None => NaN
  end.

(** [parseInt(x)] where [x] may be [undefined]: [String(undefined)] has
    no digit. *)
Definition parseInt_opt (x : option string) : number :=
  match x with
  | Some s => parseInt s
  | None => NaN
  end.

End JS.

(** ** The Date object

    A [Date] holds a time value: the milliseconds since 1 January 1970 in
    universal time, at most 8.64e15 in absolute value, or [NaN] for an
    invalid date. The methods of the code read and write it in local
    time. The conversions between day numbers and the proleptic Gregorian
    calendar are the usual era-based ones (an era is 400 years, 146097
    days, and starts on 1 March). *)

Module Calendar.

Record Civil := mkCivil { cyear : Z; cmonth : Z; cday : Z }.

Definition days_from_civil (y m d : Z) : Z :=
  let y' := if m <=? 2 then y - 1 else y in
  let era := y' / 400 in
  let yoe := y' - era * 400 in
  let mp := if 2 <? m then m - 3 else m + 9 in
  let doy := (153 * mp + 2) / 5 + d - 1 in
  let doe := yoe * 365 + yoe / 4 - yoe / 100 + doy in
  era * 146097 + doe - 719468.

Definition civil_from_days (z : Z) : Civil :=
  let z := z + 719468 in
  let era := z / 146097 in
  let doe := z - era * 146097 in
  let yoe := (doe - doe / 1460 + doe / 36524 - doe / 146096) / 365 in
  let doy := doe - (365 * yoe + yoe / 4 - yoe / 100) in
  let mp := (5 * doy + 2) / 153 in
  let d := doy - (153 * mp + 2) / 5 + 1 in
  let m := if mp <? 10 then mp + 3 else mp - 9 in
  let y := yoe + era * 400 in
  mkCivil (if m <=? 2 then y + 1 else y) m d.

Definition isLeap (y : Z) : bool :=
  ((y mod 4 =? 0) && negb (y mod 100 =? 0)) || (y mod 400 =? 0).

Definition daysInMonth (y m : Z) : Z :=
  if m =? 2 then (if isLeap y then 29 else 28)
  else if (m =? 4) || (m =? 6) || (m =? 9) || (m =? 11) then 30
  else 31.

(** The day after a calendar day, by the lengths of the months. *)
Definition nextDay (c : Civil) : Civil :=
  if cday c <? daysInMonth (cyear c) (cmonth c)
  then mkCivil (cyear c) (cmonth c) (cday c + 1)
  else if cmonth c <? 12
       then mkCivil (cyear c) (cmonth c + 1) 1
       else mkCivil (cyear c + 1) 1 1.

(** A calendar day that exists. *)
Definition valid (c : Civil) : Prop :=
  1 <= cmonth c <= 12 /\ 1 <= cday c <= daysInMonth (cyear c) (cmonth c).

(** [n] calendar days after a calendar day, one day at a time. *)
Fixpoint daysAfter (n : nat) (c : Civil) : Civil :=
  match n with
  | O => c
  | S k => nextDay (daysAfter k c)
  end.

Definition msPerDay : Z := 86400000.

(** The greatest time value of a [Date]: one hundred million days. *)
Definition maxTime : Z := 8640000000000000.

(** What the host gives the [Date] methods: the offset of local time
    from universal time, in milliseconds and less than a day (taken
    constant: a change of offset between two dates is outside the model),
    and the text that the French locale data print for a year before
    year 1. *)
Class Host := mkHost {
  localTZA : Z;
  localTZA_range : (Z.abs localTZA <? msPerDay) = true;
  yearBeforeOne : Z -> string
}.

Record Date := mkDate { timeValue : option Z }.

(** An invalid date: its time value is [NaN]. *)
Definition invalid : Date := mkDate None.

(** [TimeClip]: [NaN] outside the range of time values. *)
Definition TimeClip (t : Z) : option Z :=
  if Z.abs t <=? maxTime then Some t else None.

Definition LocalTime {host : Host} (t : Z) : Z := t + localTZA.
Definition UTC {host : Host} (t : Z) : Z := t - localTZA.
Definition Day (t : Z) : Z := t / msPerDay.
Definition TimeWithinDay (t : Z) : Z := t mod msPerDay.

(** [MakeDay(year, month, date)] on integers, the month counted from 0:
    the day number of day [date] of the month, where [date] may lie
    outside the month; [NaN] when [date] is not finite. *)
Definition MakeDay (year month : Z) (date : JS.number) : option Z :=
  match date with
  | JS.Int dt =>
      Some (days_from_civil (year + month / 12) (month mod 12 + 1) 1 + dt - 1)
  | _ => None
  end.

(** [MakeDate(day, time)]. *)
Definition MakeDate (day time : Z) : Z := day * msPerDay + time.

(** The local calendar day of a date, when it is valid. *)
Definition civil {host : Host} (t : Date) : option Civil :=
  match timeValue t with
  | Some tv => Some (civil_from_days (Day (LocalTime tv)))
  | None => None
  end.

Definition getFullYear {host : Host} (t : Date) : JS.number :=
  match civil t with Some c => JS.Int (cyear c) | None => JS.NaN end.
Definition getMonth {host : Host} (t : Date) : JS.number :=
  match civil t with Some c => JS.Int (cmonth c - 1) | None => JS.NaN end.
Definition getDate {host : Host} (t : Date) : JS.number :=
  match civil t with Some c => JS.Int (cday c) | None => JS.NaN end.

(** [t.setDate(v)]: day [v] of the local month of [t] at the local time
    of day of [t], clipped to the range of time values; an invalid date
    stays invalid. (The language computes the day and the time value on
    doubles: they are exact below 2^53, and a value from 2^53 on is
    outside the range whether it is rounded or not.) *)
Definition setDate {host : Host} (t : Date) (v : JS.number) : Date :=
  match timeValue t with
  | None => t
  | Some tv =>
      let local := LocalTime tv in
      let c := civil_from_days (Day local) in
      match MakeDay (cyear c) (cmonth c - 1) v with
      | Some day => mkDate (TimeClip (UTC (MakeDate day (TimeWithinDay local))))
      | None => invalid
      end
  end.

(** The [Date] of local midnight of a calendar day, the month counted
    from 1. *)
Definition dateOf {host : Host} (y m d : Z) : Date :=
  mkDate (TimeClip (UTC (MakeDate (days_from_civil y m d) 0))).

(** The date [n] days later, at the same time of day. *)
Definition plusDays (t : Date) (n : Z) : Date :=
  match timeValue t with
  | Some tv => mkDate (TimeClip (tv + n * msPerDay))
  | None => t
  end.

(** [t.toLocaleDateString('fr-FR')]: day/month/year of the local day,
    day and month on two digits, the year in decimal. *)
Definition toLocaleDateString_fr {host : Host} (t : Date) : string :=
  match civil t with
  | Some c =>
      JS.padStart0 (JS.String_of (cday c)) 2 ++ "/" ++
      JS.padStart0 (JS.String_of (cmonth c)) 2 ++ "/" ++
      (if 1 <=? cyear c then JS.String_of (cyear c)
       else yearBeforeOne (cyear c))
  | None => "Invalid Date"
  end.

(** The date-only form [YYYY-MM-DD] of the date-time string format: four
    digits, two digits and two digits, split at the dashes. *)
Definition field (width : nat) (s : string) : option Z :=
  if (String.length s =? width)%nat && JS.allChars JS.isDigit s
  then JS.digits 10 s None
  else None.

Definition dateOnly (s : string) : option Civil :=
  match JS.split s "-" with
  | [y; m; d] =>
      match field 4 y, field 2 m, field 2 d with
      | Some y', Some m', Some d' => Some (mkCivil y' m' d')
      | _, _, _ => None
      end
  | _ => None
  end.

Definition validb (c : Civil) : bool :=
  (1 <=? cmonth c) && (cmonth c <=? 12)
  && (1 <=? cday c) && (cday c <=? daysInMonth (cyear c) (cmonth c)).

(** [new Date(s)] on a string: a date-only form that names a day of the
    calendar is midnight of that day in universal time; how any other
    string is read is left to the engine ([engine]). *)
Definition parse (engine : string -> option Date) (s : string) : Date :=
  match dateOnly s with
  | Some c =>
      if validb c
      then mkDate (TimeClip (MakeDate (days_from_civil (cyear c) (cmonth c)
                                                        (cday c)) 0))
      else match engine s with Some t => t | None => invalid end
  | None => match engine s with Some t => t | None => invalid end
  end.

End Calendar.

(** ** Data model (the interfaces of the application) *)

(** The operations the code applies to quantities, prices and totals:
    the literal [0], [+], [*] and [toFixed(2)]. *)
Class Number (num : Type) := {
  zero : num;
  plus : num -> num -> num;
  times : num -> num -> num;
  toFixed2 : num -> string
}.

Inductive Status := draft | finalized.

Definition Status_eqb (a b : Status) : bool :=
  match a, b with
  | draft, draft | finalized, finalized => true
  | _, _ => false
  end.

Module AppUser.
Record t := mk { id : string; email : string }.
End AppUser.

Module CompanyInfo.
Record t := mk {
  firstName : string; lastName : string; companyName : string;
  address : string; postalCode : string; city : string;
  phone : string; email : string; siret : string;
  accountName : string; bic : string; iban : string; bankName : string;
  logoUrl : option string
}.
End CompanyInfo.

Module ClientInfo.
Record t := mk {
  firstName : string; lastName : string;
  address : string; postalCode : string; city : string;
  siret : string; phone : string; email : string
}.
End ClientInfo.

Module Article.
Record t {num : Type} := mk {
  id : string;
  name : string;
  description : list string;
  quantity : num;
  unit : string;
  unitPrice : num;
  total : num
}.
Arguments t : clear implicits.
Arguments mk {num}.
End Article.

(** [Partial<Article>]: a field is [Some] when the key is in the object. *)
Module PartialArticle.
Record t {num : Type} := mk {
  id : option string;
  name : option string;
  description : option (list string);
  quantity : option num;
  unit : option string;
  unitPrice : option num;
  total : option num
}.
Arguments t : clear implicits.
Arguments mk {num}.
End PartialArticle.

Module Invoice.
Record t := mk {
  invoiceNumber : string;
  invoiceDate : string;
  deliveryDate : string;
  paymentTerms : string;
  paymentDue : string
}.
End Invoice.

Module SavedInvoice.
Record t {num : Type} := mk {
  id : string;
  invoiceNumber : string;
  invoiceDate : string;
  deliveryDate : string;
  paymentTerms : string;
  paymentDue : string;
  companyInfo : CompanyInfo.t;
  clientInfo : ClientInfo.t;
  articles : list (Article.t num);
  totalAmount : num;
  status : Status;
  createdAt : string;
  finalizedAt : option string
}.
Arguments t : clear implicits.
Arguments mk {num}.
End SavedInvoice.

(** ** Invoice numbering ([generateSmartInvoiceNumber]) *)

Module SmartNumber.
Record t := mk {
  number : string;
  hasConflict : bool;
  conflictInfo : option string
}.
End SmartNumber.

(** The [month] of the code: [String(date.getMonth() + 1).padStart(2, '0')]. *)
Definition monthOf {host : Calendar.Host} (date : Calendar.Date) : string :=
  JS.padStart0 (JS.toString (JS.add (Calendar.getMonth date) (JS.Int 1))) 2.

(** The prefix [`${year}-${month}`] tested by [startsWith]. *)
Definition monthPrefix {host : Calendar.Host} (date : Calendar.Date)
    : string :=
  JS.toString (Calendar.getFullYear date) ++ "-" ++ monthOf date.

(** [history.filter(inv => inv.invoiceNumber.startsWith(...) &&
    inv.status === 'finalized')]. *)
Definition monthInvoices {host : Calendar.Host} {num}
    (history : list (SavedInvoice.t num))
    (date : Calendar.Date) : list (SavedInvoice.t num) :=
  filter (fun inv =>
            JS.startsWith (SavedInvoice.invoiceNumber inv) (monthPrefix date)
            && Status_eqb (SavedInvoice.status inv) finalized)
         history.

(** The callback of [monthInvoices.map]: [0] for an empty number, else
    [parseInt(parts[2]) || 0]. *)
Definition sequenceOf {num} (inv : SavedInvoice.t num) : JS.number :=
  if String.eqb (SavedInvoice.invoiceNumber inv) EmptyString then JS.Int 0
  else
    let parts := JS.split (SavedInvoice.invoiceNumber inv) "-" in
    JS.orZero (JS.parseInt_opt (nth_error parts 2)).

Definition existingNumbers {host : Calendar.Host} {num}
    (history : list (SavedInvoice.t num))
    (date : Calendar.Date) : list JS.number :=
  JS.sort_asc (map sequenceOf (monthInvoices history date)).

(** The variable [nextNumber] once both branches have run.  The spread
    [Math.max(...existingNumbers, 11)] passes one argument for each
    finalized invoice of the month; the limit that an engine puts on the
    number of arguments of a call (some hundred thousand) is not modelled. *)
Definition nextNumber {host : Calendar.Host} {num}
    (history : list (SavedInvoice.t num))
    (date : Calendar.Date) : JS.number :=
  let existing := existingNumbers history date in
  if (0 <? List.length existing)%nat
  then JS.add (JS.Math_max (existing ++ [JS.Int 11])) (JS.Int 1)
  else JS.Int 12.

(** The sequence numbers of the finalized invoices of the month, in the
    order of the history. *)
Definition sequencesOf {host : Calendar.Host} {num}
    (history : list (SavedInvoice.t num))
    (date : Calendar.Date) : list JS.number :=
  map sequenceOf (monthInvoices history date).

(** [m] is the greatest element of [l]. *)
Definition isMaxOf (m : Z) (l : list Z) : Prop :=
  In m l /\ forall x, In x l -> x <= m.

(** The integers from which the doubles start to round: 2^53. *)
Definition firstRounded : Z := 9007199254740992.

(** [history.find(inv => inv.invoiceNumber.startsWith(...) &&
    inv.status === 'draft')]. *)
Definition draftForMonth {host : Calendar.Host} {num}
    (history : list (SavedInvoice.t num))
    (date : Calendar.Date) : option (SavedInvoice.t num) :=
  find (fun inv =>
          JS.startsWith (SavedInvoice.invoiceNumber inv) (monthPrefix date)
          && Status_eqb (SavedInvoice.status inv) draft)
       history.

Definition conflictMessage {host : Calendar.Host} (date : Calendar.Date)
    (draftNumber : string) : string :=
  "Une facture brouillon existe d" ++ JS.e_acute ++ "j" ++ JS.a_grave
    ++ " pour " ++ monthOf date ++ "/"
    ++ JS.toString (Calendar.getFullYear date)
    ++ " (" ++ draftNumber ++ ")".

(** [generateSmartInvoiceNumber(targetDate)]: [history] is the awaited
    result of [getInvoiceHistory()] and [now] the value of [new Date()]. *)
Definition generateSmartInvoiceNumber {host : Calendar.Host} {num}
    (history : list (SavedInvoice.t num))
    (now : Calendar.Date) (targetDate : option Calendar.Date)
    : SmartNumber.t :=
  let date := match targetDate with Some d => d | None => now end in
  let newInvoiceNumber :=
    monthPrefix date ++ "-"
      ++ JS.padStart0 (JS.toString (nextNumber history date)) 4 in
  let found := draftForMonth history date in
  SmartNumber.mk
    newInvoiceNumber
    (match found with Some _ => true | None => false end)
    (match found with
     | Some d => Some (conflictMessage date (SavedInvoice.invoiceNumber d))
     | None => None
     end).

(** ** Line items ([updateArticle], [calculateTotal]) *)

(** A field of [{ ...article, ...updates }]: the value of [updates] when
    it has the key. *)
Definition pick {A} (o : option A) (d : A) : A :=
  match o with Some v => v | None => d end.

(** [{ ...article, ...updates }]. *)
Definition mergeArticle {num} (article : Article.t num)
    (updates : PartialArticle.t num) : Article.t num :=
  Article.mk
    (pick (PartialArticle.id updates) (Article.id article))
    (pick (PartialArticle.name updates) (Article.name article))
    (pick (PartialArticle.description updates) (Article.description article))
    (pick (PartialArticle.quantity updates) (Article.quantity article))
    (pick (PartialArticle.unit updates) (Article.unit article))
    (pick (PartialArticle.unitPrice updates) (Article.unitPrice article))
    (pick (PartialArticle.total updates) (Article.total article)).

Definition isSome {A} (o : option A) : bool :=
  match o with Some _ => true | None => false end.

(** The callback of [prevArticles.map] in [updateArticle]. *)
Definition updateOne {num} `{Number num} (id : string)
    (updates : PartialArticle.t num) (article : Article.t num)
    : Article.t num :=
  if String.eqb (Article.id article) id then
    let updated := mergeArticle article updates in
    if isSome (PartialArticle.quantity updates)
       || isSome (PartialArticle.unitPrice updates)
    then Article.mk
           (Article.id updated) (Article.name updated)
           (Article.description updated) (Article.quantity updated)
           (Article.unit updated) (Article.unitPrice updated)
           (times (Article.quantity updated) (Article.unitPrice updated))
    else updated
  else article.

(** The updater that [updateArticle(id, updates)] hands to [setArticles]. *)
Definition updateArticle {num} `{Number num} (id : string)
    (updates : PartialArticle.t num) (prevArticles : list (Article.t num))
    : list (Article.t num) :=
  map (updateOne id updates) prevArticles.

(** [articles.reduce((sum, article) => sum + article.total, 0)]. *)
Definition calculateTotal {num} `{Number num} (articles : list (Article.t num))
    : num :=
  fold_left (fun sum article => plus sum (Article.total article)) articles zero.

(** ** Payment due date ([calculatePaymentDue], [updatePaymentDue]) *)

(** [terms.split(' ')[0]] read by [parseInt]. *)
Definition termDays (terms : string) : JS.number :=
  JS.parseInt_opt (nth_error (JS.split terms " ") 0).

(** [calculatePaymentDue(invoiceDate, terms)]; [today] is [new Date()]
    and [dueDate] the copy [new Date(invoiceDate)], which has the time
    value of [invoiceDate]. *)
Definition calculatePaymentDue {host : Calendar.Host} (today : Calendar.Date)
    (invoiceDate : Calendar.Date) (terms : string) : string :=
  if String.eqb terms EmptyString then
    Calendar.toLocaleDateString_fr today
  else
    let days := termDays terms in
    let dueDate :=
      Calendar.setDate invoiceDate
        (JS.add (Calendar.getDate invoiceDate)
                (if JS.isNaN days then JS.Int 30 else days)) in
    Calendar.toLocaleDateString_fr dueDate.

(** [parts.join('-')]. *)
Fixpoint join (parts : list string) (sep : string) : string :=
  match parts with
  | [] => EmptyString
  | [p] => p
  | p :: rest => p ++ sep ++ join rest sep
  end.

(** The environment of a call: the clock, how the engine reads the
    strings given to the [Date] constructor that are not in the date-only
    form ([None] is an invalid date) and the outcome of the remote
    writes. *)
Record Env := mkEnv {
  today : Calendar.Date;
  newDate : string -> option Calendar.Date;
  isoNowCreated : string;
  isoNowFinalized : string;
  profileUpsertOk : bool;
  invoiceUpsertOk : bool
}.

Inductive MessageType := success | error | info.

(** The texts of the messages the lifecycle sets. *)
Inductive MessageText :=
  | NoCurrentInvoice
  | UserNotConnected
  | ProfileSaveFailed
  | InvoiceFinalized
  | InvoiceSaved
  | InvoiceSaveError.

Module Message.
Record t := mk { type : MessageType; text : MessageText }.
End Message.

(** The state of [InvoiceApp] that the lifecycle reads and writes, with
    the persisted history ([localStorage] entry or [invoices] table). *)
Module App.
Record t {num : Type} := mk {
  user : option AppUser.t;
  currentInvoiceId : option string;
  invoice : Invoice.t;
  companyInfo : CompanyInfo.t;
  clientInfo : ClientInfo.t;
  articles : list (Article.t num);
  invoiceStatus : Status;
  message : option Message.t;
  stored : list (SavedInvoice.t num)
}.
Arguments t : clear implicits.
Arguments mk {num}.

Definition setMessage {num} (m : Message.t) (st : t num) : t num :=
  mk (user st) (currentInvoiceId st) (invoice st) (companyInfo st)
     (clientInfo st) (articles st) (invoiceStatus st) (Some m) (stored st).

Definition setInvoiceStatus {num} (s : Status) (st : t num) : t num :=
  mk (user st) (currentInvoiceId st) (invoice st) (companyInfo st)
     (clientInfo st) (articles st) s (message st) (stored st).

Definition setInvoice {num} (i : Invoice.t) (st : t num) : t num :=
  mk (user st) (currentInvoiceId st) i (companyInfo st)
     (clientInfo st) (articles st) (invoiceStatus st) (message st)
     (stored st).

Definition setStored {num} (h : list (SavedInvoice.t num)) (st : t num)
    : t num :=
  mk (user st) (currentInvoiceId st) (invoice st) (companyInfo st)
     (clientInfo st) (articles st) (invoiceStatus st) (message st) h.
End App.

(** [updatePaymentDue(invoiceDate, terms)]. *)
Definition updatePaymentDue {host : Calendar.Host} {num} (env : Env)
    (invoiceDate terms : string) (st : App.t num) : App.t num :=
  if String.eqb invoiceDate EmptyString || String.eqb terms EmptyString
  then st
  else
    let date :=
      Calendar.parse (newDate env)
                     (join (rev (JS.split invoiceDate "/")) "-") in
    let dueDate := calculatePaymentDue (today env) date terms in
    let prev := App.invoice st in
    App.setInvoice
      (Invoice.mk (Invoice.invoiceNumber prev) (Invoice.invoiceDate prev)
                  (Invoice.deliveryDate prev) (Invoice.paymentTerms prev)
                  dueDate)
      st.

(** ** Lifecycle ([saveInvoiceToHistory], [finalizeInvoice]) *)

(** The module constant [isSupabaseConfigured]; [supabase] is non-null
    exactly when it is [true]. *)
Record Config := mkConfig { isSupabaseConfigured : bool }.

(** [!x] on [string | null]: [null] and the empty string are falsy. *)
Definition falsy (x : option string) : bool :=
  match x with
  | None => true
  | Some s => String.eqb s EmptyString
  end.

(** [history.findIndex(p)], [None] for [-1]. *)
Fixpoint findIndex {A} (p : A -> bool) (l : list A) : option nat :=
  match l with
  | [] => None
  | x :: r =>
      if p x then Some O
      else match findIndex p r with Some i => Some (S i) | None => None end
  end.

(** [history[i] = x] for an index inside the array. *)
Fixpoint setAt {A} (i : nat) (x : A) (l : list A) : list A :=
  match l, i with
  | [], _ => []
  | _ :: r, O => x :: r
  | y :: r, S i' => y :: setAt i' x r
  end.

(** Insert or replace the record of the same [id]: what the local branch
    does with [findIndex] and what the upsert on the primary key [id] of
    the [invoices] table does. *)
Definition upsert {num} (invoiceData : SavedInvoice.t num)
    (history : list (SavedInvoice.t num)) : list (SavedInvoice.t num) :=
  match findIndex (fun inv => String.eqb (SavedInvoice.id inv)
                                         (SavedInvoice.id invoiceData))
                  history with
  | Some existingIndex => setAt existingIndex invoiceData history
  | None => history ++ [invoiceData]
  end.

(** [saveUserProfile(false)]: the value it returns. The row it writes to
    [user_profiles] is not part of the invoice state. *)
Definition saveUserProfile {num} (cfg : Config) (env : Env) (st : App.t num)
    : bool :=
  if isSome (App.user st) && isSupabaseConfigured cfg
  then profileUpsertOk env
  else false.

(** [saveInvoiceToHistory(invoiceData)], run to completion. *)
Definition saveInvoiceToHistory {num} (cfg : Config) (env : Env)
    (invoiceData : SavedInvoice.t num) (st : App.t num) : App.t num :=
  match App.user st with
  | None => App.setMessage (Message.mk error UserNotConnected) st
  | Some _ =>
      if negb (isSupabaseConfigured cfg) then
        App.setStored (upsert invoiceData (App.stored st)) st
      else if invoiceUpsertOk env then
        let st' := App.setStored (upsert invoiceData (App.stored st)) st in
        if Status_eqb (SavedInvoice.status invoiceData) draft
        then App.setMessage (Message.mk success InvoiceSaved) st'
        else st'
      else App.setMessage (Message.mk error InvoiceSaveError) st
  end.

(** The object [invoiceData] built by [finalizeInvoice]. *)
Definition invoiceDataOf {num} `{Number num} (env : Env) (st : App.t num)
    (currentInvoiceId : string) : SavedInvoice.t num :=
  let invoice := App.invoice st in
  SavedInvoice.mk
    currentInvoiceId
    (Invoice.invoiceNumber invoice)
    (Invoice.invoiceDate invoice)
    (Invoice.deliveryDate invoice)
    (Invoice.paymentTerms invoice)
    (Invoice.paymentDue invoice)
    (App.companyInfo st)
    (App.clientInfo st)
    (App.articles st)
    (calculateTotal (App.articles st))
    finalized
    (isoNowCreated env)
    (Some (isoNowFinalized env)).

(** [finalizeInvoice()], up to the completion of the write it starts.
    [saveInvoiceToHistory(invoiceData)] is not awaited: with a user signed
    in it changes nothing before its first [await], so the status and the
    success message are set first and the write, with the message of its
    failure, comes after them. (The timer that clears the message five
    seconds later is outside the model.) *)
Definition finalizeInvoice {num} `{Number num} (cfg : Config) (env : Env)
    (st : App.t num) : App.t num :=
  match App.currentInvoiceId st with
  | None => App.setMessage (Message.mk error NoCurrentInvoice) st
  | Some currentInvoiceId =>
      if String.eqb currentInvoiceId EmptyString then
        App.setMessage (Message.mk error NoCurrentInvoice) st
      else if negb (isSome (App.user st)) then
        App.setMessage (Message.mk error UserNotConnected) st
      else
        let profileSaved := saveUserProfile cfg env st in
        if negb profileSaved && isSupabaseConfigured cfg then
          App.setMessage (Message.mk error ProfileSaveFailed) st
        else
          let invoiceData := invoiceDataOf env st currentInvoiceId in
          saveInvoiceToHistory cfg env invoiceData
            (App.setMessage (Message.mk success InvoiceFinalized)
               (App.setInvoiceStatus finalized st))
  end.

(** The guards of [finalizeInvoice] let the call through and the write to
    the history succeeds. *)
Definition finalizeProceeds {num} (cfg : Config) (env : Env) (st : App.t num)
    : bool :=
  negb (falsy (App.currentInvoiceId st))
  && isSome (App.user st)
  && negb (negb (saveUserProfile cfg env st) && isSupabaseConfigured cfg)
  && (negb (isSupabaseConfigured cfg) || invoiceUpsertOk env).

(** The index at which [upsert] writes a record of the given [id]. *)
Definition position {num} (id : string) (history : list (SavedInvoice.t num))
    : nat :=
  match findIndex (fun inv => String.eqb (SavedInvoice.id inv) id) history with
  | Some i => i
  | None => List.length history
  end.

(** The condition under which the page shows the button that opens the
    finalize confirmation ([invoiceStatus === 'draft' && <button ...>]). *)
Definition finalizeOffered {num} (st : App.t num) : bool :=
  Status_eqb (App.invoiceStatus st) draft.

(** ** PDF pagination ([generatePDF])

    The fixed coordinates of the page are gathered in a [Geometry], so
    that the packing loop can also be run on the small budgets of the
    specification's scenarios; [a4] holds the values of the code. *)

Local Open Scope list_scope.

Record Geometry := mkGeometry {
  tableTop : Z;                 (* [yPos] when the table starts *)
  nextPageTop : Z;              (* start of a following page: [50] *)
  footerLine : Z;               (* [285] *)
  pageFooterSpace : Z;          (* [30] *)
  bottomPadding : Z;            (* [5] *)
  headerHeight : Z;             (* [10] *)
  totalHTSpace : Z;             (* [1] *)
  paymentAndMentionsSpace : Z   (* [60] *)
}.

(** [yPos] starts at 25 and is advanced by 35, 15, 8, five times 6, 15, 7
    and 20 before the table. *)
Definition a4 : Geometry :=
  mkGeometry (25 + 35 + 15 + 8 + 6 + 6 + 6 + 6 + 6 + 15 + 7 + 20)
             50 285 30 5 10 1 60.

Definition maxYPerPage (g : Geometry) : Z := footerLine g - pageFooterSpace g.

(** [Math.max(20, article.description.length * 4 + 10)]. *)
Definition articleHeight {num} (article : Article.t num) : Z :=
  Z.max 20 (Z.of_nat (List.length (Article.description article)) * 4 + 10).

Module PageBreak.
Record t {num : Type} := mk {
  page : Z;
  articles : list (Article.t num);
  startIndex : nat;
  hasSpaceForTotal : bool
}.
Arguments t : clear implicits.
Arguments mk {num}.
End PageBreak.

(** The variables of the packing loop. *)
Module Pack.
Record t {num : Type} := mk {
  currentPageY : Z;
  currentPage : Z;
  pageBreaks : list (PageBreak.t num);
  currentPageArticles : list (Article.t num);
  articleStartIndex : nat
}.
Arguments t : clear implicits.
Arguments mk {num}.
End Pack.

Definition packInit {num} (g : Geometry) : Pack.t num :=
  Pack.mk (tableTop g) 1 [] [] O.

(** [currentPageY + spaceNeeded] for the article about to be placed. *)
Definition spaceNeeded {num} (g : Geometry) (st : Pack.t num)
    (article : Article.t num) : Z :=
  let isFirstArticleOfPage :=
    (List.length (Pack.currentPageArticles st) =? 0)%nat in
  let headerSpace := if isFirstArticleOfPage then headerHeight g else 0 in
  articleHeight article + headerSpace.

(** [hasSpaceForTotal] as computed from the cursor. *)
Definition spaceForTotal (g : Geometry) (currentPageY : Z) : bool :=
  currentPageY + totalHTSpace g <=? maxYPerPage g - bottomPadding g.

(** One turn of [articles.forEach((article, index) => ...)]. *)
Definition packStep {num} (g : Geometry) (st : Pack.t num)
    (article : Article.t num) (index : nat) : Pack.t num :=
  let needed := spaceNeeded g st article in
  if Pack.currentPageY st + needed >? maxYPerPage g - bottomPadding g then
    let pageBreaks :=
      if (0 <? List.length (Pack.currentPageArticles st))%nat then
        Pack.pageBreaks st
          ++ [PageBreak.mk (Pack.currentPage st)
                           (Pack.currentPageArticles st)
                           (Pack.articleStartIndex st)
                           (spaceForTotal g (Pack.currentPageY st))]
      else Pack.pageBreaks st in
    Pack.mk (nextPageTop g + needed)
            (Pack.currentPage st + 1)
            pageBreaks
            [article]
            index
  else
    Pack.mk (Pack.currentPageY st + needed)
            (Pack.currentPage st)
            (Pack.pageBreaks st)
            (Pack.currentPageArticles st ++ [article])
            (Pack.articleStartIndex st).

(** The [forEach] from a given index on. *)
Fixpoint packFrom {num} (g : Geometry) (st : Pack.t num)
    (articles : list (Article.t num)) (index : nat) : Pack.t num :=
  match articles with
  | [] => st
  | article :: rest => packFrom g (packStep g st article index) rest (S index)
  end.

(** The push of the last page after the loop. *)
Definition closeLastPage {num} (g : Geometry) (st : Pack.t num)
    : list (PageBreak.t num) :=
  if (0 <? List.length (Pack.currentPageArticles st))%nat
     && negb (isSome (find (fun p => (PageBreak.startIndex p
                                      =? Pack.articleStartIndex st)%nat)
                           (Pack.pageBreaks st)))
  then
    Pack.pageBreaks st
      ++ [PageBreak.mk (Pack.currentPage st)
                       (Pack.currentPageArticles st)
                       (Pack.articleStartIndex st)
                       (spaceForTotal g (Pack.currentPageY st))]
  else Pack.pageBreaks st.

(** The array [pageBreaks] when the pre-computation is over. *)
Definition pageBreaksOf {num} (g : Geometry) (articles : list (Article.t num))
    : list (PageBreak.t num) :=
  closeLastPage g (packFrom g (packInit g) articles O).

(** [pageBreaks[pageBreaks.length - 1]], [None] for [undefined]. *)
Definition lastPage {A} (l : list A) : option A :=
  nth_error l (List.length l - 1).

(** The sum of the article heights of a page, from a starting value. *)
Definition addHeights {num} (start : Z) (articles : list (Article.t num)) : Z :=
  fold_left (fun y article => y + articleHeight article) articles start.

(** [totalPages], computed before drawing. *)
Definition totalPages {num} (g : Geometry) (pageBreaks : list (PageBreak.t num))
    : Z :=
  let lastPageForTotal := lastPage pageBreaks in
  let totalPages := Z.of_nat (List.length pageBreaks) in
  let totalPages :=
    match lastPageForTotal with
    | Some p => if negb (PageBreak.hasSpaceForTotal p)
                then totalPages + 1 else totalPages
    | None => totalPages
    end in
  match lastPageForTotal with
  | Some p =>
      if PageBreak.hasSpaceForTotal p then
        let isFirstPage := (List.length pageBreaks =? 1)%nat in
        let startY := if isFirstPage then tableTop g else nextPageTop g in
        let estimatedYAfterArticles := startY + headerHeight g in
        let estimatedYAfterArticles :=
          addHeights estimatedYAfterArticles (PageBreak.articles p) in
        let estimatedYAfterArticles := estimatedYAfterArticles + 10 in
        let spaceAfterTotal := estimatedYAfterArticles + totalHTSpace g in
        if spaceAfterTotal + paymentAndMentionsSpace g
           >? maxYPerPage g - bottomPadding g
        then totalPages + 1 else totalPages
      else totalPages
  | None => totalPages
  end.

(** What the render pass asks of the document, in order. The document
    starts with one page; [AddPage] is [doc.addPage()]; [TotalHT y amount]
    is the box with the label and [amount] followed by the euro sign. *)
Inductive DrawOp {num : Type} :=
  | AddPage
  | TableHeader (startY : Z)
  | ArticleRow (article : Article.t num) (index : nat) (contentY : Z)
  | TableBorder (startY tableHeight : Z)
  | PageFooter (pageNum totalPages : Z)
  | TotalHT (yPos : Z) (amount : string)
  | PaymentAndMentions (yPos : Z).
Arguments DrawOp : clear implicits.

(** [pageData.articles.forEach(...)]: the rows of a page and the final
    [contentY]. *)
Fixpoint drawArticles {num} (articles : list (Article.t num))
    (startIndex articleIndex : nat) (contentY : Z)
    : list (DrawOp num) * Z :=
  match articles with
  | [] => ([], contentY)
  | article :: rest =>
      let globalIndex := (startIndex + articleIndex)%nat in
      let '(ops, y) :=
        drawArticles rest startIndex (S articleIndex)
                     (contentY + articleHeight article) in
      (ArticleRow article globalIndex contentY :: ops, y)
  end.

(** [pageBreaks.forEach((pageData, pageIndex) => ...)]: the operations
    and the final [finalYPos]. *)
Fixpoint drawPages {num} (g : Geometry) (totalPages : Z)
    (pageBreaks : list (PageBreak.t num)) (pageIndex : nat) (finalYPos : Z)
    : list (DrawOp num) * Z :=
  match pageBreaks with
  | [] => ([], finalYPos)
  | pageData :: rest =>
      let newPage := if (0 <? pageIndex)%nat then [AddPage] else [] in
      let finalYPos := if (0 <? pageIndex)%nat then nextPageTop g else finalYPos in
      let headerEndY := finalYPos + headerHeight g in
      let '(rows, contentY) :=
        drawArticles (PageBreak.articles pageData)
                     (PageBreak.startIndex pageData) O headerEndY in
      let tableHeight := contentY - finalYPos in
      let '(ops, y) :=
        drawPages g totalPages rest (S pageIndex) (contentY + 10) in
      (newPage ++ [TableHeader finalYPos] ++ rows
         ++ [TableBorder finalYPos tableHeight;
             PageFooter (PageBreak.page pageData) totalPages]
         ++ ops,
       y)
  end.

(** The part of [generatePDF] from the page-count pre-computation to the
    payment block: the value of [totalPages] and the operations drawn. *)
Definition generatePDF {num} `{Number num} (g : Geometry)
    (articles : list (Article.t num)) : Z * list (DrawOp num) :=
  let pageBreaks := pageBreaksOf g articles in
  let totalPages := totalPages g pageBreaks in
  let '(tableOps, finalYPos) := drawPages g totalPages pageBreaks O (tableTop g) in
  let lastPageData := lastPage pageBreaks in
  let onSamePage :=
    match lastPageData with
    | Some p => PageBreak.hasSpaceForTotal p
    | None => false
    end in
  let totalHTYPos := if onSamePage then finalYPos else nextPageTop g in
  let needsNewPageForPayment :=
    if onSamePage then
      let spaceAfterTotal := totalHTYPos + totalHTSpace g in
      spaceAfterTotal + paymentAndMentionsSpace g
        >? maxYPerPage g - bottomPadding g
    else false in
  let totalOps :=
    (if onSamePage then [] else [AddPage; PageFooter totalPages totalPages])
      ++ [TotalHT totalHTYPos (toFixed2 (calculateTotal articles))] in
  let yPos := totalHTYPos + 20 in
  let paymentOps :=
    if needsNewPageForPayment
    then [AddPage; PageFooter totalPages totalPages;
          PaymentAndMentions (nextPageTop g)]
    else [PaymentAndMentions yPos] in
  (totalPages, tableOps ++ totalOps ++ paymentOps).

Definition isAddPage {num} (op : DrawOp num) : bool :=
  match op with AddPage => true | _ => false end.

Definition addPages {num} (ops : list (DrawOp num)) : nat :=
  List.length (filter isAddPage ops).

(** The number of pages of the document after the operations. *)
Definition pagesEmitted {num} (ops : list (DrawOp num)) : Z :=
  1 + Z.of_nat (addPages ops).

Definition isTableHeader {num} (op : DrawOp num) : bool :=
  match op with TableHeader _ => true | _ => false end.

(** The article is placed on the page being filled. *)
Definition placedOnCurrentPage {num} (g : Geometry) (st : Pack.t num)
    (article : Article.t num) (index : nat) : Prop :=
  let st' := packStep g st article index in
  Pack.currentPage st' = Pack.currentPage st
  /\ Pack.currentPageArticles st' = Pack.currentPageArticles st ++ [article].

(** The article opens the next page. *)
Definition movedToNextPage {num} (g : Geometry) (st : Pack.t num)
    (article : Article.t num) (index : nat) : Prop :=
  let st' := packStep g st article index in
  Pack.currentPage st' = Pack.currentPage st + 1
  /\ Pack.currentPageArticles st' = [article].

(** The invariant of the packing loop: the pages already closed start
    before the page being filled, whose articles end at [index]. *)
Definition packInv {num} (st : Pack.t num) (index : nat) : Prop :=
  (forall p, In p (Pack.pageBreaks st) ->
             (PageBreak.startIndex p < Pack.articleStartIndex st)%nat)
  /\ (Pack.articleStartIndex st + List.length (Pack.currentPageArticles st)
      = index)%nat.

(** ** Bounded checks by computation *)

(** The value of a decimal numeral read after the digits that gave
    [acc]. *)
Fixpoint valueOf (d : Decimal.uint) (acc : Z) : Z :=
  match d with
  | Decimal.Nil => acc
  | Decimal.D0 l => valueOf l (10 * acc + 0)
  | Decimal.D1 l => valueOf l (10 * acc + 1)
  | Decimal.D2 l => valueOf l (10 * acc + 2)
  | Decimal.D3 l => valueOf l (10 * acc + 3)
  | Decimal.D4 l => valueOf l (10 * acc + 4)
  | Decimal.D5 l => valueOf l (10 * acc + 5)
  | Decimal.D6 l => valueOf l (10 * acc + 6)
  | Decimal.D7 l => valueOf l (10 * acc + 7)
  | Decimal.D8 l => valueOf l (10 * acc + 8)
  | Decimal.D9 l => valueOf l (10 * acc + 9)
  end.

Fixpoint allFrom (p : Z -> bool) (start : Z) (n : nat) : bool :=
  match n with
  | O => true
  | S k => p start && allFrom p (start + 1) k
  end.

Definition allBelow (p : Z -> bool) (n : Z) : bool := allFrom p 0 (Z.to_nat n).

(** ** Sample data *)

Module Sample.

(** Amounts in whole euros. *)
#[global] Instance ZNumber : Number Z := {|
  zero := 0;
  plus := Z.add;
  times := Z.mul;
  toFixed2 := fun z => (JS.String_of z ++ ".00")%string
|}.

Definition company : CompanyInfo.t :=
  CompanyInfo.mk "Ada" "Martin" "Atelier Martin" "1 rue Haute" "95000"
                 "Cergy" "0102030405" "ada@example.org" "12345678901234"
                 "Ada Martin" "BICFRPP" "FR7600000000000000000000000"
                 "Banque" None.

Definition client : ClientInfo.t :=
  ClientInfo.mk "Luc" "Petit" "2 rue Basse" "75001" "Paris"
                "43210987654321" "0605040302" "luc@example.org".

(** An article with [lines] description lines. *)
Definition article (id : string) (lines : nat) (quantity unitPrice : Z)
    : Article.t Z :=
  Article.mk id "Produit" (repeat "Description du produit"%string lines)
             quantity "Unit" unitPrice (quantity * unitPrice).

(** An update that carries nothing but a total. *)
Definition onlyTotal (t : Z) : PartialArticle.t Z :=
  PartialArticle.mk None None None None None None (Some t).

(** An update of the quantity that also carries a total. *)
Definition quantityAndTotal (q t : Z) : PartialArticle.t Z :=
  PartialArticle.mk None None None (Some q) None None (Some t).

Definition saved (id number : string) (status : Status) : SavedInvoice.t Z :=
  SavedInvoice.mk id number "01/03/2024" "01/03/2024"
                  ("30 jours " ++ JS.a_grave ++ " r" ++ JS.e_acute
                     ++ "ception")%string
                  "31/03/2024" company client [article "1" 1 2 50] 100
                  status "2024-03-01T09:00:00.000Z"
                  (match status with
                   | finalized => Some "2024-03-01T10:00:00.000Z"%string
                   | draft => None
                   end).

(** March 2024 with the finalized sequences 12, 13 and 15, a draft of
    the same month and an invoice of February. *)
Definition history : list (SavedInvoice.t Z) :=
  [ saved "a" "2024-03-0015" finalized;
    saved "b" "2024-02-0031" finalized;
    saved "c" "2024-03-0012" finalized;
    saved "d" "2024-03-0016" draft;
    saved "e" "2024-03-0013" finalized ].

(** The host of the examples: one hour east of universal time. *)
Definition paris : Calendar.Host :=
  Calendar.mkHost 3600000 eq_refl (fun y => JS.String_of (1 - y)).

(** A host five hours west of universal time. *)
Definition newYork : Calendar.Host :=
  Calendar.mkHost (-18000000) eq_refl (fun y => JS.String_of (1 - y)).

Definition march : Calendar.Date := Calendar.dateOf (host := paris) 2024 3 1.
Definition june : Calendar.Date := Calendar.dateOf (host := paris) 2024 6 15.

Definition terms20 : string :=
  ("20 jours " ++ JS.a_grave ++ " r" ++ JS.e_acute ++ "ception")%string.

Definition env (iso : string) (profileOk : bool) : Env :=
  mkEnv june (fun _ => Some march) iso iso profileOk true.

Definition remote : Config := mkConfig true.
Definition demo : Config := mkConfig false.

(** A draft being edited by a signed-in user. *)
Definition editing : App.t Z :=
  App.mk (Some (AppUser.mk "u1" "ada@example.org"))
         (Some "1709283600000"%string)
         (Invoice.mk "2024-03-0016" "01/03/2024" "01/03/2024"
                     terms20 "21/03/2024")
         company client [article "1" 1 2 50] draft None history.

(** The budget of the specification's scenario: cursor from 0, 50 units
    to fill, a header of 10. *)
Definition g50 : Geometry := mkGeometry 0 0 50 0 0 10 1 60.

End Sample.

(** ** Further definitions for the properties of the pagination *)

(** The pages lie end to end from [offset]: each starts where the one
    before stops and holds at least one article. *)
Fixpoint pagesFrom {num} (offset : nat) (pages : list (PageBreak.t num))
    : Prop :=
  match pages with
  | [] => True
  | p :: rest =>
      PageBreak.startIndex p = offset
      /\ PageBreak.articles p <> []
      /\ pagesFrom (offset + List.length (PageBreak.articles p)) rest
  end.

(** The rows drawn, with the number printed minus one. *)
Definition rowsOf {num} (ops : list (DrawOp num)) : list (Article.t num * nat) :=
  flat_map (fun op => match op with
                      | ArticleRow article index _ => [(article, index)]
                      | _ => []
                      end) ops.

(** The articles with their positions from [start]. *)
Fixpoint indexedFrom {A} (start : nat) (l : list A) : list (A * nat) :=
  match l with
  | [] => []
  | x :: r => (x, start) :: indexedFrom (S start) r
  end.

(** The footers printed, each with the page of the document it lands on
    when the operations start on page [page]. *)
Fixpoint footersFrom {num} (page : Z) (ops : list (DrawOp num))
    : list (Z * Z * Z) :=
  match ops with
  | [] => []
  | AddPage :: rest => footersFrom (page + 1) rest
  | PageFooter pageNum totalPages :: rest =>
      (page, pageNum, totalPages) :: footersFrom page rest
  | _ :: rest => footersFrom page rest
  end.

(** The first article, with the table header, fits on the first page. *)
Definition firstFits {num} (g : Geometry) (articles : list (Article.t num))
    : bool :=
  match articles with
  | [] => false
  | article :: _ =>
      tableTop g + (articleHeight article + headerHeight g)
      <=? maxYPerPage g - bottomPadding g
  end.

(** One footer per page, each with its own number, out of [total]. *)
Definition footersOfPages (total : Z) : list (Z * Z * Z) :=
  map (fun k => (Z.of_nat k, Z.of_nat k, total)) (seq 1 (Z.to_nat total)).

(** The table frames drawn: top and height. *)
Definition bordersOf {num} (ops : list (DrawOp num)) : list (Z * Z) :=
  flat_map (fun op => match op with
                      | TableBorder startY tableHeight => [(startY, tableHeight)]
                      | _ => []
                      end) ops.

(** What the packing loop keeps true: the closed pages and the page being
    filled hold, in order, the articles read so far. *)
Definition packed {num} (st : Pack.t num) (done : list (Article.t num))
    : Prop :=
  List.concat (map PageBreak.articles (Pack.pageBreaks st))
    ++ Pack.currentPageArticles st = done
  /\ pagesFrom 0 (Pack.pageBreaks st)
  /\ Pack.articleStartIndex st
     = List.length (List.concat (map PageBreak.articles (Pack.pageBreaks st))).

(** The pages carry consecutive numbers from [n]. *)
Fixpoint numberedFrom {num} (n : Z) (pages : list (PageBreak.t num)) : Prop :=
  match pages with
  | [] => True
  | p :: rest => PageBreak.page p = n /\ numberedFrom (n + 1) rest
  end.

(** The footers of the item pages when the first lands on page [page]. *)
Fixpoint footersOfItemPages {num} (total page : Z)
    (pages : list (PageBreak.t num)) : list (Z * Z * Z) :=
  match pages with
  | [] => []
  | p :: rest =>
      (page, PageBreak.page p, total) :: footersOfItemPages total (page + 1) rest
  end.

(** The sum of the heights of the articles. *)
Definition sumHeights {num} (articles : list (Article.t num)) : Z :=
  addHeights 0 articles.

(** The frames of the item pages from page index [k]: the first page of
    the document starts at [tableTop], the others at [nextPageTop]. *)
Fixpoint framesFrom {num} (g : Geometry) (k : nat)
    (pages : list (PageBreak.t num)) : list (Z * Z) :=
  match pages with
  | [] => []
  | p :: rest =>
      ((if (0 <? k)%nat then nextPageTop g else tableTop g),
       headerHeight g + sumHeights (PageBreak.articles p))
        :: framesFrom g (S k) rest
  end.

(** The height budget kept by the pages from page index [k]: the first
    page ends on or above the limit with its header; a later page with
    two articles or more does so without counting its header. *)
Fixpoint pagesWithin {num} (g : Geometry) (k : nat)
    (pages : list (PageBreak.t num)) : Prop :=
  match pages with
  | [] => True
  | p :: rest =>
      (if (0 <? k)%nat
       then (2 <= List.length (PageBreak.articles p))%nat ->
            nextPageTop g + sumHeights (PageBreak.articles p)
            <= maxYPerPage g - bottomPadding g
       else tableTop g + headerHeight g + sumHeights (PageBreak.articles p)
            <= maxYPerPage g - bottomPadding g)
      /\ pagesWithin g (S k) rest
  end.

(** The page numbers kept by the loop once a page is being filled: the
    closed pages count from [first] and the current page follows them. *)
Definition numbering {num} (first : Z) (st : Pack.t num) : Prop :=
  Pack.currentPageArticles st <> []
  /\ numberedFrom first (Pack.pageBreaks st)
  /\ Pack.currentPage st = first + Z.of_nat (List.length (Pack.pageBreaks st)).

(** The height budget kept by the loop once a page is being filled. *)
Definition budget {num} (g : Geometry) (st : Pack.t num) : Prop :=
  Pack.currentPageArticles st <> []
  /\ pagesWithin g 0 (Pack.pageBreaks st)
  /\ match Pack.pageBreaks st with
     | [] =>
         Pack.currentPageY st
         = tableTop g + headerHeight g
           + sumHeights (Pack.currentPageArticles st)
         /\ Pack.currentPageY st <= maxYPerPage g - bottomPadding g
     | _ :: _ =>
         Pack.currentPageY st
         = nextPageTop g + sumHeights (Pack.currentPageArticles st)
         /\ ((2 <= List.length (Pack.currentPageArticles st))%nat ->
             Pack.currentPageY st <= maxYPerPage g - bottomPadding g)
     end.


(** ** New invoices, loading and payment terms ([createNewInvoice],
    [initializeNewInvoice], [loadInvoiceFromHistory],
    [handlePaymentTermsChange], [handleDeliveryDateChange]) *)

(** The literal ['30 jours à réception']. *)
Definition terms30 : string :=
  ("30 jours " ++ JS.a_grave ++ " r" ++ JS.e_acute ++ "ception")%string.

(** [initializeNewInvoice(invoiceNumber)]; [dateNow] is the value of
    [Date.now()], an integer below 8.64e15. *)
Definition initializeNewInvoice {host : Calendar.Host} {num} (env : Env)
    (dateNow : Z) (invoiceNumber : string) (st : App.t num) : App.t num :=
  let now := today env in
  let newInvoice :=
    Invoice.mk invoiceNumber
               (Calendar.toLocaleDateString_fr now)
               (Calendar.toLocaleDateString_fr now)
               terms30
               (calculatePaymentDue now now terms30) in
  App.mk (App.user st) (Some (JS.String_of dateNow)) newInvoice
         (App.companyInfo st) (App.clientInfo st) (App.articles st)
         draft (App.message st) (App.stored st).

(** The two outcomes of [createNewInvoice]: the confirmation dialog is
    opened on the conflict text, its action being [initializeNewInvoice]
    on the number kept in the closure, or the invoice is initialized at
    once. *)
Inductive Creation {num : Type} :=
  | AskConfirmation (conflictInfo : option string) (pendingNumber : string)
  | Created (st : App.t num).
Arguments Creation : clear implicits.

(** [createNewInvoice()]; [history] is the awaited result of
    [getInvoiceHistory()]. *)
Definition createNewInvoice {host : Calendar.Host} {num} (env : Env)
    (dateNow : Z) (history : list (SavedInvoice.t num)) (st : App.t num)
    : Creation num :=
  let smartNumber := generateSmartInvoiceNumber history (today env) None in
  if SmartNumber.hasConflict smartNumber
  then AskConfirmation (SmartNumber.conflictInfo smartNumber)
                       (SmartNumber.number smartNumber)
  else Created (initializeNewInvoice env dateNow
                  (SmartNumber.number smartNumber) st).


(** [handlePaymentTermsChange(terms)]: the date passed to
    [updatePaymentDue] is the one of the state being rendered. *)
Definition handlePaymentTermsChange {host : Calendar.Host} {num} (env : Env)
    (terms : string) (st : App.t num) : App.t num :=
  let prev := App.invoice st in
  updatePaymentDue env (Invoice.invoiceDate prev) terms
    (App.setInvoice
       (Invoice.mk (Invoice.invoiceNumber prev) (Invoice.invoiceDate prev)
                   (Invoice.deliveryDate prev) terms
                   (Invoice.paymentDue prev))
       st).

(** [handleDeliveryDateChange(newDate)]. *)
Definition handleDeliveryDateChange {num} (newDate : string)
    (st : App.t num) : App.t num :=
  let prev := App.invoice st in
  App.setInvoice
    (Invoice.mk (Invoice.invoiceNumber prev) (Invoice.invoiceDate prev)
                newDate (Invoice.paymentTerms prev)
                (Invoice.paymentDue prev))
    st.

(** Every record of a history is finalized. *)
Definition allFinalized {num} (history : list (SavedInvoice.t num)) : Prop :=
  forall inv, In inv history -> SavedInvoice.status inv = finalized.

(** A date in the range of [Date] whose local year is not negative. *)
Definition inOurEra {host : Calendar.Host} (date : Calendar.Date) : bool :=
  match Calendar.timeValue date, Calendar.civil date with
  | Some tv, Some c =>
      (Z.abs tv <=? Calendar.maxTime) && (0 <=? Calendar.cyear c)
  | _, _ => false
  end.

(** ** An office with an archive of finalized invoices *)

Module Office.

Definition archive : list (SavedInvoice.t Z) :=
  [ Sample.saved "a" "2024-03-0015" finalized;
    Sample.saved "b" "2024-02-0031" finalized;
    Sample.saved "c" "2024-03-0012" finalized ].

(** The clock shows 15 June 2024 and every remote write succeeds. *)
Definition env : Env :=
  mkEnv Sample.june (fun _ => None)
        "2024-06-15T09:00:00.000Z" "2024-06-15T09:00:00.000Z" true true.

(** The same day, the write of the invoice failing. *)
Definition offline : Env :=
  mkEnv Sample.june (fun _ => None)
        "2024-06-15T09:00:00.000Z" "2024-06-15T09:00:00.000Z" true false.

(** A signed-in user with nothing being edited yet. *)
Definition idle : App.t Z :=
  App.mk (Some (AppUser.mk "u1" "ada@example.org")) None
         (Invoice.mk "2024-6-0013" "15/06/2024" "15/06/2024" terms30
                     "15/07/2024")
         Sample.company Sample.client [Sample.article "1" 1 2 50]
         draft None archive.

End Office.

(** ** More of the line items ([addArticle], [deleteArticle],
    [checkDuplicateArticleName] and the [updateArticle] of the settings
    modal) *)

(** [s.toLowerCase()] on code units below 256: the letters A to Z and
    the accented capitals U+00C0 to U+00DE, the multiplication sign
    U+00D7 apart, move up by 32. *)
Definition lowerChar (a : ascii) : ascii :=
  let n := nat_of_ascii a in
  if ((65 <=? n) && (n <=? 90))%nat
     || ((192 <=? n) && (n <=? 222) && negb (n =? 215))%nat
  then ascii_of_nat (n + 32)
  else a.

Fixpoint toLowerCase (s : string) : string :=
  match s with
  | EmptyString => EmptyString
  | String a rest => String (lowerChar a) (toLowerCase rest)
  end.

(** [s.trimEnd()] and [s.trim()], on the white space below 256. *)
Fixpoint trimEnd (s : string) : string :=
  match s with
  | EmptyString => EmptyString
  | String a rest =>
      match trimEnd rest with
      | EmptyString => if JS.isWhiteSpace a then EmptyString
                       else String a EmptyString
      | kept => String a kept
      end
  end.

Definition trim (s : string) : string := trimEnd (JS.trimStart s).

(** [checkDuplicateArticleName(name, excludeId)]; [excludeId] is [None]
    when the argument is left out. *)
Definition checkDuplicateArticleName {num} (articles : list (Article.t num))
    (name : string) (excludeId : option string) : bool :=
  existsb (fun article =>
             String.eqb (trim (toLowerCase (Article.name article)))
                        (trim (toLowerCase name))
             && negb (match excludeId with
                      | Some id => String.eqb (Article.id article) id
                      | None => false
                      end))
          articles.

(** The article that [addArticle] of the invoice page creates; [one] is
    the literal [1] and [dateNow] the value of [Date.now()]. *)
Definition newArticle {num} `{Number num} (one : num) (dateNow : Z)
    : Article.t num :=
  Article.mk (JS.String_of dateNow) "Nouvel article" ["Description"%string]
             one ("Unit" ++ JS.e_acute)%string zero zero.

(** The outcome of [addArticle()]: the list is set at once, or the
    confirmation dialog is opened; its action sets the list that the
    closure holds, the articles of the render in which [addArticle] ran
    followed by the new one. *)
Inductive Addition {num : Type} :=
  | Added (articles : list (Article.t num))
  | AskDuplicate (name : string) (pending : list (Article.t num)).
Arguments Addition : clear implicits.

Definition addArticle {num} `{Number num} (one : num) (dateNow : Z)
    (articles : list (Article.t num)) : Addition num :=
  let article := newArticle one dateNow in
  if checkDuplicateArticleName articles (Article.name article) None
  then AskDuplicate (Article.name article) (articles ++ [article])
  else Added (articles ++ [article]).

(** The articles once the addition is done, the dialog confirmed. *)
Definition confirmed {num} (a : Addition num) : list (Article.t num) :=
  match a with
  | Added articles => articles
  | AskDuplicate _ pending => pending
  end.

(** [deleteArticle(id)]. *)
Definition deleteArticle {num} (id : string)
    (articles : list (Article.t num)) : list (Article.t num) :=
  filter (fun article => negb (String.eqb (Article.id article) id))
         articles.

(** The pairs [field, value] that the settings modal passes to its
    [updateArticle(id, field, value)]. *)
Inductive FieldValue {num : Type} :=
  | IdIs (v : string)
  | NameIs (v : string)
  | DescriptionIs (v : list string)
  | QuantityIs (v : num)
  | UnitIs (v : string)
  | UnitPriceIs (v : num)
  | TotalIs (v : num).
Arguments FieldValue : clear implicits.

(** [{ ...article, [field]: value }], the total recomputed for the
    fields [quantity] and [unitPrice]. *)
Definition withField {num} `{Number num} (article : Article.t num)
    (fv : FieldValue num) : Article.t num :=
  let '(Article.mk id name description quantity unit unitPrice total) :=
    article in
  match fv with
  | IdIs v => Article.mk v name description quantity unit unitPrice total
  | NameIs v => Article.mk id v description quantity unit unitPrice total
  | DescriptionIs v => Article.mk id name v quantity unit unitPrice total
  | QuantityIs v =>
      Article.mk id name description v unit unitPrice (times v unitPrice)
  | UnitIs v => Article.mk id name description quantity v unitPrice total
  | UnitPriceIs v =>
      Article.mk id name description quantity unit v (times quantity v)
  | TotalIs v => Article.mk id name description quantity unit unitPrice v
  end.

(** [updateArticle(id, field, value)] of the settings modal. *)
Definition updateArticleField {num} `{Number num} (id : string)
    (fv : FieldValue num) (articles : list (Article.t num))
    : list (Article.t num) :=
  map (fun article =>
         if String.eqb (Article.id article) id then withField article fv
         else article)
      articles.

(** The one-key object that says the same to the [updateArticle] of the
    invoice page. *)
Definition oneKey {num} (fv : FieldValue num) : PartialArticle.t num :=
  match fv with
  | IdIs v => PartialArticle.mk (Some v) None None None None None None
  | NameIs v => PartialArticle.mk None (Some v) None None None None None
  | DescriptionIs v => PartialArticle.mk None None (Some v) None None None None
  | QuantityIs v => PartialArticle.mk None None None (Some v) None None None
  | UnitIs v => PartialArticle.mk None None None None (Some v) None None
  | UnitPriceIs v => PartialArticle.mk None None None None None (Some v) None
  | TotalIs v => PartialArticle.mk None None None None None None (Some v)
  end.

(** ** The date picker ([DatePicker]) *)

(** [new Date(year, month, day)]: local midnight of day [day] of the
    month [month], counted from 0; the years 0 to 99 stand for 1900 to
    1999. *)
Definition dateOfParts {host : Calendar.Host} (year month day : Z)
    : Calendar.Date :=
  let full := if (0 <=? year) && (year <=? 99) then 1900 + year else year in
  match Calendar.MakeDay full month (JS.Int day) with
  | Some d =>
      Calendar.mkDate
        (Calendar.TimeClip (Calendar.UTC (Calendar.MakeDate d 0)))
  | None => Calendar.invalid
  end.

(** [t.getDay()]: the day of the week in local time, 0 for Sunday; day 0
    of the time values is a Thursday. *)
Definition getDay {host : Calendar.Host} (t : Calendar.Date) : JS.number :=
  match Calendar.timeValue t with
  | Some tv => JS.Int ((Calendar.Day (Calendar.LocalTime tv) + 4) mod 7)
  | None => JS.NaN
  end.

(** The state of the picker. *)
Module Picker.
Record t := mk { currentMonth : Z; currentYear : Z }.
End Picker.


(** [new Date(currentYear, currentMonth, 1).getDay()]: the number of
    empty cells before day 1 in the grid of seven columns. *)
Definition firstDayOfMonth {host : Calendar.Host} (p : Picker.t)
    : JS.number :=
  getDay (dateOfParts (Picker.currentYear p) (Picker.currentMonth p) 1).


(** The buttons of the previous and of the next month. *)
Definition previousMonth (p : Picker.t) : Picker.t :=
  if Picker.currentMonth p =? 0
  then Picker.mk 11 (Picker.currentYear p - 1)
  else Picker.mk (Picker.currentMonth p - 1) (Picker.currentYear p).

Definition nextMonth (p : Picker.t) : Picker.t :=
  if Picker.currentMonth p =? 11
  then Picker.mk 0 (Picker.currentYear p + 1)
  else Picker.mk (Picker.currentMonth p + 1) (Picker.currentYear p).

(** A month of the picker for which the dates stay clear of the two-digit
    years and of the ends of the range of [Date]. *)
Definition pickerInRange (p : Picker.t) : bool :=
  (0 <=? Picker.currentMonth p) && (Picker.currentMonth p <=? 11)
  && (100 <=? Picker.currentYear p) && (Picker.currentYear p <=? 275000).

(** ** The formatters of the form fields ([formatPhoneNumber],
    [formatSiret], [validateSiret]) *)

(** [s.replace(/\D/g, '')]. *)
Fixpoint digitsOnly (s : string) : string :=
  match s with
  | EmptyString => EmptyString
  | String a rest =>
      if JS.isDigit a then String a (digitsOnly rest) else digitsOnly rest
  end.

(** The lookahead [(?=\d)]. *)
Definition digitAhead (s : string) : bool :=
  match s with
  | String a _ => JS.isDigit a
  | EmptyString => false
  end.

(** [s.replace(/(\d{2})(?=\d)/g, '$1 ')]: from left to right, two digits
    that a digit follows get a space after them and the search goes on
    behind them; any other character is kept and the search goes on at
    the next one. *)
Fixpoint spaceAfterPairs (s : string) : string :=
  match s with
  | EmptyString => EmptyString
  | String a t =>
      match t with
      | String b rest =>
          if JS.isDigit a && JS.isDigit b && digitAhead rest
          then String a (String b (String " " (spaceAfterPairs rest)))
          else String a (spaceAfterPairs t)
      | EmptyString => String a (spaceAfterPairs t)
      end
  end.

(** [s.replace(/(\d{3})(?=\d)/g, '$1 ')]. *)
Fixpoint spaceAfterTriples (s : string) : string :=
  match s with
  | EmptyString => EmptyString
  | String a t =>
      match t with
      | String b (String c rest) =>
          if JS.isDigit a && JS.isDigit b && JS.isDigit c && digitAhead rest
          then String a (String b (String c
                 (String " " (spaceAfterTriples rest))))
          else String a (spaceAfterTriples t)
      | _ => String a (spaceAfterTriples t)
      end
  end.

(** [formatPhoneNumber(phone)]. *)
Definition formatPhoneNumber (phone : string) : string :=
  let digits := digitsOnly phone in
  trim (spaceAfterPairs digits).

(** [digits.replace(/(\d{3})(\d{3})(\d{3})(\d{5})/, '$1 $2 $3 $4')] on
    the string of 14 digits of the branch it is called in, which the
    expression matches as a whole. *)
Definition siretGroups (digits : string) : string :=
  substring 0 3 digits ++ " " ++ substring 3 3 digits ++ " "
    ++ substring 6 3 digits ++ " " ++ substring 9 5 digits.

(** [formatSiret(siret)]. *)
Definition formatSiret (siret : string) : string :=
  let digits := digitsOnly siret in
  if (String.length digits =? 14)%nat then siretGroups digits
  else trim (spaceAfterTriples digits).

(** [validateSiret(siret)]. *)
Definition validateSiret (siret : string) : bool :=
  let digits := digitsOnly siret in
  (String.length digits =? 14)%nat.

(** A string cut into pieces of two characters, the last one of one
    character when the length is odd. *)
Fixpoint pairsOf (s : string) : list string :=
  match s with
  | EmptyString => []
  | String a t =>
      match t with
      | String b rest => String a (String b EmptyString) :: pairsOf rest
      | EmptyString => [String a EmptyString]
      end
  end.

(** A string whose last character, if any, is a digit. *)
Fixpoint endsOnDigit (s : string) : bool :=
  match s with
  | EmptyString => true
  | String a EmptyString => JS.isDigit a
  | String _ r => endsOnDigit r
  end.

(** ** Storage of the sensitive fields ([encryptData], [decryptData])

    Here a string is the list of its UTF-16 code units, as numbers, since
    [btoa] tells the code units below 256 from the others. *)

Module Base64.

(** The character of a group of six bits: [A] to [Z], [a] to [z], [0]
    to [9], [+] and [/]. *)
Definition charOf (sextet : N) : N :=
  (if sextet <? 26 then 65 + sextet
   else if sextet <? 52 then 97 + (sextet - 26)
   else if sextet <? 62 then 48 + (sextet - 52)
   else if sextet =? 62 then 43
   else 47)%N.

Definition sextetOf (c : N) : option N :=
  (if (65 <=? c) && (c <=? 90) then Some (c - 65)
   else if (97 <=? c) && (c <=? 122) then Some (c - 97 + 26)
   else if (48 <=? c) && (c <=? 57) then Some (c - 48 + 52)
   else if c =? 43 then Some 62
   else if c =? 47 then Some 63
   else None)%N.

(** The groups of six bits of a sequence of bytes, three bytes giving
    four groups; the last group of an incomplete triple is filled with
    zero bits. *)
Fixpoint toSextets (bytes : list N) : list N :=
  match bytes with
  | a :: b :: c :: rest =>
      (a / 4 :: (a mod 4) * 16 + b / 16 :: (b mod 16) * 4 + c / 64
         :: c mod 64 :: toSextets rest)%N
  | [a; b] => [a / 4; (a mod 4) * 16 + b / 16; (b mod 16) * 4]%N
  | [a] => [a / 4; (a mod 4) * 16]%N
  | [] => []
  end.

(** The [=] signs that complete the last group of four characters. *)
Definition padding (bytes : list N) : list N :=
  match (List.length bytes mod 3)%nat with
  | 1%nat => [61; 61]%N
  | 2%nat => [61]%N
  | _ => []
  end.

(** [btoa(data)]: [None] for the exception raised when a code unit is
    above 255. *)
Definition btoa (data : list N) : option (list N) :=
  if forallb (fun u => u <? 256)%N data
  then Some (map charOf (toSextets data) ++ padding data)
  else None.

(** ASCII white space: TAB, LF, FF, CR and SPACE. *)
Definition isAsciiWhitespace (c : N) : bool :=
  ((c =? 9) || (c =? 10) || (c =? 12) || (c =? 13) || (c =? 32))%N.

(** One or two [=] at the end are removed. *)
Definition dropPadding (data : list N) : list N :=
  match rev data with
  | last :: before =>
      if (last =? 61)%N then
        match before with
        | last' :: before' =>
            if (last' =? 61)%N then rev before' else rev before
        | [] => rev before
        end
      else data
  | [] => data
  end.

(** The groups of six bits of the characters, [None] when one of them is
    not of the alphabet. *)
Fixpoint sextetsOf (data : list N) : option (list N) :=
  match data with
  | [] => Some []
  | c :: rest =>
      match sextetOf c, sextetsOf rest with
      | Some s, Some l => Some (s :: l)
      | _, _ => None
      end
  end.

(** The bytes of the groups of six bits; the bits left over at the end
    are dropped. *)
Fixpoint fromSextets (l : list N) : list N :=
  match l with
  | s1 :: s2 :: s3 :: s4 :: rest =>
      (s1 * 4 + s2 / 16 :: (s2 mod 16) * 16 + s3 / 4 :: (s3 mod 4) * 64 + s4
         :: fromSextets rest)%N
  | [s1; s2; s3] => [s1 * 4 + s2 / 16; (s2 mod 16) * 16 + s3 / 4]%N
  | [s1; s2] => [s1 * 4 + s2 / 16]%N
  | _ => []
  end.

(** [atob(data)], the forgiving decoding: white space is skipped, the
    padding removed from a length that is a multiple of four, and a
    length of one more than a multiple of four or a character outside
    the alphabet raise the exception ([None]). *)
Definition atob (data : list N) : option (list N) :=
  let data := filter (fun c => negb (isAsciiWhitespace c)) data in
  let data :=
    if (List.length data mod 4 =? 0)%nat then dropPadding data else data in
  if (List.length data mod 4 =? 1)%nat then None
  else match sextetsOf data with
       | Some l => Some (fromSextets l)
       | None => None
       end.

End Base64.

(** The code units of a string of the other sections. *)
Definition unitsOf (s : string) : list N :=
  map N_of_ascii (list_ascii_of_string s).

(** [process.env.REACT_APP_ENCRYPTION_KEY || 'default_key']. *)
Definition keyOf (encryptionKey : option (list N)) : list N :=
  match encryptionKey with
  | None | Some [] => unitsOf "default_key"
  | Some key => key
  end.

(** [chars.map((char, i) => String.fromCharCode(char.charCodeAt(0) ^
    key.charCodeAt(i % key.length)))], from the index [i] on. *)
Fixpoint xorFrom (key : list N) (i : nat) (chars : list N) : list N :=
  match chars with
  | [] => []
  | char :: rest =>
      N.lxor char (nth (i mod List.length key) key 0%N)
        :: xorFrom key (S i) rest
  end.

(** [encryptData(data)]; [None] stands for [undefined] and [null]. *)
Definition encryptData (encryptionKey : option (list N))
    (data : option (list N)) : list N :=
  match data with
  | None | Some [] => []
  | Some data =>
      let key := keyOf encryptionKey in
      match Base64.btoa (xorFrom key 0 data) with
      | Some encrypted => encrypted
      | None => []
      end
  end.

(** [decryptData(encryptedData)]. *)
Definition decryptData (encryptionKey : option (list N))
    (encryptedData : option (list N)) : list N :=
  match encryptedData with
  | None | Some [] => []
  | Some encryptedData =>
      let key := keyOf encryptionKey in
      match Base64.atob encryptedData with
      | Some decoded => xorFrom key 0 decoded
      | None => encryptedData
      end
  end.

(** Every code unit is below 256. *)
Definition bytes (l : list N) : Prop := Forall (fun u => (u < 256)%N) l.
(** * Properties *)

Lemma allFrom_spec (p : Z -> bool) (n : nat) : forall start,
  allFrom p start n = true ->
  forall z, start <= z < start + Z.of_nat n -> p z = true.
Proof.
  induction n as [| k IH]; intros start Hall z Hz; [lia |].
  simpl in Hall. apply andb_prop in Hall as [Hk Hrest].
  destruct (Z.eq_dec z start) as [-> | Hne]; [exact Hk |].
  apply (IH (start + 1)); [exact Hrest | lia].
Qed.

Lemma allBelow_spec (p : Z -> bool) (n : Z) :
  allBelow p n = true -> forall z, 0 <= z < n -> p z = true.
Proof.
  intros Hall z Hz. apply (allFrom_spec p (Z.to_nat n) 0 Hall). lia.
Qed.

(** ** Strings *)

Lemma repeat0_length k : String.length (JS.repeat0 k) = k.
Proof. induction k; simpl; congruence. Qed.

Lemma string_length_app (s t : string) :
  String.length (s ++ t)%string = (String.length s + String.length t)%nat.
Proof. induction s; simpl; congruence. Qed.

Lemma string_app_assoc (s t u : string) :
  ((s ++ t) ++ u = s ++ (t ++ u))%string.
Proof. induction s; simpl; congruence. Qed.

Lemma padStart0_length s n :
  String.length (JS.padStart0 s n) = Nat.max n (String.length s).
Proof.
  unfold JS.padStart0. rewrite string_length_app, repeat0_length. lia.
Qed.

(** Below 10000 a number printed on four digits has four characters. *)
Lemma pad4_length n :
  0 <= n < 10000 -> String.length (JS.padStart0 (JS.String_of n) 4) = 4%nat.
Proof.
  intros Hn. apply Nat.eqb_eq.
  apply (allBelow_spec
           (fun n => (String.length (JS.padStart0 (JS.String_of n) 4) =? 4)%nat)
           10000); [vm_compute; reflexivity | exact Hn].
Qed.

Lemma pad2_length n :
  0 <= n < 100 -> String.length (JS.padStart0 (JS.String_of n) 2) = 2%nat.
Proof.
  intros Hn. apply Nat.eqb_eq.
  apply (allBelow_spec
           (fun n => (String.length (JS.padStart0 (JS.String_of n) 2) =? 2)%nat)
           100); [vm_compute; reflexivity | exact Hn].
Qed.

(** ** The calendar *)

Module CalendarFacts.
Import Calendar.

Ltac div_lia := Z.div_mod_to_equations; lia.
Ltac tests :=
  cbv [Z.ltb Z.leb Z.eqb Pos.eqb Z.compare Pos.compare Pos.compare_cont orb] in *.

Ltac closed_sums :=
  repeat match goal with
         | |- context [Z.pos ?p + 1] =>
             let v := eval vm_compute in (Z.pos p + 1) in
             change (Z.pos p + 1) with v
         end.

Lemma isLeap_spec y :
  isLeap y = true <-> y mod 4 = 0 /\ (y mod 100 <> 0 \/ y mod 400 = 0).
Proof.
  unfold isLeap.
  rewrite Bool.orb_true_iff, Bool.andb_true_iff, Bool.negb_true_iff.
  rewrite !Z.eqb_eq, Z.eqb_neq. div_lia.
Qed.

Lemma months m :
  1 <= m <= 12 ->
  m = 1 \/ m = 2 \/ m = 3 \/ m = 4 \/ m = 5 \/ m = 6 \/
  m = 7 \/ m = 8 \/ m = 9 \/ m = 10 \/ m = 11 \/ m = 12.
Proof. lia. Qed.

Lemma daysInMonth_bounds y m : 28 <= daysInMonth y m <= 31.
Proof.
  unfold daysInMonth.
  destruct (m =? 2); [destruct (isLeap y) |
    destruct ((m =? 4) || (m =? 6) || (m =? 9) || (m =? 11))]; lia.
Qed.

Lemma era_bounds doe :
  0 <= doe < 146097 ->
  let yoe := (doe - doe / 1460 + doe / 36524 - doe / 146096) / 365 in
  let doy := doe - (365 * yoe + yoe / 4 - yoe / 100) in
  let mp := (5 * doy + 2) / 153 in
  0 <= yoe < 400 /\ 0 <= doy < 366 /\ 0 <= mp < 12
  /\ (doy = 365 -> yoe mod 4 = 3 /\ (yoe mod 100 <> 99 \/ yoe = 399)).
Proof.
  intros Hdoe. cbv zeta. div_lia.
Qed.

Lemma yoe_of_doe yoe doy :
  0 <= yoe < 400 -> 0 <= doy < 366 ->
  (doy = 365 -> yoe mod 4 = 3 /\ (yoe mod 100 <> 99 \/ yoe = 399)) ->
  let doe := yoe * 365 + yoe / 4 - yoe / 100 + doy in
  0 <= doe < 146097 /\
  (doe - doe / 1460 + doe / 36524 - doe / 146096) / 365 = yoe.
Proof.
  intros Hyoe Hdoy Hleap. cbv zeta. div_lia.
Qed.

Lemma mp_of_doy m d :
  1 <= m <= 12 ->
  1 <= d <= (if m =? 2 then 29 else
             if (m =? 4) || (m =? 6) || (m =? 9) || (m =? 11)
             then 30 else 31) ->
  let mp := if 2 <? m then m - 3 else m + 9 in
  let doy := (153 * mp + 2) / 5 + d - 1 in
  0 <= doy < 366 /\ (5 * doy + 2) / 153 = mp
  /\ (if mp <? 10 then mp + 3 else mp - 9) = m
  /\ (doy = 365 -> m = 2 /\ d = 29).
Proof.
  intros Hm Hd. cbv zeta.
  pose proof (months m Hm) as Hcases.
  repeat (destruct Hcases as [-> | Hcases]); try subst m; tests;
    repeat split; try div_lia.
Qed.

(** Every day number is a calendar day and is found again from it. *)
Lemma days_from_civil_from_days z :
  let c := civil_from_days z in
  days_from_civil (cyear c) (cmonth c) (cday c) = z.
Proof.
  unfold civil_from_days. cbv zeta.
  set (era := (z + 719468) / 146097).
  set (doe := z + 719468 - era * 146097).
  assert (Hdoe : 0 <= doe < 146097) by (subst doe era; div_lia).
  pose proof (era_bounds doe Hdoe) as Hb. cbv zeta in Hb.
  set (yoe := (doe - doe / 1460 + doe / 36524 - doe / 146096) / 365) in *.
  set (doy := doe - (365 * yoe + yoe / 4 - yoe / 100)) in *.
  set (mp := (5 * doy + 2) / 153) in *.
  destruct Hb as (Hyoe & Hdoy & Hmp & _).
  cbn [cyear cmonth cday]. unfold days_from_civil. cbv zeta.
  destruct (Z.ltb_spec mp 10) as [Hlt | Hge].
  - replace (mp + 3 <=? 2) with false by (symmetry; apply Z.leb_gt; lia).
    replace (2 <? mp + 3) with true by (symmetry; apply Z.ltb_lt; lia).
    replace (mp + 3 - 3) with mp by lia.
    replace ((yoe + era * 400) / 400) with era by div_lia.
    replace (yoe + era * 400 - era * 400) with yoe by ring.
    unfold doy, doe. ring.
  - replace (mp - 9 <=? 2) with true by (symmetry; apply Z.leb_le; lia).
    replace (2 <? mp - 9) with false by (symmetry; apply Z.ltb_ge; lia).
    replace (mp - 9 + 9) with mp by lia.
    replace ((yoe + era * 400 + 1 - 1) / 400) with era by div_lia.
    replace (yoe + era * 400 + 1 - 1 - era * 400) with yoe by ring.
    unfold doy, doe. ring.
Qed.

(** Every calendar day is found again from its day number. *)
Lemma civil_from_days_of_civil y m d :
  valid (mkCivil y m d) ->
  civil_from_days (days_from_civil y m d) = mkCivil y m d.
Proof.
  intros [Hm Hd]. cbn [cyear cmonth cday] in Hm, Hd.
  assert (Hd' : 1 <= d <= (if m =? 2 then 29 else
             if (m =? 4) || (m =? 6) || (m =? 9) || (m =? 11)
             then 30 else 31)).
  { unfold daysInMonth in Hd. destruct (m =? 2); [| exact Hd].
    destruct (isLeap y); lia. }
  pose proof (mp_of_doy m d Hm Hd') as Hmp. cbv zeta in Hmp.
  assert (Hleap : m = 2 -> d = 29 ->
                  y mod 4 = 0 /\ (y mod 100 <> 0 \/ y mod 400 = 0)).
  { intros -> ->. apply isLeap_spec. unfold daysInMonth in Hd.
    change (2 =? 2) with true in Hd. cbv iota in Hd.
    destruct (isLeap y); [reflexivity | lia]. }
  clear Hd Hd'.
  unfold days_from_civil, civil_from_days. cbv zeta.
  set (y' := if m <=? 2 then y - 1 else y).
  assert (Hy' : y = if m <=? 2 then y' + 1 else y')
    by (subst y'; destruct (m <=? 2); lia).
  assert (Hfeb : m = 2 -> y' = y - 1) by (intros ->; reflexivity).
  clearbody y'.
  set (era := y' / 400).
  set (yoe := y' - era * 400).
  assert (Hyoe : 0 <= yoe < 400) by (subst yoe era; div_lia).
  set (mp := if 2 <? m then m - 3 else m + 9) in *.
  set (doy := (153 * mp + 2) / 5 + d - 1) in *.
  destruct Hmp as (Hdoy & Hmp & Hm' & H365).
  assert (Hyl : doy = 365 ->
                yoe mod 4 = 3 /\ (yoe mod 100 <> 99 \/ yoe = 399)).
  { intros E. destruct (H365 E) as [Em Ed].
    specialize (Hleap Em Ed). specialize (Hfeb Em).
    subst yoe era. clear - Hleap Hfeb. div_lia. }
  pose proof (yoe_of_doe yoe doy Hyoe Hdoy Hyl) as [Hdoe Hyoe'].
  cbv zeta in Hdoe, Hyoe'.
  set (doe := yoe * 365 + yoe / 4 - yoe / 100 + doy) in *.
  replace (era * 146097 + doe - 719468 + 719468)
    with (era * 146097 + doe) by ring.
  replace ((era * 146097 + doe) / 146097) with era by div_lia.
  replace (era * 146097 + doe - era * 146097) with doe by ring.
  rewrite Hyoe'.
  replace (doe - (365 * yoe + yoe / 4 - yoe / 100)) with doy
    by (unfold doe; ring).
  rewrite Hmp, Hm'.
  f_equal.
  - rewrite Hy'. unfold yoe. destruct (m <=? 2); ring.
  - unfold doy. ring.
Qed.

Lemma civil_from_days_valid z : valid (civil_from_days z).
Proof.
  unfold civil_from_days. cbv zeta.
  set (era := (z + 719468) / 146097).
  set (doe := z + 719468 - era * 146097).
  assert (Hdoe : 0 <= doe < 146097) by (subst doe era; div_lia).
  pose proof (era_bounds doe Hdoe) as Hb. cbv zeta in Hb.
  set (yoe := (doe - doe / 1460 + doe / 36524 - doe / 146096) / 365) in *.
  set (doy := doe - (365 * yoe + yoe / 4 - yoe / 100)) in *.
  assert (Hmpdef : 153 * ((5 * doy + 2) / 153) <= 5 * doy + 2
                   < 153 * ((5 * doy + 2) / 153) + 153) by div_lia.
  set (mp := (5 * doy + 2) / 153) in *.
  destruct Hb as (Hyoe & Hdoy & Hmp & H365).
  clearbody mp doy yoe. clear Hdoe. clearbody doe era.
  unfold valid. cbn [cyear cmonth cday].
  assert (Hcases : mp = 0 \/ mp = 1 \/ mp = 2 \/ mp = 3 \/ mp = 4 \/ mp = 5 \/
                   mp = 6 \/ mp = 7 \/ mp = 8 \/ mp = 9 \/ mp = 10 \/ mp = 11)
    by lia.
  unfold daysInMonth.
  repeat (destruct Hcases as [-> | Hcases]); try subst mp;
    match goal with
    | |- context [if ?a <? 10 then ?b else ?c] =>
        let t := constr:(if a <? 10 then b else c) in
        let v := eval vm_compute in t in
        change t with v
    end;
    tests; try (split; [lia | div_lia]).
  split; [lia |].
  destruct (isLeap (yoe + era * 400 + 1)) eqn:Eleap; [div_lia |].
  assert (Hd : doy <> 365).
  { intros E. specialize (H365 E).
    assert (Htrue : isLeap (yoe + era * 400 + 1) = true)
      by (apply isLeap_spec; clear - H365 Hyoe; div_lia).
    congruence. }
  div_lia.
Qed.

Lemma nextDay_valid c : valid c -> valid (nextDay c).
Proof.
  destruct c as [y m d]. unfold valid, nextDay. cbn [cyear cmonth cday].
  intros [Hm Hd].
  destruct (Z.ltb_spec d (daysInMonth y m)); cbn [cyear cmonth cday];
    [lia |].
  destruct (Z.ltb_spec m 12); cbn [cyear cmonth cday].
  - pose proof (daysInMonth_bounds y (m + 1)). lia.
  - pose proof (daysInMonth_bounds (y + 1) 1). lia.
Qed.

Lemma days_from_civil_nextDay c :
  valid c ->
  let n := nextDay c in
  days_from_civil (cyear n) (cmonth n) (cday n) =
    days_from_civil (cyear c) (cmonth c) (cday c) + 1.
Proof.
  destruct c as [y m d]. unfold valid, nextDay. cbn [cyear cmonth cday].
  intros [Hm Hd]. cbv zeta.
  destruct (Z.ltb_spec d (daysInMonth y m)) as [Hlt | Hge];
    cbn [cyear cmonth cday].
  - unfold days_from_civil. cbv zeta. ring.
  - assert (Ed : d = daysInMonth y m) by lia. clear Hd Hge.
    unfold daysInMonth in Ed.
    pose proof (isLeap_spec y) as Hleap.
    pose proof (months m Hm) as Hcases.
    unfold days_from_civil. cbv zeta.
    repeat (destruct Hcases as [-> | Hcases]); try subst m; tests;
      cbn [cyear cmonth cday]; tests; closed_sums; tests; subst d;
      try div_lia.
    destruct (isLeap y).
    + assert (Hl : y mod 4 = 0 /\ (y mod 100 <> 0 \/ y mod 400 = 0))
        by now apply Hleap.
      clear Hleap. div_lia.
    + assert (Hl : ~ (y mod 4 = 0 /\ (y mod 100 <> 0 \/ y mod 400 = 0)))
        by (intros Hc; apply Hleap in Hc; discriminate).
      clear Hleap. div_lia.
Qed.

(** Consecutive day numbers are consecutive calendar days. *)
Lemma civil_from_days_succ z :
  civil_from_days (z + 1) = nextDay (civil_from_days z).
Proof.
  pose proof (civil_from_days_valid z) as Hv.
  pose proof (days_from_civil_nextDay _ Hv) as Hn. cbv zeta in Hn.
  rewrite days_from_civil_from_days in Hn. rewrite <- Hn.
  pose proof (nextDay_valid _ Hv) as Hv'.
  destruct (nextDay (civil_from_days z)) as [y m d].
  now apply civil_from_days_of_civil.
Qed.

End CalendarFacts.

(** ** The doubles *)

Lemma toDouble_exact (z : Z) :
  Z.abs z < firstRounded -> JS.toDouble z = JS.Int z.
Proof.
  intros Hz. unfold JS.toDouble. cbv zeta.
  change (2 ^ 53) with firstRounded.
  apply Z.ltb_lt in Hz. now rewrite Hz.
Qed.

(** From 2^53 on the nearest double is itself at least 2^53. *)
Lemma toDouble_large (z : Z) :
  firstRounded <= Z.abs z ->
  match JS.toDouble z with
  | JS.Int v => firstRounded <= Z.abs v
  | JS.Infinity _ => True
  | JS.NaN => False
  end.
Proof.
  intros Hz. unfold JS.toDouble. cbv zeta.
  change (2 ^ 53) with firstRounded.
  apply Z.ltb_ge in Hz as Hlt. rewrite Hlt.
  set (a := Z.abs z) in *.
  assert (Ha : 0 < a) by (unfold firstRounded in Hz; lia).
  destruct (Z.log2_spec a Ha) as [Hlow Hhigh].
  assert (He : 53 <= Z.log2 a).
  { change 53 with (Z.log2 firstRounded). now apply Z.log2_le_mono. }
  set (e := Z.log2 a) in *.
  set (ulp := 2 ^ (e - 52)).
  assert (Hulp : 0 < ulp) by (apply Z.pow_pos_nonneg; lia).
  assert (Hfactor : 2 ^ e = 2 ^ 52 * ulp).
  { unfold ulp. rewrite <- Z.pow_add_r by lia. f_equal. lia. }
  assert (Hq : 2 ^ 52 <= a / ulp).
  { apply Z.div_le_lower_bound; [exact Hulp |]. rewrite Z.mul_comm. lia. }
  set (q := a / ulp) in *.
  set (m := if 2 * (a mod ulp) <? ulp then q
            else if ulp <? 2 * (a mod ulp) then q + 1
                 else if Z.even q then q else q + 1).
  assert (Hm : q <= m).
  { unfold m. destruct (_ <? ulp); [lia |].
    destruct (ulp <? _); [lia |]. destruct (Z.even q); lia. }
  destruct (2 ^ 1024 <=? m * ulp); [exact I |].
  assert (Hv : firstRounded <= m * ulp).
  { apply Z.le_trans with (2 ^ 52 * ulp).
    - rewrite <- Hfactor. apply Z.le_trans with (2 ^ 53).
      + reflexivity.
      + apply Z.pow_le_mono_r; lia.
    - apply Z.mul_le_mono_nonneg_r; lia. }
  assert (Hz0 : z <> 0) by (unfold a in Ha; lia).
  destruct z; [congruence | |]; cbn [Z.sgn]; lia.
Qed.

(** ** The Date object *)

Section DateFacts.
Import Calendar.
Context {host : Host}.

Lemma localTZA_bounds : - msPerDay < localTZA < msPerDay.
Proof.
  pose proof localTZA_range as Hr. apply Z.ltb_lt in Hr. lia.
Qed.

Lemma days_from_civil_day y m d :
  days_from_civil y m d = days_from_civil y m 1 + d - 1.
Proof. unfold days_from_civil. cbv zeta. ring. Qed.

(** [MakeDay] on the year and the month of a day gives the days of that
    month. *)
Lemma MakeDay_civil (D v : Z) :
  let c := civil_from_days D in
  MakeDay (cyear c) (cmonth c - 1) (JS.Int v) = Some (D + v - cday c).
Proof.
  intros c. unfold MakeDay.
  destruct (CalendarFacts.civil_from_days_valid D) as [Hm _]. fold c in Hm.
  rewrite Z.div_small, Z.mod_small, Z.add_0_r, Z.sub_add by lia.
  pose proof (CalendarFacts.days_from_civil_from_days D) as Hrt.
  cbv zeta in Hrt. fold c in Hrt.
  rewrite days_from_civil_day in Hrt. f_equal. lia.
Qed.

Lemma Day_split (t : Z) : t = Day t * msPerDay + TimeWithinDay t.
Proof.
  unfold Day, TimeWithinDay, msPerDay. rewrite Z.mul_comm.
  apply Z.div_mod. discriminate.
Qed.

Lemma Day_shift (t n : Z) : Day (t + n * msPerDay) = Day t + n.
Proof. unfold Day. apply Z.div_add. discriminate. Qed.

(** [setDate] on an integer moves the time value by whole days. *)
Lemma setDate_Int (t : Date) (tv v : Z) :
  timeValue t = Some tv ->
  setDate t (JS.Int v)
  = mkDate (TimeClip
              (tv + (v - cday (civil_from_days (Day (LocalTime tv))))
                    * msPerDay)).
Proof.
  intros Htv. unfold setDate. rewrite Htv.
  pose proof (MakeDay_civil (Day (LocalTime tv)) v) as Hday.
  cbv zeta in *. rewrite Hday. do 2 f_equal.
  unfold UTC, MakeDate.
  pose proof (Day_split (LocalTime tv)) as Hsplit.
  unfold LocalTime in *. lia.
Qed.

Lemma Day_bounds (tv : Z) :
  Z.abs tv <= maxTime ->
  -100000001 <= Day (LocalTime tv) <= 100000001.
Proof.
  intros Htv. pose proof localTZA_bounds as Hz.
  unfold Day, LocalTime, maxTime, msPerDay in *.
  Z.div_mod_to_equations. lia.
Qed.

Lemma cday_bounds (D : Z) : 1 <= cday (civil_from_days D) <= 31.
Proof.
  destruct (CalendarFacts.civil_from_days_valid D) as [_ Hd].
  pose proof (CalendarFacts.daysInMonth_bounds
                (cyear (civil_from_days D)) (cmonth (civil_from_days D))).
  lia.
Qed.

(** [setDate] on the day of the month plus [n] moves the date by [n]
    days, the result being invalid as soon as it leaves the range: the
    sum is a double, and where it rounds the date is out of range
    anyway. *)
Lemma setDate_getDate (t : Date) (tv n : Z) :
  timeValue t = Some tv ->
  Z.abs tv <= maxTime ->
  setDate t (JS.add (getDate t) (JS.Int n)) = plusDays t n.
Proof.
  intros Htv Hrange.
  unfold getDate, civil, plusDays. rewrite Htv. cbn [JS.add].
  set (D := Day (LocalTime tv)).
  pose proof (cday_bounds D) as Hd.
  pose proof (Day_bounds tv Hrange) as HD. fold D in HD.
  destruct (Z_lt_le_dec (Z.abs (cday (civil_from_days D) + n)) firstRounded)
    as [Hsmall | Hlarge].
  - rewrite toDouble_exact by exact Hsmall.
    rewrite (setDate_Int t tv _ Htv). fold D. do 2 f_equal. lia.
  - pose proof (toDouble_large _ Hlarge) as Hdouble.
    assert (Hout : TimeClip (tv + n * msPerDay) = None).
    { unfold TimeClip.
      replace (Z.abs (tv + n * msPerDay) <=? maxTime) with false;
        [reflexivity |].
      symmetry. apply Z.leb_gt.
      unfold firstRounded, maxTime, msPerDay in *. lia. }
    rewrite Hout.
    destruct (JS.toDouble _) as [| b | v]; [destruct Hdouble | |].
    + unfold setDate. rewrite Htv. reflexivity.
    + rewrite (setDate_Int t tv _ Htv). fold D. f_equal.
      unfold TimeClip.
      replace (Z.abs _ <=? maxTime) with false; [reflexivity |].
      symmetry. apply Z.leb_gt.
      unfold firstRounded, maxTime, msPerDay in *. lia.
Qed.

Lemma setDate_infinite (t : Date) (tv : Z) (b : bool) :
  timeValue t = Some tv ->
  setDate t (JS.add (getDate t) (JS.Infinity b)) = invalid.
Proof.
  intros Htv. unfold getDate, civil, setDate. rewrite Htv. reflexivity.
Qed.

Lemma civil_from_days_plus (z : Z) (n : nat) :
  civil_from_days (z + Z.of_nat n) = daysAfter n (civil_from_days z).
Proof.
  induction n as [| k IH]; cbn [daysAfter].
  - f_equal. lia.
  - rewrite <- IH, <- CalendarFacts.civil_from_days_succ. f_equal. lia.
Qed.

(** The local day [n] days later is [n] times the day after. *)
Lemma civil_shift (tv : Z) (n : nat) :
  civil (mkDate (Some (tv + Z.of_nat n * msPerDay)))
  = option_map (daysAfter n) (civil (mkDate (Some tv))).
Proof.
  unfold civil, LocalTime. cbn [timeValue option_map]. f_equal.
  replace (tv + Z.of_nat n * msPerDay + localTZA)
    with (tv + localTZA + Z.of_nat n * msPerDay) by ring.
  rewrite Day_shift. apply civil_from_days_plus.
Qed.

(** The calendar fields of a date in range. *)
Lemma civil_fields (t : Date) (tv : Z) :
  timeValue t = Some tv ->
  Z.abs tv <= maxTime ->
  exists c,
    civil t = Some c
    /\ 1 <= cmonth c <= 12
    /\ 1 <= cday c <= 31
    /\ -300000 <= cyear c <= 300000.
Proof.
  intros Htv Hrange. unfold civil. rewrite Htv.
  set (D := Day (LocalTime tv)).
  exists (civil_from_days D). split; [reflexivity |].
  destruct (CalendarFacts.civil_from_days_valid D) as [Hm _].
  split; [exact Hm |]. split; [apply cday_bounds |].
  pose proof (Day_bounds tv Hrange) as HD. fold D in HD.
  clear - HD. unfold civil_from_days. cbv zeta. cbn [cyear].
  destruct (_ <=? 2); Z.div_mod_to_equations; lia.
Qed.

End DateFacts.

Lemma toString_small (z : Z) :
  Z.abs z < 10 ^ 21 -> JS.toString (JS.Int z) = JS.String_of z.
Proof.
  intros Hz. unfold JS.toString. apply Z.ltb_lt in Hz. now rewrite Hz.
Qed.

(** ** Invoice numbering *)

Section NumberingFacts.
Context {host : Calendar.Host} {num : Type}.
Implicit Types (history : list (SavedInvoice.t num)) (date : Calendar.Date).

Lemma insert_asc_In x y l : In y (JS.insert_asc x l) <-> y = x \/ In y l.
Proof.
  induction l as [| z r IH]; simpl; [intuition |].
  destruct (JS.sortsAfter x z); simpl; [rewrite IH |]; intuition.
Qed.

Lemma sort_asc_In y l : In y (JS.sort_asc l) <-> In y l.
Proof.
  induction l as [| x r IH]; simpl; [reflexivity |].
  rewrite insert_asc_In, IH. intuition.
Qed.

Lemma sort_asc_nil l : JS.sort_asc l = [] -> l = [].
Proof.
  destruct l as [| x r]; [reflexivity |]. simpl. intros E.
  assert (Hin : In x (JS.insert_asc x (JS.sort_asc r)))
    by (apply insert_asc_In; now left).
  rewrite E in Hin. destruct Hin.
Qed.

Lemma isMaxOf_ext m l l' :
  (forall x, In x l <-> In x l') -> isMaxOf m l -> isMaxOf m l'.
Proof.
  intros Hext [Hin Hle]. split; [now apply Hext |].
  intros x Hx. apply Hle. now apply Hext.
Qed.

Lemma isMaxOf_unique m m' l : isMaxOf m l -> isMaxOf m' l -> m = m'.
Proof.
  intros [Hin Hle] [Hin' Hle']. specialize (Hle _ Hin'). specialize (Hle' _ Hin). lia.
Qed.

(** The greatest of a list of integers, from a first one. *)
Lemma fold_max2_ints (l : list JS.number) : forall a,
  (forall x, In x l -> exists z, x = JS.Int z) ->
  exists b,
    fold_left JS.max2 l (JS.Int a) = JS.Int b
    /\ a <= b
    /\ (b = a \/ In (JS.Int b) l)
    /\ forall z, In (JS.Int z) l -> z <= b.
Proof.
  induction l as [| x r IH]; intros a Hints; cbn [fold_left].
  - exists a. repeat split; [lia | now left | intros z []].
  - destruct (Hints x (or_introl eq_refl)) as [z ->]. cbn [JS.max2].
    destruct (IH (Z.max a z) (fun y Hy => Hints y (or_intror Hy)))
      as (b & Hfold & Hle & Hin & Hall).
    exists b. split; [exact Hfold |]. split; [lia |]. split.
    + destruct Hin as [-> | Hin]; [| right; now right].
      destruct (Z.max_spec a z) as [[_ ->] | [_ ->]];
        [right; now left | now left].
    + intros y [[= ->] | Hy]; [lia | now apply Hall].
Qed.

(** [Math.max(...l, 11)] on a list of integers. *)
Lemma Math_max_ints (l : list JS.number) (zs : list Z) :
  (forall x, In x l <-> exists z, x = JS.Int z /\ In z zs) ->
  exists m,
    JS.Math_max (l ++ [JS.Int 11]) = JS.Int m /\ isMaxOf m (11 :: zs).
Proof.
  intros Hl.
  assert (Hints : forall x, In x (l ++ [JS.Int 11]) -> exists z, x = JS.Int z).
  { intros x Hx. apply in_app_or in Hx as [Hx | [<- | []]]; [| now exists 11].
    apply Hl in Hx as (z & -> & _). now exists z. }
  assert (Hmem : forall z, In (JS.Int z) (l ++ [JS.Int 11]) <-> In z (11 :: zs)).
  { intros z. rewrite in_app_iff. cbn [In]. split.
    - intros [Hz | [[= <-] | []]]; [| now left].
      apply Hl in Hz as (z' & [= <-] & Hz). now right.
    - intros [<- | Hz]; [right; now left | left].
      apply Hl. now exists z. }
  unfold JS.Math_max.
  destruct (l ++ [JS.Int 11]) as [| x r] eqn:E;
    [now destruct l |].
  destruct (Hints x (or_introl eq_refl)) as [a ->].
  cbn [fold_left JS.max2].
  destruct (fold_max2_ints r a (fun y Hy => Hints y (or_intror Hy)))
    as (b & Hfold & Hle & Hin & Hall).
  exists b. split; [exact Hfold |]. split.
  - apply Hmem. destruct Hin as [-> | Hin]; [now left | now right].
  - intros z Hz. apply Hmem in Hz as [[= <-] | Hz]; [exact Hle |].
    now apply Hall.
Qed.

(** Below 2^53 the next number is the greatest sequence, or 11, plus
    one. *)
Lemma nextNumber_safe history date (sequences : list Z) :
  sequencesOf history date = map JS.Int sequences ->
  (forall z, In z sequences -> z < firstRounded) ->
  exists m,
    isMaxOf m (11 :: sequences)
    /\ nextNumber history date = JS.Int (m + 1).
Proof.
  intros Hseq Hsafe.
  unfold nextNumber, existingNumbers. fold (sequencesOf history date).
  rewrite Hseq. cbv zeta.
  destruct (JS.sort_asc (map JS.Int sequences)) as [| e es] eqn:Esort.
  - apply sort_asc_nil in Esort.
    destruct sequences; [| discriminate].
    exists 11. split; [| reflexivity].
    split; [now left | intros x [<- | []]; lia].
  - cbn [List.length Nat.ltb Nat.leb]. rewrite <- Esort.
    destruct (Math_max_ints (JS.sort_asc (map JS.Int sequences)) sequences)
      as (m & -> & Hmax).
    { intros x. rewrite sort_asc_In, in_map_iff. split.
      - intros (z & <- & Hz). now exists z.
      - intros (z & -> & Hz). now exists z. }
    exists m. split; [exact Hmax |]. cbn [JS.add].
    destruct Hmax as [Hin Hle].
    assert (Hm : 11 <= m < firstRounded).
    { split; [apply Hle; now left |].
      destruct Hin as [<- | Hin]; [reflexivity | now apply Hsafe]. }
    destruct (Z.eq_dec (m + 1) firstRounded) as [-> | Hne];
      [vm_compute; reflexivity |].
    apply toDouble_exact. lia.
Qed.

Lemma sequenceOf_third_segment (inv : SavedInvoice.t num) :
  sequenceOf inv =
    JS.orZero (JS.parseInt_opt
                 (nth_error (JS.split (SavedInvoice.invoiceNumber inv) "-") 2)).
Proof.
  unfold sequenceOf.
  destruct (String.eqb_spec (SavedInvoice.invoiceNumber inv) EmptyString)
    as [-> | _]; reflexivity.
Qed.

(** The texts of the year and of the month of a date in range. *)
Lemma monthPrefix_valid date (tv : Z) :
  Calendar.timeValue date = Some tv ->
  Z.abs tv <= Calendar.maxTime ->
  exists c,
    Calendar.civil date = Some c
    /\ 1 <= Calendar.cmonth c <= 12
    /\ JS.toString (Calendar.getFullYear date)
       = JS.String_of (Calendar.cyear c)
    /\ monthOf date = JS.padStart0 (JS.String_of (Calendar.cmonth c)) 2.
Proof.
  intros Htv Hrange.
  destruct (civil_fields date tv Htv Hrange) as (c & Hc & Hm & _ & Hy).
  exists c. split; [exact Hc |]. split; [exact Hm |].
  unfold monthOf, Calendar.getFullYear, Calendar.getMonth. rewrite Hc.
  cbn [JS.add]. rewrite Z.sub_add.
  rewrite toDouble_exact by (unfold firstRounded; lia).
  rewrite !toString_small by lia. split; reflexivity.
Qed.

Lemma find_split {A} (p : A -> bool) (l : list A) (x : A) :
  find p l = Some x ->
  exists before after,
    l = before ++ x :: after
    /\ p x = true
    /\ forall y, In y before -> p y = false.
Proof.
  induction l as [| a r IH]; simpl; [discriminate |].
  destruct (p a) eqn:Epa.
  - intros [= <-]. exists [], r. repeat split; [exact Epa | intros y []].
  - intros Hfind. destruct (IH Hfind) as (before & after & -> & Hpx & Hbefore).
    exists (a :: before), after. repeat split; [exact Hpx |].
    intros y [<- | Hy]; [exact Epa | now apply Hbefore].
Qed.

Lemma find_none_all {A} (p : A -> bool) (l : list A) :
  find p l = None -> forall y, In y l -> p y = false.
Proof.
  induction l as [| a r IH]; simpl; [intros _ y [] |].
  destruct (p a) eqn:Epa; [discriminate |].
  intros Hfind y [<- | Hy]; [exact Epa | now apply IH].
Qed.

Lemma Status_eqb_eq (a b : Status) : Status_eqb a b = true <-> a = b.
Proof. destruct a, b; simpl; split; congruence. Qed.

End NumberingFacts.

(** C1 (amended). For every history whose finalized invoices of the
    target month carry sequences below 2^53, the next sequence number is
    [max (S ∪ {11}) + 1], where [S] holds, for each finalized invoice
    whose number starts with the year-month prefix, the third
    dash-delimited segment of its number read as an integer ([0] when
    that fails): it is 12 when the month has no finalized invoice and 16
    for the sequences 12, 13 and 15. For a date in the range of [Date],
    the number returned is the year, the month on two digits and the
    sequence padded with zeros to four digits, joined by dashes. *)
Theorem next_number_is_max_plus_one {host : Calendar.Host} {num}
    (history : list (SavedInvoice.t num)) (now : Calendar.Date)
    (targetDate : option Calendar.Date) (sequences : list Z) :
  let date := match targetDate with Some d => d | None => now end in
  sequencesOf history date = map JS.Int sequences ->
  (forall z, In z sequences -> z < firstRounded) ->
  exists m,
    let next := m + 1 in
    let sequence := JS.padStart0 (JS.String_of next) 4 in
    isMaxOf m (11 :: sequences)
    /\ nextNumber history date = JS.Int next
    /\ (forall inv : SavedInvoice.t num,
          sequenceOf inv =
            JS.orZero (JS.parseInt_opt
                         (nth_error
                            (JS.split (SavedInvoice.invoiceNumber inv) "-")
                            2)))
    /\ (monthInvoices history date = [] -> next = 12)
    /\ ((forall x, In x sequences <-> x = 12 \/ x = 13 \/ x = 15)
        -> next = 16)
    /\ (forall tv, Calendar.timeValue date = Some tv ->
                   Z.abs tv <= Calendar.maxTime ->
          exists c,
            let month :=
              JS.padStart0 (JS.String_of (Calendar.cmonth c)) 2 in
            Calendar.civil date = Some c
            /\ SmartNumber.number
                 (generateSmartInvoiceNumber history now targetDate)
               = (JS.String_of (Calendar.cyear c) ++ "-" ++ month ++ "-"
                    ++ sequence)%string
            /\ String.length month = 2%nat)
    /\ (4 <= String.length sequence)%nat
    /\ (next < 10000 -> String.length sequence = 4%nat).
Proof.
  intros date Hseq Hsafe.
  destruct (nextNumber_safe history date sequences Hseq Hsafe)
    as (m & Hmax & Hnext).
  exists m. cbv zeta.
  assert (Hge : 11 <= m) by (destruct Hmax as [_ Hle]; apply Hle; now left).
  assert (Hlt : m < firstRounded).
  { destruct Hmax as [[<- | Hin] _]; [reflexivity | now apply Hsafe]. }
  split; [exact Hmax |].
  split; [exact Hnext |].
  split; [apply sequenceOf_third_segment |].
  split.
  { intros Hnone. unfold sequencesOf in Hseq. rewrite Hnone in Hseq.
    destruct sequences; [| discriminate].
    destruct Hmax as [[E | []] _]. lia. }
  split.
  { intros H15.
    assert (Hmax15 : isMaxOf 15 (11 :: sequences)).
    { split.
      - right. apply H15. auto.
      - intros x [<- | Hx]; [lia |]. apply H15 in Hx. lia. }
    pose proof (isMaxOf_unique _ _ _ Hmax Hmax15). lia. }
  split.
  { intros tv Htv Hrange.
    destruct (monthPrefix_valid date tv Htv Hrange)
      as (c & Hc & Hm & Hyear & Hmonth).
    exists c. cbv zeta. split; [exact Hc |]. split.
    - unfold generateSmartInvoiceNumber, monthPrefix. fold date.
      cbn [SmartNumber.number]. rewrite Hnext, Hyear, Hmonth.
      rewrite toString_small by (unfold firstRounded in Hlt; lia).
      rewrite !string_app_assoc. reflexivity.
    - apply pad2_length. lia. }
  split.
  { rewrite padStart0_length. lia. }
  intros Hsmall. apply pad4_length. lia.
Qed.

(** From the sample history (finalized 15, 12 and 13 in March 2024, a
    draft and an invoice of February) the number for March is 0016. *)
Lemma next_number_is_max_plus_one_witness :
  nextNumber (host := Sample.paris) Sample.history Sample.march = JS.Int 16
  /\ SmartNumber.number
       (generateSmartInvoiceNumber (host := Sample.paris)
          Sample.history Sample.march None)
     = "2024-03-0016"%string.
Proof.
  destruct (next_number_is_max_plus_one (host := Sample.paris)
              Sample.history Sample.march None [15; 12; 13])
    as (m & Hmax & Hnext & _ & _ & H16 & Hnumber & _).
  - vm_compute. reflexivity.
  - intros z [<- | [<- | [<- | []]]]; reflexivity.
  - cbv zeta in *.
    assert (Hm : m + 1 = 16) by (apply H16; intros x; simpl; intuition).
    split; [rewrite Hnext, Hm; reflexivity |].
    destruct (Hnumber 1709247600000 eq_refl) as (c & Hc & -> & _).
    + vm_compute. discriminate.
    + assert (Ec : c = Calendar.mkCivil 2024 3 1).
      { assert (E : Some c = Some (Calendar.mkCivil 2024 3 1))
          by (rewrite <- Hc; vm_compute; reflexivity).
        now injection E. }
      rewrite Ec, Hm. vm_compute. reflexivity.
Defined.

(** C1 as stated fails from 2^53 on. With the finalized invoice
    2024-03-9007199254740993 in the history, the third segment is read as
    the double 9007199254740992, and the next number is that same double,
    not the greatest sequence plus one: the number issued is
    2024-03-9007199254740992. *)
Lemma sequence_past_2_53_is_not_advanced :
  let history :=
    [Sample.saved "x" "2024-03-9007199254740993" finalized] in
  JS.parseInteger "9007199254740993" = Some 9007199254740993
  /\ sequencesOf (host := Sample.paris) history Sample.march
     = [JS.Int 9007199254740992]
  /\ nextNumber (host := Sample.paris) history Sample.march
     = JS.Int 9007199254740992
  /\ nextNumber (host := Sample.paris) history Sample.march
     <> JS.Int (9007199254740992 + 1)
  /\ nextNumber (host := Sample.paris) history Sample.march
     <> JS.Int (9007199254740993 + 1)
  /\ SmartNumber.number
       (generateSmartInvoiceNumber (host := Sample.paris)
          history Sample.march None)
     = "2024-03-9007199254740992"%string.
Proof.
  cbv zeta.
  assert (Hnext : nextNumber (host := Sample.paris)
                    [Sample.saved "x" "2024-03-9007199254740993" finalized]
                    Sample.march
                  = JS.Int 9007199254740992) by (vm_compute; reflexivity).
  split; [vm_compute; reflexivity |].
  split; [vm_compute; reflexivity |].
  split; [exact Hnext |].
  split; [rewrite Hnext; discriminate |].
  split; [rewrite Hnext; discriminate |].
  vm_compute. reflexivity.
Qed.

(** C9. The conflict flag is raised exactly when the history holds a draft
    whose number starts with the year-month prefix of the target month;
    the information then names the number of the first such draft, and is
    absent otherwise. The result is a function of the history and of the
    date alone. *)
Theorem conflict_iff_draft_of_month {host : Calendar.Host} {num}
    (history : list (SavedInvoice.t num)) (now : Calendar.Date)
    (targetDate : option Calendar.Date) :
  let date := match targetDate with Some d => d | None => now end in
  let r := generateSmartInvoiceNumber history now targetDate in
  let draftOfMonth (inv : SavedInvoice.t num) :=
    SavedInvoice.status inv = draft
    /\ JS.startsWith (SavedInvoice.invoiceNumber inv) (monthPrefix date) = true in
  (SmartNumber.hasConflict r = true
   <-> exists inv, In inv history /\ draftOfMonth inv)
  /\ (SmartNumber.hasConflict r = true ->
      exists before inv after,
        history = before ++ inv :: after
        /\ (forall x, In x before -> ~ draftOfMonth x)
        /\ draftOfMonth inv
        /\ SmartNumber.conflictInfo r
           = Some (conflictMessage date (SavedInvoice.invoiceNumber inv)))
  /\ (forall n, exists pre post,
        conflictMessage date n = (pre ++ n ++ post)%string)
  /\ (SmartNumber.hasConflict r = false -> SmartNumber.conflictInfo r = None).
Proof.
  intros date r draftOfMonth.
  assert (Hp : forall inv,
             JS.startsWith (SavedInvoice.invoiceNumber inv) (monthPrefix date)
             && Status_eqb (SavedInvoice.status inv) draft = true
             <-> draftOfMonth inv).
  { intros inv. unfold draftOfMonth.
    rewrite Bool.andb_true_iff, Status_eqb_eq. tauto. }
  assert (Hmsg : forall n, exists pre post,
               conflictMessage date n = (pre ++ n ++ post)%string).
  { intros n. unfold conflictMessage.
    exists ("Une facture brouillon existe d" ++ JS.e_acute ++ "j" ++ JS.a_grave
              ++ " pour " ++ monthOf date ++ "/"
              ++ JS.toString (Calendar.getFullYear date) ++ " (")%string.
    exists ")"%string.
    rewrite !string_app_assoc. reflexivity. }
  unfold r, generateSmartInvoiceNumber. fold date.
  cbn [SmartNumber.hasConflict SmartNumber.conflictInfo].
  unfold draftForMonth.
  destruct (find _ history) as [d |] eqn:Efind.
  - destruct (find_split _ _ _ Efind) as (before & after & Hsplit & Hd & Hbefore).
    split; [split; [| reflexivity] |].
    { intros _. exists d. split; [| now apply Hp].
      rewrite Hsplit. apply in_or_app. right. now left. }
    split; [| split; [exact Hmsg | discriminate]].
    intros _. exists before, d, after. split; [exact Hsplit |].
    split; [| split; [now apply Hp | reflexivity]].
    intros x Hx Hdraft. apply Hp in Hdraft.
    rewrite (Hbefore x Hx) in Hdraft. discriminate.
  - pose proof (find_none_all _ _ Efind) as Hnone.
    split; [split; [discriminate |] |].
    { intros (inv & Hin & Hdraft). apply Hp in Hdraft.
      rewrite (Hnone inv Hin) in Hdraft. discriminate. }
    split; [discriminate |].
    split; [exact Hmsg | reflexivity].
Qed.

(** The draft 2024-03-0016 of the sample history is reported for March. *)
Lemma conflict_iff_draft_of_month_witness :
  SmartNumber.hasConflict
    (generateSmartInvoiceNumber (host := Sample.paris)
       Sample.history Sample.march None) = true
  /\ exists inv,
       In inv Sample.history
       /\ SavedInvoice.status inv = draft
       /\ JS.startsWith (SavedInvoice.invoiceNumber inv)
                        (monthPrefix (host := Sample.paris) Sample.march)
          = true.
Proof.
  assert (Hflag : SmartNumber.hasConflict
                    (generateSmartInvoiceNumber (host := Sample.paris)
                       Sample.history Sample.march None)
                  = true) by (vm_compute; reflexivity).
  split; [exact Hflag |].
  destruct (conflict_iff_draft_of_month (host := Sample.paris)
              Sample.history Sample.march None)
    as ([Hsome _] & _).
  exact (Hsome Hflag).
Defined.

(** ** Line items *)

Section ArticleFacts.
Context {num : Type} `{Number num}.
Implicit Types (article updated : Article.t num)
               (updates : PartialArticle.t num)
               (prevArticles : list (Article.t num)).

Lemma updateArticle_nth id updates prevArticles i :
  nth_error (updateArticle id updates prevArticles) i =
    option_map (updateOne id updates) (nth_error prevArticles i).
Proof. unfold updateArticle. now rewrite nth_error_map. Qed.

Lemma updateArticle_length id updates prevArticles :
  List.length (updateArticle id updates prevArticles)
  = List.length prevArticles.
Proof. unfold updateArticle. apply length_map. Qed.
End ArticleFacts.

(** C8 (amended). In the article that [updateArticle] matches, an update
    that holds [quantity] or [unitPrice] leaves [total] equal to the
    product of the quantity and the unit price of the updated article,
    whatever [total] the update holds; an update that holds neither gives
    [total] the value it holds, and keeps the former total when it holds
    none. *)
Theorem total_follows_quantity_and_price {num} `{Number num}
    (id : string) (updates : PartialArticle.t num)
    (prevArticles : list (Article.t num)) (i : nat) (article : Article.t num) :
  nth_error prevArticles i = Some article ->
  Article.id article = id ->
  exists updated,
    nth_error (updateArticle id updates prevArticles) i = Some updated
    /\ Article.quantity updated
       = pick (PartialArticle.quantity updates) (Article.quantity article)
    /\ Article.unitPrice updated
       = pick (PartialArticle.unitPrice updates) (Article.unitPrice article)
    /\ (isSome (PartialArticle.quantity updates)
        || isSome (PartialArticle.unitPrice updates) = true ->
        Article.total updated
        = times (Article.quantity updated) (Article.unitPrice updated))
    /\ (PartialArticle.quantity updates = None ->
        PartialArticle.unitPrice updates = None ->
        Article.total updated
        = pick (PartialArticle.total updates) (Article.total article)).
Proof.
  intros Hnth Hid.
  exists (updateOne id updates article).
  rewrite updateArticle_nth, Hnth. split; [reflexivity |].
  unfold updateOne. rewrite Hid, String.eqb_refl. cbv zeta.
  destruct updates as [uid uname udesc [q |] uunit [p |] ut];
    cbn; repeat split; intros; try reflexivity; try discriminate.
Qed.

(** A new quantity of 3 with a stray total of 5: the total is 3 * 50. *)
Lemma total_follows_quantity_and_price_witness :
  exists updated,
    nth_error (updateArticle "1" (Sample.quantityAndTotal 3 5)
                             [Sample.article "1" 1 2 50]) 0
    = Some updated
    /\ Article.total updated = 150.
Proof.
  destruct (total_follows_quantity_and_price
              "1" (Sample.quantityAndTotal 3 5) [Sample.article "1" 1 2 50]
              0 (Sample.article "1" 1 2 50) eq_refl eq_refl)
    as (updated & Hnth & Hq & Hp & Htotal & _).
  exists updated. split; [exact Hnth |].
  rewrite (Htotal eq_refl), Hq, Hp. reflexivity.
Defined.

(** C8 as stated fails: an update that holds only [total] sets it, and the
    total of the article (quantity 2, unit price 50) becomes 5. *)
Lemma total_is_settable_alone :
  let prevArticles := [Sample.article "1" 1 2 50] in
  (forall a, In a prevArticles ->
             Article.total a = Article.quantity a * Article.unitPrice a)
  /\ ~ (forall a, In a (updateArticle "1" (Sample.onlyTotal 5) prevArticles) ->
                  Article.total a = Article.quantity a * Article.unitPrice a).
Proof.
  split.
  - intros a [<- | []]. reflexivity.
  - intros Hall.
    specialize (Hall _ (or_introl eq_refl)). vm_compute in Hall. discriminate.
Qed.

(** C10. [updateArticle] keeps the length and the order of the list,
    leaves every article with another [id] as it was, and in a matching
    article changes only the fields that the update holds, and [total]
    when the update holds [quantity] or [unitPrice]. *)
Theorem updateArticle_frame {num} `{Number num}
    (id : string) (updates : PartialArticle.t num)
    (prevArticles : list (Article.t num)) :
  List.length (updateArticle id updates prevArticles)
  = List.length prevArticles
  /\ forall i article,
       nth_error prevArticles i = Some article ->
       (Article.id article <> id ->
        nth_error (updateArticle id updates prevArticles) i = Some article)
       /\ (Article.id article = id ->
           exists updated,
             nth_error (updateArticle id updates prevArticles) i = Some updated
             /\ (PartialArticle.id updates = None ->
                 Article.id updated = Article.id article)
             /\ (PartialArticle.name updates = None ->
                 Article.name updated = Article.name article)
             /\ (PartialArticle.description updates = None ->
                 Article.description updated = Article.description article)
             /\ (PartialArticle.quantity updates = None ->
                 Article.quantity updated = Article.quantity article)
             /\ (PartialArticle.unit updates = None ->
                 Article.unit updated = Article.unit article)
             /\ (PartialArticle.unitPrice updates = None ->
                 Article.unitPrice updated = Article.unitPrice article)
             /\ (PartialArticle.total updates = None ->
                 PartialArticle.quantity updates = None ->
                 PartialArticle.unitPrice updates = None ->
                 Article.total updated = Article.total article)).
Proof.
  split; [apply updateArticle_length |].
  intros i article Hnth. rewrite updateArticle_nth, Hnth. cbn [option_map].
  unfold updateOne. split.
  - intros Hne. apply String.eqb_neq in Hne. now rewrite Hne.
  - intros Hid.
    replace (String.eqb (Article.id article) id) with true
      by (symmetry; now apply String.eqb_eq).
    cbv zeta. eexists. split; [reflexivity |].
    destruct updates as [uid uname udesc [q |] uunit [p |] ut];
      cbn; repeat split; intros; subst; try reflexivity; discriminate.
Qed.

(** Renaming article 2 of three leaves articles 1 and 3 and the order. *)
Lemma updateArticle_frame_witness :
  let a1 := Sample.article "1" 1 2 50 in
  let a2 := Sample.article "2" 0 1 20 in
  let a3 := Sample.article "3" 2 4 10 in
  let updates :=
    PartialArticle.mk None (Some "Service"%string) None None None None None in
  nth_error (updateArticle "2" updates [a1; a2; a3]) 0 = Some a1
  /\ nth_error (updateArticle "2" updates [a1; a2; a3]) 2 = Some a3
  /\ exists updated,
       nth_error (updateArticle "2" updates [a1; a2; a3]) 1 = Some updated
       /\ Article.total updated = Article.total a2.
Proof.
  intros a1 a2 a3 updates.
  destruct (updateArticle_frame "2" updates [a1; a2; a3]) as [_ Hframe].
  split; [| split].
  - apply (Hframe 0%nat a1 eq_refl). discriminate.
  - apply (Hframe 2%nat a3 eq_refl). discriminate.
  - destruct (proj2 (Hframe 1%nat a2 eq_refl) eq_refl)
      as (updated & Hnth & _ & _ & _ & _ & _ & _ & Htotal).
    exists updated. split; [exact Hnth |].
    apply Htotal; reflexivity.
Defined.
(** ** Lifecycle *)

Section LifecycleFacts.
Context {num : Type} `{Number num}.
Implicit Types (st : App.t num) (h : list (SavedInvoice.t num))
               (a b x : SavedInvoice.t num).

Lemma upsert_nil a : upsert a [] = [a].
Proof. reflexivity. Qed.

Lemma upsert_cons a x h :
  upsert a (x :: h) =
    if String.eqb (SavedInvoice.id x) (SavedInvoice.id a)
    then a :: h else x :: upsert a h.
Proof.
  unfold upsert. simpl.
  destruct (String.eqb (SavedInvoice.id x) (SavedInvoice.id a));
    [reflexivity |].
  destruct (findIndex _ h); reflexivity.
Qed.

Lemma position_cons id x h :
  position id (x :: h) =
    if String.eqb (SavedInvoice.id x) id then O else S (position id h).
Proof.
  unfold position. simpl.
  destruct (String.eqb (SavedInvoice.id x) id); [reflexivity |].
  destruct (findIndex _ h); reflexivity.
Qed.

(** A second write under the same [id] replaces the first. *)
Lemma upsert_upsert a b h :
  SavedInvoice.id a = SavedInvoice.id b ->
  upsert b (upsert a h) = upsert b h.
Proof.
  intros Hid. induction h as [| x r IH].
  - rewrite upsert_nil, upsert_cons, upsert_nil.
    now rewrite Hid, String.eqb_refl.
  - rewrite !upsert_cons, Hid.
    destruct (String.eqb (SavedInvoice.id x) (SavedInvoice.id b)) eqn:Ex.
    + rewrite upsert_cons. now rewrite Hid, String.eqb_refl.
    + rewrite upsert_cons, Ex. now rewrite IH.
Qed.

Lemma upsert_length_same_id a b h :
  SavedInvoice.id a = SavedInvoice.id b ->
  List.length (upsert b h) = List.length (upsert a h).
Proof.
  intros Hid. induction h as [| x r IH]; [reflexivity |].
  rewrite !upsert_cons, Hid.
  destruct (String.eqb _ _); simpl; congruence.
Qed.

Lemma upsert_at_position a h :
  nth_error (upsert a h) (position (SavedInvoice.id a) h) = Some a.
Proof.
  induction h as [| x r IH]; [reflexivity |].
  rewrite upsert_cons, position_cons.
  destruct (String.eqb _ _); [reflexivity | exact IH].
Qed.

Lemma upsert_elsewhere a h j :
  j <> position (SavedInvoice.id a) h ->
  nth_error (upsert a h) j = nth_error h j.
Proof.
  revert j. induction h as [| x r IH]; intros j Hj.
  - unfold position in Hj. simpl in Hj.
    destruct j as [| j]; [congruence |]. now destruct j.
  - rewrite upsert_cons. rewrite position_cons in Hj.
    destruct (String.eqb _ _).
    + destruct j; [congruence | reflexivity].
    + destruct j as [| j]; [reflexivity |]. simpl. apply IH. congruence.
Qed.

Lemma position_upsert a h :
  position (SavedInvoice.id a) (upsert a h) = position (SavedInvoice.id a) h.
Proof.
  induction h as [| x r IH].
  - rewrite upsert_nil, position_cons. now rewrite String.eqb_refl.
  - rewrite upsert_cons, position_cons.
    destruct (String.eqb (SavedInvoice.id x) (SavedInvoice.id a)) eqn:Ex.
    + rewrite position_cons. now rewrite String.eqb_refl.
    + rewrite position_cons, Ex. now rewrite IH.
Qed.

(** What a call that goes through leaves behind. *)
Lemma finalizeInvoice_proceeds cfg env st :
  finalizeProceeds cfg env st = true ->
  exists id,
    App.currentInvoiceId st = Some id
    /\ finalizeInvoice cfg env st =
         App.setMessage (Message.mk success InvoiceFinalized)
           (App.setInvoiceStatus finalized
              (App.setStored (upsert (invoiceDataOf env st id) (App.stored st))
                             st)).
Proof.
  unfold finalizeProceeds, finalizeInvoice, falsy.
  destruct (App.currentInvoiceId st) as [id |]; [| discriminate].
  intros Hp. exists id. split; [reflexivity |].
  destruct (String.eqb id EmptyString); [discriminate |].
  destruct (App.user st) as [u |] eqn:Eu; [| discriminate].
  cbn [isSome negb andb] in *.
  destruct (negb (saveUserProfile cfg env st) && isSupabaseConfigured cfg);
    [discriminate |].
  cbn [negb andb] in Hp.
  unfold saveInvoiceToHistory.
  cbn [App.user App.stored App.setMessage App.setInvoiceStatus].
  rewrite Eu.
  destruct (isSupabaseConfigured cfg); cbn [negb orb] in *; [| reflexivity].
  rewrite Hp. reflexivity.
Qed.

(** [finalizeInvoice] writes the message, the status and the history,
    and nothing else. *)
Lemma finalizeInvoice_keeps cfg env st :
  let st' := finalizeInvoice cfg env st in
  App.user st' = App.user st
  /\ App.currentInvoiceId st' = App.currentInvoiceId st
  /\ App.invoice st' = App.invoice st
  /\ App.companyInfo st' = App.companyInfo st
  /\ App.clientInfo st' = App.clientInfo st
  /\ App.articles st' = App.articles st.
Proof.
  unfold finalizeInvoice, saveInvoiceToHistory.
  destruct (App.currentInvoiceId st) as [id |] eqn:Eid;
    [| cbn; rewrite Eid; repeat split].
  destruct (String.eqb id EmptyString); [cbn; rewrite Eid; repeat split |].
  destruct (App.user st) as [u |] eqn:Eu;
    [| cbn; rewrite Eid, Eu; repeat split].
  cbn [isSome negb App.user App.setMessage App.setInvoiceStatus].
  rewrite Eu.
  destruct (negb _ && isSupabaseConfigured cfg);
    [cbn; rewrite Eid, Eu; repeat split |].
  destruct (negb (isSupabaseConfigured cfg));
    [cbn; rewrite Eid, Eu; repeat split |].
  destruct (invoiceUpsertOk env); cbn; rewrite Eid, Eu; repeat split.
Qed.

Lemma finalizeProceeds_after cfg env env' st :
  finalizeProceeds cfg env' (finalizeInvoice cfg env st)
  = finalizeProceeds cfg env' st.
Proof.
  destruct (finalizeInvoice_keeps cfg env st) as (Hu & Hid & _).
  unfold finalizeProceeds, saveUserProfile. now rewrite Hu, Hid.
Qed.
End LifecycleFacts.

(** C3 (amended). [finalizeInvoice] does not look at the status. When the
    guards let both calls through, the second call on the invoice that the
    first has finalized writes the record of that [id] again, stamped with
    the time of the second call: the history is what the second call alone
    would have left, it has one record at the same place and none added,
    the other records are untouched and the status stays [finalized]. The
    page offers the finalize button only while the status is [draft], and
    no longer after the first call. *)
Theorem second_finalize_overwrites {num} `{Number num}
    (cfg : Config) (env1 env2 : Env) (st : App.t num) :
  finalizeProceeds cfg env1 st = true ->
  finalizeProceeds cfg env2 st = true ->
  let st1 := finalizeInvoice cfg env1 st in
  let st2 := finalizeInvoice cfg env2 st1 in
  exists id,
    App.currentInvoiceId st = Some id
    /\ App.invoiceStatus st1 = finalized
    /\ finalizeOffered st1 = false
    /\ App.invoiceStatus st2 = finalized
    /\ App.stored st2 = upsert (invoiceDataOf env2 st id) (App.stored st)
    /\ List.length (App.stored st2) = List.length (App.stored st1)
    /\ nth_error (App.stored st1) (position id (App.stored st))
       = Some (invoiceDataOf env1 st id)
    /\ nth_error (App.stored st2) (position id (App.stored st))
       = Some (invoiceDataOf env2 st id)
    /\ SavedInvoice.finalizedAt (invoiceDataOf env2 st id)
       = Some (isoNowFinalized env2)
    /\ SavedInvoice.createdAt (invoiceDataOf env2 st id) = isoNowCreated env2
    /\ forall j, j <> position id (App.stored st) ->
                 nth_error (App.stored st2) j = nth_error (App.stored st1) j.
Proof.
  intros Hp1 Hp2 st1 st2.
  destruct (finalizeInvoice_proceeds cfg env1 st Hp1) as (id & Hid & Hst1).
  assert (Hp2' : finalizeProceeds cfg env2 st1 = true)
    by (unfold st1; now rewrite finalizeProceeds_after).
  destruct (finalizeInvoice_proceeds cfg env2 st1 Hp2') as (id' & Hid' & Hst2).
  destruct (finalizeInvoice_keeps cfg env1 st)
    as (Hu & Hcur & Hinv & Hco & Hcl & Hart).
  fold st1 in Hst1, Hu, Hcur, Hinv, Hco, Hcl, Hart.
  assert (id' = id) by congruence. subst id'.
  assert (Hdata : invoiceDataOf env2 st1 id = invoiceDataOf env2 st id)
    by (unfold invoiceDataOf; now rewrite Hinv, Hco, Hcl, Hart).
  assert (Hs1 : App.stored st1 = upsert (invoiceDataOf env1 st id) (App.stored st))
    by now rewrite Hst1.
  assert (Hs2 : App.stored st2 = upsert (invoiceDataOf env2 st id) (App.stored st)).
  { unfold st2. rewrite Hst2. cbn [App.stored App.setMessage App.setInvoiceStatus
                                    App.setStored].
    rewrite Hdata, Hs1. now apply upsert_upsert. }
  exists id.
  split; [exact Hid |].
  split; [now rewrite Hst1 |].
  split; [unfold finalizeOffered; now rewrite Hst1 |].
  split; [unfold st2; now rewrite Hst2 |].
  split; [exact Hs2 |].
  split; [rewrite Hs1, Hs2; now apply upsert_length_same_id |].
  split; [rewrite Hs1; apply (upsert_at_position (invoiceDataOf env1 st id)) |].
  split; [rewrite Hs2; apply (upsert_at_position (invoiceDataOf env2 st id)) |].
  split; [reflexivity |].
  split; [reflexivity |].
  intros j Hj. rewrite Hs1, Hs2.
  rewrite (upsert_elsewhere (invoiceDataOf env2 st id)) by exact Hj.
  rewrite (upsert_elsewhere (invoiceDataOf env1 st id)) by exact Hj.
  reflexivity.
Qed.

(** Finalizing the sample draft at 10:00 and again at 11:00 leaves the
    record stamped 11:00. *)
Lemma second_finalize_overwrites_witness :
  let env1 := Sample.env "2024-03-01T10:00:00.000Z" true in
  let env2 := Sample.env "2024-03-01T11:00:00.000Z" true in
  let st2 := finalizeInvoice Sample.remote env2
               (finalizeInvoice Sample.remote env1 Sample.editing) in
  App.invoiceStatus st2 = finalized
  /\ List.length (App.stored st2) = 6%nat
  /\ option_map SavedInvoice.finalizedAt (nth_error (App.stored st2) 5)
     = Some (Some "2024-03-01T11:00:00.000Z"%string).
Proof.
  intros env1 env2 st2.
  destruct (second_finalize_overwrites Sample.remote env1 env2 Sample.editing
              eq_refl eq_refl)
    as (id & Hid & _ & _ & Hstatus & Hstored & _).
  injection Hid as <-.
  split; [exact Hstatus |].
  fold st2 in Hstored. rewrite Hstored. split; reflexivity.
Defined.

(** C3 as stated fails: on the invoice finalized at 10:00, a second call
    at 11:00 goes through and changes the stored [finalizedAt]. *)
Lemma second_finalize_restamps :
  let env1 := Sample.env "2024-03-01T10:00:00.000Z" true in
  let env2 := Sample.env "2024-03-01T11:00:00.000Z" true in
  let st1 := finalizeInvoice Sample.demo env1 Sample.editing in
  let st2 := finalizeInvoice Sample.demo env2 st1 in
  App.invoiceStatus st1 = finalized
  /\ option_map SavedInvoice.finalizedAt (nth_error (App.stored st1) 5)
     = Some (Some "2024-03-01T10:00:00.000Z"%string)
  /\ option_map SavedInvoice.finalizedAt (nth_error (App.stored st2) 5)
     = Some (Some "2024-03-01T11:00:00.000Z"%string)
  /\ App.stored st2 <> App.stored st1
  /\ st2 <> st1.
Proof.
  intros env1 env2 st1 st2.
  assert (Hne : App.stored st2 <> App.stored st1).
  { intros E.
    apply (f_equal (fun h => option_map SavedInvoice.finalizedAt
                               (nth_error h 5))) in E.
    vm_compute in E. discriminate. }
  split; [reflexivity |].
  split; [reflexivity |].
  split; [reflexivity |].
  split; [exact Hne |].
  intros E. apply Hne. now rewrite E.
Qed.

(** C4. When persistence is configured and the profile save before
    finalizing fails, [finalizeInvoice] stops with an error message: the
    status is the one before the call (a draft stays a draft), the history
    is untouched, so that no [finalizedAt] is stored, and nothing else of
    the state moves. *)
Theorem finalize_aborts_when_profile_save_fails {num} `{Number num}
    (cfg : Config) (env : Env) (st : App.t num) :
  isSupabaseConfigured cfg = true ->
  saveUserProfile cfg env st = false ->
  let st' := finalizeInvoice cfg env st in
  App.invoiceStatus st' = App.invoiceStatus st
  /\ (App.invoiceStatus st = draft -> App.invoiceStatus st' = draft)
  /\ App.stored st' = App.stored st
  /\ (exists text, App.message st' = Some (Message.mk error text))
  /\ (falsy (App.currentInvoiceId st) = false -> App.user st <> None ->
      App.message st' = Some (Message.mk error ProfileSaveFailed))
  /\ App.invoice st' = App.invoice st
  /\ App.articles st' = App.articles st.
Proof.
  intros Hcfg Hsave st'.
  destruct (finalizeInvoice_keeps cfg env st) as (_ & _ & Hinv & _ & _ & Hart).
  fold st' in Hinv, Hart.
  assert (Hst' : exists text,
             st' = App.setMessage (Message.mk error text) st
             /\ (falsy (App.currentInvoiceId st) = false -> App.user st <> None ->
                 text = ProfileSaveFailed)).
  { unfold st', finalizeInvoice, falsy.
    destruct (App.currentInvoiceId st) as [id |];
      [| eexists; split; [reflexivity | discriminate]].
    destruct (String.eqb id EmptyString);
      [eexists; split; [reflexivity | discriminate] |].
    destruct (App.user st) as [u |];
      [| eexists; split; [reflexivity | congruence]].
    cbn [isSome negb]. rewrite Hsave, Hcfg. cbn [negb andb].
    eexists; split; reflexivity. }
  destruct Hst' as (text & -> & Htext).
  cbn [App.invoiceStatus App.stored App.message App.setMessage].
  split; [reflexivity |].
  split; [auto |].
  split; [reflexivity |].
  split; [now exists text |].
  split; [intros Hid Hu; now rewrite (Htext Hid Hu) |].
  split; [exact Hinv | exact Hart].
Qed.

(** The sample draft when the remote profile write is refused. *)
Lemma finalize_aborts_when_profile_save_fails_witness :
  let env := Sample.env "2024-03-01T10:00:00.000Z" false in
  let st' := finalizeInvoice Sample.remote env Sample.editing in
  App.invoiceStatus st' = draft
  /\ App.stored st' = Sample.history
  /\ App.message st' = Some (Message.mk error ProfileSaveFailed).
Proof.
  intros env st'.
  destruct (finalize_aborts_when_profile_save_fails
              Sample.remote env Sample.editing eq_refl eq_refl)
    as (_ & Hdraft & Hstored & _ & Hmsg & _).
  split; [exact (Hdraft eq_refl) |].
  split; [exact Hstored |].
  apply Hmsg; [reflexivity | discriminate].
Defined.

(** ** Decimal numerals *)

Lemma of_lu_revapp_value (d : Decimal.uint) : forall e,
  Z.of_N (DecimalPos.Unsigned.of_lu (Decimal.revapp d e))
  = valueOf d (Z.of_N (DecimalPos.Unsigned.of_lu e)).
Proof.
  induction d; intros e; cbn [Decimal.revapp valueOf]; try reflexivity;
    rewrite IHd; f_equal; cbn [DecimalPos.Unsigned.of_lu]; lia.
Qed.

Lemma valueOf_of_uint (d : Decimal.uint) :
  valueOf d 0 = Z.of_N (Pos.of_uint d).
Proof.
  rewrite DecimalPos.Unsigned.of_uint_alt. unfold Decimal.rev.
  now rewrite of_lu_revapp_value.
Qed.

Lemma digits_string_of_uint (d : Decimal.uint) : forall acc,
  d <> Decimal.Nil ->
  JS.digits 10 (NilEmpty.string_of_uint d) acc
  = Some (valueOf d (match acc with Some v => v | None => 0 end)).
Proof.
  assert (Hgen : forall acc v,
             (d = Decimal.Nil -> acc = Some v) ->
             v = match acc with Some v => v | None => 0 end ->
             JS.digits 10 (NilEmpty.string_of_uint d) acc = Some (valueOf d v)).
  { induction d; intros acc v Hnil Hv;
      cbn [NilEmpty.string_of_uint JS.digits valueOf];
      [now apply Hnil | ..];
      (change (JS.digitValue 10 _) with (Some 0)
       || change (JS.digitValue 10 _) with (Some 1)
       || change (JS.digitValue 10 _) with (Some 2)
       || change (JS.digitValue 10 _) with (Some 3)
       || change (JS.digitValue 10 _) with (Some 4)
       || change (JS.digitValue 10 _) with (Some 5)
       || change (JS.digitValue 10 _) with (Some 6)
       || change (JS.digitValue 10 _) with (Some 7)
       || change (JS.digitValue 10 _) with (Some 8)
       || change (JS.digitValue 10 _) with (Some 9));
      cbv iota; apply IHd; try reflexivity;
      try (intros _; f_equal; destruct acc; subst; lia);
      destruct acc; subst; lia. }
  intros acc Hne. apply Hgen; [congruence | reflexivity].
Qed.

Lemma String_of_nonneg (n : Z) :
  0 <= n ->
  exists d, d <> Decimal.Nil
            /\ JS.String_of n = NilEmpty.string_of_uint d
            /\ valueOf d 0 = n.
Proof.
  intros Hn. unfold JS.String_of. destruct n as [| p | p]; [| | lia].
  - exists (Decimal.D0 Decimal.Nil). repeat split. discriminate.
  - exists (Pos.to_uint p). split; [apply DecimalPos.Unsigned.to_uint_nonnil |].
    split.
    + cbn [Z.to_int NilZero.string_of_int]. unfold NilZero.string_of_uint.
      pose proof (DecimalPos.Unsigned.to_uint_nonnil p).
      destruct (Pos.to_uint p); [congruence | reflexivity ..].
    + rewrite valueOf_of_uint, DecimalPos.Unsigned.of_to. reflexivity.
Qed.

Lemma string_of_uint_digits (d : Decimal.uint) :
  JS.allChars JS.isDigit (NilEmpty.string_of_uint d) = true.
Proof. induction d; cbn [NilEmpty.string_of_uint JS.allChars]; auto. Qed.

Lemma allChars_app p (s t : string) :
  JS.allChars p (s ++ t)%string = JS.allChars p s && JS.allChars p t.
Proof.
  induction s as [| a r IH]; cbn [String.append JS.allChars]; [reflexivity |].
  now rewrite IH, Bool.andb_assoc.
Qed.

Lemma repeat0_digits k : JS.allChars JS.isDigit (JS.repeat0 k) = true.
Proof. induction k; cbn [JS.repeat0 JS.allChars]; auto. Qed.

Lemma String_of_digits n : 0 <= n -> JS.allChars JS.isDigit (JS.String_of n) = true.
Proof.
  intros Hn. destruct (String_of_nonneg n Hn) as (d & _ & -> & _).
  apply string_of_uint_digits.
Qed.

Lemma padStart0_digits n k :
  0 <= n -> JS.allChars JS.isDigit (JS.padStart0 (JS.String_of n) k) = true.
Proof.
  intros Hn. unfold JS.padStart0.
  now rewrite allChars_app, repeat0_digits, String_of_digits.
Qed.

Lemma digits_repeat0 k (s : string) : forall acc,
  JS.digits 10 (JS.repeat0 k ++ s)%string acc
  = JS.digits 10 s (match k with
                    | O => acc
                    | S _ => Some (match acc with Some v => v * 10 | None => 0 end
                                   * 10 ^ Z.of_nat (k - 1))
                    end).
Proof.
  induction k as [| k IH]; intros acc; [reflexivity |].
  cbn [JS.repeat0 String.append JS.digits].
  change (JS.digitValue 10 "0") with (Some 0). cbv iota.
  rewrite IH. destruct k as [| k].
  - f_equal. f_equal. destruct acc; cbn; lia.
  - f_equal. f_equal.
    replace (Z.of_nat (S (S k) - 1)) with (Z.of_nat (S k - 1) + 1) by lia.
    rewrite Z.pow_add_r by lia. destruct acc; lia.
Qed.

(** A number printed and padded with zeros reads back as itself. *)
Lemma digits_padStart0 n k :
  0 <= n -> JS.digits 10 (JS.padStart0 (JS.String_of n) k) None = Some n.
Proof.
  intros Hn. destruct (String_of_nonneg n Hn) as (d & Hd & Hs & Hv).
  unfold JS.padStart0. rewrite digits_repeat0, Hs, digits_string_of_uint by exact Hd.
  destruct (k - _)%nat; cbn [Z.mul]; now rewrite Hv.
Qed.

Lemma parseInteger_digits (s : string) :
  JS.allChars JS.isDigit s = true -> JS.parseInteger s = JS.digits 10 s None.
Proof.
  intros Hs.
  assert (Hshape : JS.parseInteger s
                   = match JS.digits 10 s None with
                     | Some v => Some (1 * v)
                     | None => None
                     end).
  { destruct s as [| a r]; [reflexivity |].
    cbn [JS.allChars] in Hs. apply andb_prop in Hs as [Ha Hr].
    destruct a as [[|] [|] [|] [|] [|] [|] [|] [|]]; try discriminate Ha;
      try reflexivity.
    destruct r as [| b r']; [reflexivity |].
    cbn [JS.allChars] in Hr. apply andb_prop in Hr as [Hb _].
    destruct b as [[|] [|] [|] [|] [|] [|] [|] [|]]; try discriminate Hb;
      reflexivity. }
  rewrite Hshape. destruct (JS.digits 10 s None) as [v |]; [| reflexivity].
  f_equal. lia.
Qed.

(** Below 2^53 a number printed and padded with zeros is read back by
    [parseInt]. *)
Lemma parseInt_padStart0 n k :
  0 <= n < firstRounded ->
  JS.parseInt (JS.padStart0 (JS.String_of n) k) = JS.Int n.
Proof.
  intros Hn. unfold JS.parseInt.
  rewrite parseInteger_digits by (apply padStart0_digits; lia).
  rewrite digits_padStart0 by lia. apply toDouble_exact. lia.
Qed.

(** A string of digits holds no other character. *)
Lemma digits_exclude (c : ascii) (s : string) :
  JS.isDigit c = false ->
  JS.allChars JS.isDigit s = true ->
  JS.allChars (fun a => negb (Ascii.eqb a c)) s = true.
Proof.
  intros Hc. induction s as [| a r IH]; cbn [JS.allChars]; [reflexivity |].
  intros H. apply andb_prop in H as [Ha Hr]. rewrite (IH Hr), Bool.andb_true_r.
  destruct (Ascii.eqb_spec a c) as [-> | _]; [congruence | reflexivity].
Qed.

Lemma split_aux_segment c (s t : string) : forall cur,
  JS.allChars (fun a => negb (Ascii.eqb a c)) s = true ->
  JS.split_aux c (s ++ String c t)%string cur
  = (cur ++ s)%string :: JS.split_aux c t EmptyString.
Proof.
  induction s as [| a r IH]; intros cur; cbn [JS.allChars String.append JS.split_aux].
  - intros _. rewrite Ascii.eqb_refl.
    replace (cur ++ EmptyString)%string with cur; [reflexivity |].
    clear. induction cur; cbn; congruence.
  - intros H. apply andb_prop in H as [Ha Hr].
    destruct (Ascii.eqb a c); [discriminate Ha |].
    rewrite IH by exact Hr. f_equal.
    rewrite string_app_assoc. reflexivity.
Qed.

Lemma split_aux_last c (s : string) : forall cur,
  JS.allChars (fun a => negb (Ascii.eqb a c)) s = true ->
  JS.split_aux c s cur = [(cur ++ s)%string].
Proof.
  induction s as [| a r IH]; intros cur; cbn [JS.allChars JS.split_aux].
  - intros _. f_equal. clear. induction cur; cbn; congruence.
  - intros H. apply andb_prop in H as [Ha Hr].
    destruct (Ascii.eqb a c); [discriminate Ha |].
    rewrite IH by exact Hr. f_equal.
    rewrite string_app_assoc. reflexivity.
Qed.

Lemma prefix_app (p s : string) : String.prefix p (p ++ s)%string = true.
Proof.
  induction p as [| a r IH]; cbn [String.append String.prefix].
  - now destruct s.
  - destruct (Ascii.ascii_dec a a); [exact IH | congruence].
Qed.

Lemma year4_length (y : Z) :
  1000 <= y <= 9999 -> String.length (JS.String_of y) = 4%nat.
Proof.
  intros Hy. apply Nat.eqb_eq.
  apply (allFrom_spec
           (fun y => (String.length (JS.String_of y) =? 4)%nat)
           (Z.to_nat 9000) 1000);
    [vm_compute; reflexivity | lia].
Qed.

(** The fields of the date-only form read back the numbers printed. *)
Lemma field_pad2 (n : Z) :
  0 <= n < 100 ->
  Calendar.field 2 (JS.padStart0 (JS.String_of n) 2) = Some n.
Proof.
  intros Hn. unfold Calendar.field.
  rewrite pad2_length, padStart0_digits by lia.
  cbn [Nat.eqb andb]. apply digits_padStart0. lia.
Qed.

Lemma field_year4 (y : Z) :
  1000 <= y <= 9999 -> Calendar.field 4 (JS.String_of y) = Some y.
Proof.
  intros Hy. unfold Calendar.field.
  rewrite year4_length, String_of_digits by lia.
  cbn [Nat.eqb andb].
  pose proof (digits_padStart0 y 0 ltac:(lia)) as Hd.
  unfold JS.padStart0 in Hd. cbn [Nat.sub JS.repeat0 String.append] in Hd.
  exact Hd.
Qed.

(** ** Payment due date *)

Section DueDateFacts.
Import Calendar.
Context {host : Host}.

(** A day/month/year string split at the slashes, reversed and joined
    with dashes. *)
Lemma reversed_date_string (y m d : Z) :
  0 <= y -> 0 <= m -> 0 <= d ->
  join (rev (JS.split (JS.padStart0 (JS.String_of d) 2 ++ "/"
                         ++ JS.padStart0 (JS.String_of m) 2 ++ "/"
                         ++ JS.String_of y) "/")) "-"
  = (JS.String_of y ++ "-" ++ JS.padStart0 (JS.String_of m) 2 ++ "-"
       ++ JS.padStart0 (JS.String_of d) 2)%string.
Proof.
  intros Hy Hm Hd. unfold JS.split.
  repeat change ("/" ++ ?x)%string with (String "/" x).
  rewrite split_aux_segment
    by (apply digits_exclude; [reflexivity | now apply padStart0_digits]).
  rewrite split_aux_segment
    by (apply digits_exclude; [reflexivity | now apply padStart0_digits]).
  rewrite split_aux_last
    by (apply digits_exclude; [reflexivity | now apply String_of_digits]).
  reflexivity.
Qed.

(** The date-only form of a day of a four-digit year is read back. *)
Lemma dateOnly_printed (y m d : Z) :
  1000 <= y <= 9999 -> 0 <= m < 100 -> 0 <= d < 100 ->
  dateOnly (JS.String_of y ++ "-" ++ JS.padStart0 (JS.String_of m) 2 ++ "-"
              ++ JS.padStart0 (JS.String_of d) 2)
  = Some (mkCivil y m d).
Proof.
  intros Hy Hm Hd. unfold dateOnly, JS.split.
  repeat change ("-" ++ ?x)%string with (String "-" x).
  rewrite split_aux_segment
    by (apply digits_exclude; [reflexivity | apply String_of_digits; lia]).
  rewrite split_aux_segment
    by (apply digits_exclude; [reflexivity | apply padStart0_digits; lia]).
  rewrite split_aux_last
    by (apply digits_exclude; [reflexivity | apply padStart0_digits; lia]).
  cbn [String.append].
  now rewrite field_year4, !field_pad2.
Qed.

Lemma valid_validb (c : Civil) : valid c -> validb c = true.
Proof.
  intros [[Hm1 Hm2] [Hd1 Hd2]]. unfold validb.
  apply Z.leb_le in Hm1, Hm2, Hd1, Hd2. now rewrite Hm1, Hm2, Hd1, Hd2.
Qed.

(** Midnight of a day in universal time falls on that day in local time
    when local time is not behind. *)
Lemma civil_utc_midnight (D : Z) :
  0 <= localTZA ->
  civil (mkDate (Some (MakeDate D 0))) = Some (civil_from_days D).
Proof.
  intros Heast. pose proof localTZA_bounds as Hz.
  unfold civil, LocalTime, MakeDate, Day. cbn [timeValue]. do 2 f_equal.
  unfold msPerDay in *. Z.div_mod_to_equations. lia.
Qed.

(** What [new Date(...)] makes of the day/month/year string of a day of
    a four-digit year, on its way through [updatePaymentDue]. *)
Lemma parse_reversed_date engine (date : Date) (c : Civil) :
  civil date = Some c ->
  1000 <= cyear c <= 9999 ->
  parse engine
        (join (rev (JS.split (toLocaleDateString_fr date) "/")) "-")
  = mkDate (Some (MakeDate (days_from_civil (cyear c) (cmonth c) (cday c)) 0))
  /\ civil_from_days (days_from_civil (cyear c) (cmonth c) (cday c)) = c.
Proof.
  intros Hc Hy.
  assert (Hvalid : valid c).
  { unfold civil in Hc. destruct (timeValue date); [| discriminate].
    injection Hc as <-. apply CalendarFacts.civil_from_days_valid. }
  unfold toLocaleDateString_fr. rewrite Hc.
  destruct c as [y m d]. cbn [cyear cmonth cday] in *.
  pose proof Hvalid as [Hm Hd]. cbn [cyear cmonth cday] in Hm, Hd.
  pose proof (CalendarFacts.daysInMonth_bounds y m) as Hdim.
  replace (1 <=? y) with true by (symmetry; apply Z.leb_le; lia).
  rewrite reversed_date_string by lia.
  unfold parse. rewrite dateOnly_printed by lia.
  rewrite (valid_validb _ Hvalid). cbn [cyear cmonth cday].
  split.
  - f_equal. unfold TimeClip.
    replace (Z.abs _ <=? maxTime) with true; [reflexivity |].
    symmetry. apply Z.leb_le.
    assert (Hrange : -1000000 <= days_from_civil y m d <= 3000000).
    { clear - Hy Hm Hd Hdim. unfold days_from_civil. cbv zeta.
      destruct (m <=? 2), (2 <? m); Z.div_mod_to_equations; lia. }
    unfold MakeDate, maxTime, msPerDay. lia.
  - now apply CalendarFacts.civil_from_days_of_civil.
Qed.

Lemma toLocaleDateString_fr_nonempty (t : Date) :
  toLocaleDateString_fr t <> EmptyString.
Proof.
  unfold toLocaleDateString_fr. destruct (civil t); [| discriminate].
  destruct (JS.padStart0 _ 2); discriminate.
Qed.

(** Local midnight of a day number in range is a date of that day. *)
Lemma civil_local_midnight (D : Z) :
  -700000 <= D <= 99900000 ->
  exists tv,
    TimeClip (UTC (MakeDate D 0)) = Some tv
    /\ Day (LocalTime tv) = D.
Proof.
  intros HD. pose proof localTZA_bounds as Hz.
  exists (UTC (MakeDate D 0)). split.
  - unfold TimeClip.
    replace (Z.abs _ <=? maxTime) with true; [reflexivity |].
    symmetry. apply Z.leb_le.
    unfold UTC, MakeDate, maxTime, msPerDay in *. lia.
  - unfold LocalTime, UTC, MakeDate, Day, msPerDay.
    Z.div_mod_to_equations. lia.
Qed.

(** The term of 20 days on any date of the local day 1 March 2024 (day
    number 19783). *)
Lemma twenty_days_from_first_of_march (now t : Date) (tv : Z) :
  timeValue t = Some tv ->
  Day (LocalTime tv) = 19783 ->
  calculatePaymentDue now t Sample.terms20 = "21/03/2024"%string.
Proof.
  intros Htv Hday. pose proof localTZA_bounds as Hz.
  assert (Hrange : Z.abs tv <= maxTime /\ Z.abs (tv + 20 * msPerDay) <= maxTime).
  { unfold Day, LocalTime, maxTime, msPerDay in *.
    Z.div_mod_to_equations. lia. }
  destruct Hrange as [Hrange Hdue].
  unfold calculatePaymentDue.
  change (String.eqb Sample.terms20 EmptyString) with false. cbv zeta.
  change (termDays Sample.terms20) with (JS.Int 20). cbn [JS.isNaN].
  rewrite (setDate_getDate t tv 20 Htv Hrange).
  unfold plusDays, TimeClip. rewrite Htv.
  apply Z.leb_le in Hdue. rewrite Hdue.
  unfold toLocaleDateString_fr, civil. cbn [timeValue].
  unfold LocalTime in *.
  replace (tv + 20 * msPerDay + localTZA)
    with (tv + localTZA + 20 * msPerDay) by ring.
  rewrite Day_shift, Hday. reflexivity.
Qed.

End DueDateFacts.

Lemma termDays_of_terms :
  termDays ("10 jours " ++ JS.a_grave ++ " r" ++ JS.e_acute ++ "ception")%string
  = JS.Int 10
  /\ termDays ("20 jours " ++ JS.a_grave ++ " r" ++ JS.e_acute ++ "ception")%string
     = JS.Int 20
  /\ termDays ("30 jours " ++ JS.a_grave ++ " r" ++ JS.e_acute ++ "ception")%string
     = JS.Int 30.
Proof. repeat split; vm_compute; reflexivity. Qed.

(** C7 (amended). For every invoice date in the range of [Date] and
    every payment term that is not the empty string,
    [calculatePaymentDue] returns, in day/month/year form, the date [N]
    days after the invoice date when that date is in the range of [Date]
    (its local calendar day is then [N] times the day after), and
    [Invalid Date] when it is not; [N] is the number that [parseInt]
    reads at the start of the first space-delimited token of the term
    (10, 20 and 30 for the three terms of the application), 30 when
    there is none, and an infinite [N] gives [Invalid Date]. The term of
    20 days on 01/03/2024 gives 21/03/2024, also through
    [updatePaymentDue] where local time is not behind universal time.
    For the empty term
    [calculatePaymentDue] returns the current date and [updatePaymentDue]
    leaves the state as it is. Where local time is not behind universal
    time, [updatePaymentDue], given the day/month/year string of a day of
    a four-digit year, stores the due date that [calculatePaymentDue]
    computes from a date of that same calendar day (midnight of the day
    in universal time). *)
Theorem payment_due_is_date_plus_term_days {host : Calendar.Host}
    (now invoiceDate : Calendar.Date) (terms : string) (tv : Z) :
  Calendar.timeValue invoiceDate = Some tv ->
  Z.abs tv <= Calendar.maxTime ->
  terms <> EmptyString ->
  let days := if JS.isNaN (termDays terms) then JS.Int 30
              else termDays terms in
  (forall n,
     days = JS.Int n ->
     let due := tv + n * Calendar.msPerDay in
     calculatePaymentDue now invoiceDate terms
     = Calendar.toLocaleDateString_fr (Calendar.plusDays invoiceDate n)
     /\ (Z.abs due <= Calendar.maxTime ->
         Calendar.plusDays invoiceDate n = Calendar.mkDate (Some due)
         /\ Calendar.Day (Calendar.LocalTime due)
            = Calendar.Day (Calendar.LocalTime tv) + n
         /\ (0 <= n ->
             Calendar.civil (Calendar.plusDays invoiceDate n)
             = option_map (Calendar.daysAfter (Z.to_nat n))
                          (Calendar.civil invoiceDate)))
     /\ (Calendar.maxTime < Z.abs due ->
         calculatePaymentDue now invoiceDate terms = "Invalid Date"%string))
  /\ (forall b, days = JS.Infinity b ->
        calculatePaymentDue now invoiceDate terms = "Invalid Date"%string)
  /\ (termDays ("10 jours " ++ JS.a_grave ++ " r" ++ JS.e_acute
                 ++ "ception")%string = JS.Int 10
      /\ termDays ("20 jours " ++ JS.a_grave ++ " r" ++ JS.e_acute
                    ++ "ception")%string = JS.Int 20
      /\ termDays ("30 jours " ++ JS.a_grave ++ " r" ++ JS.e_acute
                    ++ "ception")%string = JS.Int 30)
  /\ calculatePaymentDue now (Calendar.dateOf 2024 3 1) Sample.terms20
     = "21/03/2024"%string
  /\ (0 <= Calendar.localTZA ->
      forall num (env : Env) (st : App.t num),
        Invoice.paymentDue
          (App.invoice (updatePaymentDue env "01/03/2024" Sample.terms20 st))
        = "21/03/2024"%string)
  /\ calculatePaymentDue now invoiceDate EmptyString
     = Calendar.toLocaleDateString_fr now
  /\ (forall num (env : Env) (date : string) (st : App.t num),
        updatePaymentDue env date EmptyString st = st)
  /\ (forall num (env : Env) (st : App.t num)
             (date : Calendar.Date) (c : Calendar.Civil),
        Calendar.civil date = Some c ->
        1000 <= Calendar.cyear c <= 9999 ->
        0 <= Calendar.localTZA ->
        let midnight :=
          Calendar.mkDate
            (Some (Calendar.MakeDate
                     (Calendar.days_from_civil
                        (Calendar.cyear c) (Calendar.cmonth c)
                        (Calendar.cday c)) 0)) in
        Invoice.paymentDue
          (App.invoice
             (updatePaymentDue env (Calendar.toLocaleDateString_fr date)
                               terms st))
        = calculatePaymentDue (today env) midnight terms
        /\ Calendar.civil midnight = Some c).
Proof.
  intros Htv Hrange Hterms days.
  apply String.eqb_neq in Hterms.
  split.
  { intros n Hn due.
    assert (Hdue : calculatePaymentDue now invoiceDate terms
                   = Calendar.toLocaleDateString_fr
                       (Calendar.plusDays invoiceDate n)).
    { unfold calculatePaymentDue. rewrite Hterms. cbv zeta.
      fold days. rewrite Hn. f_equal.
      now apply (setDate_getDate invoiceDate tv n). }
    split; [exact Hdue |]. split.
    - intros Hin.
      assert (Hplus : Calendar.plusDays invoiceDate n
                      = Calendar.mkDate (Some due)).
      { unfold Calendar.plusDays, Calendar.TimeClip. rewrite Htv. fold due.
        apply Z.leb_le in Hin. now rewrite Hin. }
      split; [exact Hplus |]. split.
      + unfold due, Calendar.LocalTime.
        replace (tv + n * Calendar.msPerDay + Calendar.localTZA)
          with (tv + Calendar.localTZA + n * Calendar.msPerDay) by ring.
        apply Day_shift.
      + intros Hpos. rewrite Hplus. unfold due.
        rewrite <- (Z2Nat.id n) at 1 by exact Hpos.
        rewrite civil_shift. f_equal.
        unfold Calendar.civil. cbn [Calendar.timeValue]. now rewrite Htv.
    - intros Hout. rewrite Hdue.
      unfold Calendar.plusDays, Calendar.TimeClip. rewrite Htv. fold due.
      apply Z.leb_gt in Hout. rewrite Hout. reflexivity. }
  split.
  { intros b Hb. unfold calculatePaymentDue. rewrite Hterms. cbv zeta.
    fold days. rewrite Hb.
    now rewrite (setDate_infinite invoiceDate tv b Htv). }
  split; [exact termDays_of_terms |].
  split.
  { destruct (civil_local_midnight 19783 ltac:(lia)) as (tv0 & Hclip & Hday).
    apply (twenty_days_from_first_of_march now _ tv0); [| exact Hday].
    unfold Calendar.dateOf. cbn [Calendar.timeValue]. exact Hclip. }
  split.
  { intros Heast num env st.
    unfold updatePaymentDue. cbn [String.eqb orb]. cbv zeta.
    cbn [App.setInvoice App.invoice Invoice.paymentDue].
    apply (twenty_days_from_first_of_march _ _ (19783 * Calendar.msPerDay)).
    - reflexivity.
    - pose proof localTZA_bounds as Hz.
      unfold Calendar.Day, Calendar.LocalTime, Calendar.msPerDay in *.
      Z.div_mod_to_equations. lia. }
  split; [reflexivity |].
  split.
  { intros num env date st. unfold updatePaymentDue.
    now rewrite String.eqb_refl, Bool.orb_true_r. }
  intros num env st date c Hc Hyear Heast midnight.
  destruct (parse_reversed_date (newDate env) date c Hc Hyear)
    as [Hparse Hcivil].
  split.
  - unfold updatePaymentDue.
    pose proof (toLocaleDateString_fr_nonempty date) as Hne.
    apply String.eqb_neq in Hne. rewrite Hne, Hterms. cbn [orb].
    cbv zeta. rewrite Hparse. reflexivity.
  - unfold midnight.
    rewrite civil_utc_midnight by exact Heast. now rewrite Hcivil.
Qed.

(** Thirty days from 31/01/2024, across the end of February of a leap
    year. *)
Lemma payment_due_is_date_plus_term_days_witness :
  calculatePaymentDue (host := Sample.paris) Sample.june
    (Calendar.dateOf (host := Sample.paris) 2024 1 31)
    ("30 jours " ++ JS.a_grave ++ " r" ++ JS.e_acute ++ "ception")%string
  = "01/03/2024"%string.
Proof.
  destruct (payment_due_is_date_plus_term_days (host := Sample.paris)
              Sample.june (Calendar.dateOf (host := Sample.paris) 2024 1 31)
              ("30 jours " ++ JS.a_grave ++ " r" ++ JS.e_acute ++ "ception")%string
              1706655600000)
    as (Hdue & _).
  - vm_compute. reflexivity.
  - vm_compute. discriminate.
  - discriminate.
  - destruct (Hdue 30) as [-> _]; [vm_compute; reflexivity |].
    vm_compute. reflexivity.
Defined.

(** C7 as stated fails in three places. On the empty term: on 15/06/2024
    the due date of an invoice of 01/03/2024 is the current day, not the
    invoice date plus the default of 30 days. Past the range of [Date]:
    the term [99999999 jours] gives [Invalid Date]. And five hours west
    of universal time, [updatePaymentDue] reads 01/03/2024 back as the
    evening of 29 February, so that the term of 20 days gives 20/03/2024,
    not 21/03/2024. *)
Lemma due_date_is_not_always_date_plus_term :
  (termDays EmptyString = JS.NaN
   /\ calculatePaymentDue (host := Sample.paris)
        Sample.june Sample.march EmptyString
      = "15/06/2024"%string
   /\ Calendar.toLocaleDateString_fr (host := Sample.paris)
        (Calendar.plusDays Sample.march 30)
      = "31/03/2024"%string
   /\ calculatePaymentDue (host := Sample.paris)
        Sample.june Sample.march EmptyString
      <> Calendar.toLocaleDateString_fr (host := Sample.paris)
           (Calendar.plusDays Sample.march 30))
  /\ (termDays "99999999 jours" = JS.Int 99999999
      /\ calculatePaymentDue (host := Sample.paris)
           Sample.june Sample.march "99999999 jours"
         = "Invalid Date"%string)
  /\ (Calendar.toLocaleDateString_fr (host := Sample.newYork)
        (Calendar.dateOf (host := Sample.newYork) 2024 3 1)
      = "01/03/2024"%string
      /\ Invoice.paymentDue
           (App.invoice
              (updatePaymentDue (host := Sample.newYork)
                 (Sample.env "2024-03-01T09:00:00.000Z" true)
                 "01/03/2024" Sample.terms20 Sample.editing))
         = "20/03/2024"%string
      /\ Invoice.paymentDue
           (App.invoice
              (updatePaymentDue (host := Sample.newYork)
                 (Sample.env "2024-03-01T09:00:00.000Z" true)
                 "01/03/2024" Sample.terms20 Sample.editing))
         <> "21/03/2024"%string).
Proof.
  repeat split; try (vm_compute; reflexivity); vm_compute; discriminate.
Qed.
(** ** Pagination *)

Section LayoutFacts.
Context {num : Type} `{Number num}.
Implicit Types (g : Geometry) (st : Pack.t num) (a : Article.t num).

Lemma packStep_fits g st a index :
  Pack.currentPageY st + spaceNeeded g st a
    <= maxYPerPage g - bottomPadding g ->
  packStep g st a index =
    Pack.mk (Pack.currentPageY st + spaceNeeded g st a)
            (Pack.currentPage st) (Pack.pageBreaks st)
            (Pack.currentPageArticles st ++ [a])
            (Pack.articleStartIndex st).
Proof.
  intros Hfit. unfold packStep. cbv zeta.
  destruct (Z.gtb_spec (Pack.currentPageY st + spaceNeeded g st a)
                       (maxYPerPage g - bottomPadding g)); [lia | reflexivity].
Qed.

Lemma packStep_overflows g st a index :
  maxYPerPage g - bottomPadding g
    < Pack.currentPageY st + spaceNeeded g st a ->
  Pack.currentPage (packStep g st a index) = Pack.currentPage st + 1
  /\ Pack.currentPageArticles (packStep g st a index) = [a]
  /\ Pack.currentPageY (packStep g st a index)
     = nextPageTop g + spaceNeeded g st a.
Proof.
  intros Hover. unfold packStep. cbv zeta.
  destruct (Z.gtb_spec (Pack.currentPageY st + spaceNeeded g st a)
                       (maxYPerPage g - bottomPadding g)); [| lia].
  repeat split.
Qed.
End LayoutFacts.

(** C5. The fit test is inclusive: an article stays on the page being
    filled exactly when the cursor plus its height, plus the header height
    when the page has no article yet, is at most the page limit minus the
    bottom padding, and opens the next page otherwise; an article that
    ends exactly on the limit stays. With three articles of height 20, a
    budget of 50 and a header of 10, the first two share page 1 (30 + 20 =
    50) and the third opens page 2. *)
Theorem fit_test_is_inclusive {num}
    (g : Geometry) (st : Pack.t num) (article : Article.t num) (index : nat) :
  let headerSpace :=
    if (List.length (Pack.currentPageArticles st) =? 0)%nat
    then headerHeight g else 0 in
  let bottom := Pack.currentPageY st + articleHeight article + headerSpace in
  let limit := maxYPerPage g - bottomPadding g in
  (placedOnCurrentPage g st article index <-> bottom <= limit)
  /\ (movedToNextPage g st article index <-> limit < bottom)
  /\ (bottom = limit -> placedOnCurrentPage g st article index)
  /\ (forall i1 i2 i3 : Article.t num,
        articleHeight i1 = 20 -> articleHeight i2 = 20 ->
        articleHeight i3 = 20 ->
        pageBreaksOf Sample.g50 [i1; i2; i3]
        = [PageBreak.mk 1 [i1; i2] 0 false; PageBreak.mk 2 [i3] 2 true]).
Proof.
  intros headerSpace bottom limit.
  assert (Hbottom : Pack.currentPageY st + spaceNeeded g st article = bottom)
    by (unfold bottom, headerSpace, spaceNeeded; ring).
  assert (Hin : bottom <= limit -> placedOnCurrentPage g st article index).
  { intros Hfit. unfold placedOnCurrentPage. cbv zeta.
    rewrite packStep_fits by (rewrite Hbottom; exact Hfit). split; reflexivity. }
  assert (Hout : limit < bottom -> movedToNextPage g st article index).
  { intros Hover. unfold movedToNextPage. cbv zeta.
    destruct (packStep_overflows g st article index) as (Hp & Hc & _);
      [rewrite Hbottom; exact Hover | now split]. }
  split; [split; [| exact Hin] |].
  { intros [Hpage _]. destruct (Z.le_gt_cases bottom limit) as [Hle | Hgt];
      [exact Hle |].
    destruct (Hout Hgt) as [Hpage' _]. cbv zeta in Hpage'. lia. }
  split; [split; [| exact Hout] |].
  { intros [Hpage _]. destruct (Z.le_gt_cases bottom limit) as [Hle | Hgt];
      [| exact Hgt].
    destruct (Hin Hle) as [Hpage' _]. cbv zeta in Hpage'. lia. }
  split; [intros E; apply Hin; lia |].
  intros i1 i2 i3 H1 H2 H3.
  unfold pageBreaksOf, packFrom, packInit.
  rewrite (packStep_fits Sample.g50 _ i1 0)
    by (unfold spaceNeeded; rewrite H1; vm_compute; discriminate).
  rewrite (packStep_fits Sample.g50 _ i2 1)
    by (unfold spaceNeeded; rewrite H1, H2; vm_compute; discriminate).
  unfold packStep, spaceNeeded. cbn [Pack.currentPageY Pack.currentPage
    Pack.pageBreaks Pack.currentPageArticles Pack.articleStartIndex app
    List.length Nat.eqb].
  rewrite H1, H2, H3. reflexivity.
Qed.

(** On the page of the application, the fourteenth article of height 20
    ends exactly on the limit of 250 and stays on page 2. *)
Lemma fit_test_is_inclusive_witness :
  let a := Sample.article "1" 1 2 50 in
  let st := packFrom a4 (packInit a4) (repeat a 13) 0 in
  Pack.currentPageY st + articleHeight a = maxYPerPage a4 - bottomPadding a4
  /\ Pack.currentPage st = 2
  /\ placedOnCurrentPage a4 st a 13.
Proof.
  intros a st. split; [reflexivity |]. split; [reflexivity |].
  destruct (fit_test_is_inclusive a4 st a 13) as (_ & _ & Hedge & _).
  apply Hedge. reflexivity.
Defined.

Section PageCountFacts.
Context {num : Type} `{Number num}.
Implicit Types (g : Geometry) (st : Pack.t num) (a : Article.t num).

Lemma packInv_init g : packInv (packInit (num := num) g) 0.
Proof. split; simpl; [intros p [] | reflexivity]. Qed.

Lemma packStep_nonempty g st a index :
  Pack.currentPageArticles (packStep g st a index) <> [].
Proof.
  unfold packStep.
  destruct (_ >? _); simpl; [discriminate |].
  destruct (Pack.currentPageArticles st); discriminate.
Qed.

Lemma packStep_inv g st a index :
  packInv st index -> packInv (packStep g st a index) (S index).
Proof.
  intros [Hlt Hlen]. unfold packStep.
  destruct (_ >? _); simpl.
  - split; [| simpl; lia].
    intros p Hp.
    destruct (Pack.currentPageArticles st) as [| c cs] eqn:Ecur; simpl in *.
    + specialize (Hlt p Hp). lia.
    + apply in_app_or in Hp. destruct Hp as [Hp | [<- | []]].
      * specialize (Hlt p Hp). lia.
      * simpl. lia.
  - split; simpl; [exact Hlt |].
    rewrite length_app. simpl. lia.
Qed.

Lemma packFrom_inv g (articles : list (Article.t num)) : forall st index,
  packInv st index ->
  packInv (packFrom g st articles index) (index + List.length articles).
Proof.
  induction articles as [| a rest IH]; intros st index Hinv; simpl.
  - now rewrite Nat.add_0_r.
  - replace (index + S (List.length rest))%nat
      with (S index + List.length rest)%nat by lia.
    apply IH, packStep_inv, Hinv.
Qed.

Lemma packFrom_nonempty g (articles : list (Article.t num)) : forall st index,
  (articles <> [] \/ Pack.currentPageArticles st <> []) ->
  Pack.currentPageArticles (packFrom g st articles index) <> [].
Proof.
  induction articles as [| a rest IH]; intros st index Hne; simpl.
  - destruct Hne as [Hne | Hne]; [congruence | exact Hne].
  - apply IH. right. apply packStep_nonempty.
Qed.

Lemma find_none_lt (pbs : list (PageBreak.t num)) (k : nat) :
  (forall p, In p pbs -> (PageBreak.startIndex p < k)%nat) ->
  find (fun p => (PageBreak.startIndex p =? k)%nat) pbs = None.
Proof.
  induction pbs as [| p r IH]; intros Hlt; simpl; [reflexivity |].
  destruct (Nat.eqb_spec (PageBreak.startIndex p) k) as [E | _].
  - specialize (Hlt p (or_introl eq_refl)). lia.
  - apply IH. intros q Hq. apply Hlt. now right.
Qed.

(** For a non-empty list the last page is always pushed after the loop. *)
Lemma pageBreaksOf_snoc g (articles : list (Article.t num)) :
  articles <> [] ->
  let st := packFrom g (packInit g) articles 0 in
  pageBreaksOf g articles =
    Pack.pageBreaks st
      ++ [PageBreak.mk (Pack.currentPage st) (Pack.currentPageArticles st)
                       (Pack.articleStartIndex st)
                       (spaceForTotal g (Pack.currentPageY st))].
Proof.
  intros Hne st. unfold pageBreaksOf, closeLastPage. fold st.
  assert (Hcur : Pack.currentPageArticles st <> [])
    by (apply packFrom_nonempty; now left).
  destruct (packFrom_inv g articles _ _ (packInv_init g)) as [Hlt _].
  fold st in Hlt. rewrite (find_none_lt _ _ Hlt).
  destruct (Pack.currentPageArticles st); [congruence | reflexivity].
Qed.

Lemma addPages_app (l1 l2 : list (DrawOp num)) :
  addPages (l1 ++ l2) = (addPages l1 + addPages l2)%nat.
Proof. unfold addPages. now rewrite filter_app, length_app. Qed.

Lemma drawArticles_snd (articles : list (Article.t num)) :
  forall s i y, snd (drawArticles articles s i y) = addHeights y articles.
Proof.
  induction articles as [| a rest IH]; intros s i y; simpl; [reflexivity |].
  specialize (IH s (S i) (y + articleHeight a)).
  destruct (drawArticles rest s (S i) (y + articleHeight a)); simpl in *.
  exact IH.
Qed.

Lemma drawArticles_addPages (articles : list (Article.t num)) :
  forall s i y, addPages (fst (drawArticles articles s i y)) = 0%nat.
Proof.
  induction articles as [| a rest IH]; intros s i y; simpl; [reflexivity |].
  specialize (IH s (S i) (y + articleHeight a)).
  destruct (drawArticles rest s (S i) (y + articleHeight a)); simpl in *.
  exact IH.
Qed.

Lemma drawPages_cons g tp (p : PageBreak.t num) rest i y :
  drawPages g tp (p :: rest) i y =
    let top := if (0 <? i)%nat then nextPageTop g else y in
    let rows := drawArticles (PageBreak.articles p) (PageBreak.startIndex p)
                             0 (top + headerHeight g) in
    let tl := drawPages g tp rest (S i) (snd rows + 10) in
    ((if (0 <? i)%nat then [AddPage] else [])
       ++ [TableHeader top] ++ fst rows
       ++ [TableBorder top (snd rows - top);
           PageFooter (PageBreak.page p) tp]
       ++ fst tl,
     snd tl).
Proof.
  simpl.
  destruct (drawArticles _ _ _ _) as [rows cy]; simpl.
  destruct (drawPages g tp rest (S i) (cy + 10)) as [ops y']; simpl.
  reflexivity.
Qed.

Lemma drawPages_addPages g tp (pbs : list (PageBreak.t num)) :
  forall i y,
    addPages (fst (drawPages g tp pbs i y)) =
      (if (0 <? i)%nat then List.length pbs else List.length pbs - 1)%nat.
Proof.
  induction pbs as [| p rest IH]; intros i y.
  - simpl. now destruct (0 <? i)%nat.
  - rewrite drawPages_cons. cbv zeta. cbn [fst].
    rewrite !addPages_app, drawArticles_addPages, IH.
    change (0 <? S i)%nat with true. cbv iota.
    destruct (0 <? i)%nat; unfold addPages; simpl; lia.
Qed.

Lemma lastPage_snoc {A} (l : list A) (x : A) : lastPage (l ++ [x]) = Some x.
Proof.
  unfold lastPage. rewrite length_app. simpl.
  replace (List.length l + 1 - 1)%nat with (List.length l) by lia.
  rewrite nth_error_app2 by lia. now rewrite Nat.sub_diag.
Qed.

Lemma lastPage_cons {A} (x y : A) (l : list A) :
  lastPage (x :: y :: l) = lastPage (y :: l).
Proof.
  unfold lastPage. simpl. now rewrite Nat.sub_0_r.
Qed.

(** The cursor left by the table pass is that of the last page. *)
Lemma drawPages_snd g tp (pbs : list (PageBreak.t num)) :
  forall i y last,
    lastPage pbs = Some last ->
    snd (drawPages g tp pbs i y) =
      addHeights
        ((if (0 <? i)%nat || (1 <? List.length pbs)%nat
          then nextPageTop g else y) + headerHeight g)
        (PageBreak.articles last) + 10.
Proof.
  induction pbs as [| p rest IH]; intros i y last Hlast.
  - discriminate.
  - rewrite drawPages_cons. cbv zeta. cbn [snd].
    destruct rest as [| q rest'].
    + simpl in Hlast. injection Hlast as <-.
      simpl. rewrite drawArticles_snd, Bool.orb_false_r. reflexivity.
    + rewrite lastPage_cons in Hlast.
      rewrite (IH _ _ _ Hlast).
      replace (0 <? S i)%nat with true by reflexivity.
      replace (1 <? List.length (p :: q :: rest'))%nat with true by reflexivity.
      now rewrite Bool.orb_true_r.
Qed.

(** The pages announced and the pages drawn agree for every invoice
    with at least one line. *)
Lemma page_count_agrees_nonempty g (articles : list (Article.t num)) :
  articles <> [] ->
  fst (generatePDF g articles) = pagesEmitted (snd (generatePDF g articles)).
Proof.
  intros Hne. unfold generatePDF.
  pose proof (pageBreaksOf_snoc g articles Hne) as Hpb. cbv zeta in Hpb.
  set (st := packFrom g (packInit g) articles 0) in *.
  set (front := Pack.pageBreaks st) in *.
  set (lastp := PageBreak.mk _ _ _ _) in *.
  rewrite Hpb.
  pose proof (drawPages_addPages g (totalPages g (front ++ [lastp]))
                (front ++ [lastp]) 0 (tableTop g)) as Hcount.
  pose proof (drawPages_snd g (totalPages g (front ++ [lastp]))
                (front ++ [lastp]) 0 (tableTop g) lastp
                (lastPage_snoc front lastp)) as Hy.
  destruct (drawPages g _ (front ++ [lastp]) 0 (tableTop g)) as [ops y].
  cbn [fst snd] in *.
  unfold totalPages. rewrite lastPage_snoc.
  unfold pagesEmitted.
  rewrite !addPages_app, Hcount.
  rewrite length_app in *. cbn [List.length] in *.
  change (0 <? 0)%nat with false in *.
  cbv iota. cbn [orb] in Hy.
  replace (List.length front + 1 =? 1)%nat
    with (negb (1 <? List.length front + 1)%nat)
    by (destruct (List.length front); simpl;
        [reflexivity | now rewrite Nat.add_1_r]).
  set (b := (1 <? List.length front + 1)%nat) in *.
  destruct (PageBreak.hasSpaceForTotal lastp); cbn [negb].
  - replace (if negb b then tableTop g else nextPageTop g)
      with (if b then nextPageTop g else tableTop g) by now destruct b.
    rewrite <- Hy.
    destruct (_ >? _); unfold addPages; cbn [filter isAddPage List.length app];
      lia.
  - unfold addPages; cbn [filter isAddPage List.length app]; lia.
Qed.
End PageCountFacts.

(** C2 (what the code does). The page count computed before drawing and
    the number of pages that the render pass emits agree for every invoice
    with at least one line item, and only for those: with no line item the
    count is 0 while two pages are emitted, the second under a footer that
    reads page 0 of 0. *)
Theorem page_count_agrees_iff_nonempty {num} `{Number num}
    (g : Geometry) (articles : list (Article.t num)) :
  (fst (generatePDF g articles) = pagesEmitted (snd (generatePDF g articles))
   <-> articles <> [])
  /\ fst (generatePDF g (@nil (Article.t num))) = 0
  /\ pagesEmitted (snd (generatePDF g (@nil (Article.t num)))) = 2
  /\ In (PageFooter 0 0) (snd (generatePDF g (@nil (Article.t num)))).
Proof.
  split; [split |].
  - intros Hagree ->. vm_compute in Hagree. discriminate.
  - apply page_count_agrees_nonempty.
  - split; [reflexivity |]. split; [reflexivity |]. right. now left.
Qed.

(** C6 (what the code does). For an invoice with no line item the render
    pass draws no table header: it adds a page, prints the footer of page 0
    of 0 there, then the total box with the amount 0.00 and the payment
    block; the document has two pages, the first without table, total or
    footer. *)
Theorem empty_invoice_takes_two_pages :
  generatePDF a4 (@nil (Article.t Z))
  = (0, [AddPage; PageFooter 0 0; TotalHT 50 "0.00"; PaymentAndMentions 70])
  /\ pagesEmitted (snd (generatePDF a4 (@nil (Article.t Z)))) = 2
  /\ existsb isTableHeader (snd (generatePDF a4 (@nil (Article.t Z)))) = false
  /\ forall num (N : Number num),
       snd (generatePDF a4 (@nil (Article.t num)))
       = [AddPage; PageFooter 0 0; TotalHT 50 (toFixed2 zero);
          PaymentAndMentions 70].
Proof.
  split; [reflexivity |]. split; [reflexivity |]. split; [reflexivity |].
  intros num N. reflexivity.
Qed.

(** With one line item the same page holds the header, the row, the total
    box, and the document has the two pages announced. *)
Example one_line_invoice :
  generatePDF a4 [Sample.article "1" 1 2 50]
  = (2, [TableHeader 155; ArticleRow (Sample.article "1" 1 2 50) 0 165;
         TableBorder 155 30; PageFooter 1 2; TotalHT 195 "100.00";
         AddPage; PageFooter 2 2; PaymentAndMentions 50]).
Proof. reflexivity. Qed.

(** A first article too tall for the first page (19 description lines)
    is still drawn there, under the page number 2 that the packing loop
    gave it when it moved on from the empty first page. *)
Example tall_first_article :
  let a := Sample.article "1" 19 2 50 in
  map (fun p => (PageBreak.page p, PageBreak.startIndex p))
      (pageBreaksOf a4 [a]) = [(2, 0%nat)]
  /\ fst (generatePDF a4 [a]) = 2
  /\ snd (generatePDF a4 [a])
     = [TableHeader 155; ArticleRow a 0 165; TableBorder 155 96;
        PageFooter 2 2; TotalHT 261 "100.00"; AddPage; PageFooter 2 2;
        PaymentAndMentions 50].
Proof. repeat split. Qed.

(** ** Further properties of the pagination *)

Section PackingFacts.
Context {num : Type}.
Implicit Types (g : Geometry) (st : Pack.t num) (a : Article.t num).

Lemma pagesFrom_snoc (pages : list (PageBreak.t num)) (p : PageBreak.t num) :
  forall offset,
    pagesFrom offset pages ->
    PageBreak.startIndex p
    = (offset + List.length (List.concat (map PageBreak.articles pages)))%nat ->
    PageBreak.articles p <> [] ->
    pagesFrom offset (pages ++ [p]).
Proof.
  induction pages as [| q r IH]; intros offset Hpages Hstart Hne; simpl in *.
  - repeat split; [lia | exact Hne].
  - destruct Hpages as (Hq & Hqne & Hr). repeat split; [exact Hq | exact Hqne |].
    apply IH; [exact Hr | | exact Hne].
    rewrite Hstart, length_app. lia.
Qed.

Lemma packed_init g : packed (packInit (num := num) g) [].
Proof. repeat split. Qed.

Lemma packStep_packed g st a done :
  packed st done ->
  packed (packStep g st a (List.length done)) (done ++ [a]).
Proof.
  intros (Hdone & Hpages & Hstart). subst done.
  unfold packed, packStep. cbv zeta.
  destruct (_ >? _); cbn [Pack.pageBreaks Pack.currentPageArticles
                           Pack.articleStartIndex].
  - destruct (Pack.currentPageArticles st) as [| c cs] eqn:Ecur;
      cbn [List.length Nat.ltb Nat.leb].
    + rewrite app_nil_r. repeat split; assumption.
    + rewrite map_app, concat_app. cbn [map List.concat PageBreak.articles].
      rewrite app_nil_r. repeat split.
      apply pagesFrom_snoc; [exact Hpages | exact Hstart | discriminate].
  - repeat split; [| exact Hpages | exact Hstart].
    now rewrite app_assoc.
Qed.

Lemma packFrom_packed g (articles : list (Article.t num)) :
  forall st done,
    packed st done ->
    packed (packFrom g st articles (List.length done)) (done ++ articles).
Proof.
  induction articles as [| a rest IH]; intros st done Hpacked; simpl.
  - now rewrite app_nil_r.
  - replace (S (List.length done)) with (List.length (done ++ [a]))
      by (rewrite length_app; simpl; lia).
    replace (done ++ a :: rest) with ((done ++ [a]) ++ rest)
      by (now rewrite <- app_assoc).
    apply IH, packStep_packed, Hpacked.
Qed.

Lemma closeLastPage_packed g st done :
  packed st done ->
  (Pack.currentPageArticles st <> [] ->
   forall p, In p (Pack.pageBreaks st) ->
             (PageBreak.startIndex p < Pack.articleStartIndex st)%nat) ->
  List.concat (map PageBreak.articles (closeLastPage g st)) = done
  /\ pagesFrom 0 (closeLastPage g st).
Proof.
  intros (Hdone & Hpages & Hstart) Hlt. unfold closeLastPage.
  destruct (Pack.currentPageArticles st) as [| c cs] eqn:Ecur;
    cbn [List.length Nat.ltb Nat.leb andb].
  - rewrite app_nil_r in Hdone. now split.
  - rewrite (find_none_lt _ _ (Hlt ltac:(discriminate))). cbn [isSome negb].
    rewrite map_app, concat_app. cbn [map List.concat PageBreak.articles].
    rewrite app_nil_r. split; [exact Hdone |].
    apply pagesFrom_snoc; [exact Hpages | exact Hstart | discriminate].
Qed.
End PackingFacts.

Lemma pageBreaksOf_packed {num}
    (g : Geometry) (articles : list (Article.t num)) :
  List.concat (map PageBreak.articles (pageBreaksOf g articles)) = articles
  /\ pagesFrom 0 (pageBreaksOf g articles)
  /\ (List.length (pageBreaksOf g articles) <= List.length articles)%nat.
Proof.
  pose proof (packFrom_packed g articles (packInit g) [] (packed_init g))
    as Hpacked.
  cbn [List.length app] in Hpacked.
  pose proof (packFrom_inv g articles (packInit g) 0 (packInv_init g))
    as [Hlt _].
  destruct (closeLastPage_packed g _ _ Hpacked (fun _ => Hlt)) as [Hcat Hpages].
  fold (pageBreaksOf g articles) in Hcat, Hpages.
  split; [exact Hcat |]. split; [exact Hpages |].
  rewrite <- Hcat at 2.
  clear Hcat. revert Hpages. generalize 0%nat.
  induction (pageBreaksOf g articles) as [| p r IH]; intros offset Hp;
    simpl; [lia |].
  destruct Hp as (_ & Hne & Hr). rewrite length_app.
  specialize (IH _ Hr).
  destruct (PageBreak.articles p); [congruence | simpl; lia].
Qed.

(** X1. The pages computed by the packing loop hold the articles of the
    invoice, each once and in order; no page is empty and each page starts
    at the position where the page before stops. *)
Theorem pages_partition_articles {num}
    (g : Geometry) (articles : list (Article.t num)) :
  List.concat (map PageBreak.articles (pageBreaksOf g articles)) = articles
  /\ pagesFrom 0 (pageBreaksOf g articles)
  /\ (List.length (pageBreaksOf g articles) <= List.length articles)%nat.
Proof. exact (pageBreaksOf_packed g articles). Qed.

Section RenderFacts.
Context {num : Type}.
Implicit Types (g : Geometry) (ops : list (DrawOp num)).

Lemma rowsOf_app ops1 ops2 : rowsOf (ops1 ++ ops2) = rowsOf ops1 ++ rowsOf ops2.
Proof. unfold rowsOf. apply flat_map_app. Qed.

Lemma rowsOf_drawArticles (articles : list (Article.t num)) :
  forall s i y,
    rowsOf (fst (drawArticles articles s i y)) = indexedFrom (s + i) articles.
Proof.
  induction articles as [| a rest IH]; intros s i y; simpl; [reflexivity |].
  specialize (IH s (S i) (y + articleHeight a)).
  destruct (drawArticles rest s (S i) (y + articleHeight a)); simpl in *.
  rewrite IH. now rewrite Nat.add_succ_r.
Qed.

Lemma indexedFrom_app {A} (l1 l2 : list A) : forall start,
  indexedFrom start (l1 ++ l2)
  = indexedFrom start l1 ++ indexedFrom (start + List.length l1) l2.
Proof.
  induction l1 as [| x r IH]; intros start; simpl.
  - now rewrite Nat.add_0_r.
  - rewrite IH. now rewrite Nat.add_succ_r.
Qed.

Lemma rowsOf_drawPages g tp (pages : list (PageBreak.t num)) :
  forall i y offset,
    pagesFrom offset pages ->
    rowsOf (fst (drawPages g tp pages i y))
    = indexedFrom offset (List.concat (map PageBreak.articles pages)).
Proof.
  induction pages as [| p rest IH]; intros i y offset Hpages; [reflexivity |].
  destruct Hpages as (Hstart & _ & Hrest).
  rewrite drawPages_cons. cbv zeta. cbn [fst].
  rewrite !rowsOf_app, rowsOf_drawArticles, (IH _ _ _ Hrest).
  cbn [map List.concat]. rewrite indexedFrom_app, Hstart, Nat.add_0_r.
  destruct (0 <? i)%nat; reflexivity.
Qed.
End RenderFacts.

(** X2. The render pass draws one row per article, in the order of the
    invoice, and the row of the article at position [i] carries the number
    [i + 1]. *)
Theorem every_article_is_drawn_once {num} `{Number num}
    (g : Geometry) (articles : list (Article.t num)) :
  rowsOf (snd (generatePDF g articles)) = indexedFrom 0 articles.
Proof.
  destruct (pageBreaksOf_packed g articles) as (Hcat & Hpages & _).
  unfold generatePDF.
  pose proof (rowsOf_drawPages g (totalPages g (pageBreaksOf g articles))
                (pageBreaksOf g articles) 0 (tableTop g) 0 Hpages) as Hrows.
  destruct (drawPages g _ (pageBreaksOf g articles) 0 (tableTop g))
    as [ops y]. cbn [fst snd] in *.
  rewrite !rowsOf_app, Hrows, Hcat.
  destruct (lastPage (pageBreaksOf g articles)) as [p |];
    [destruct (PageBreak.hasSpaceForTotal p) |];
    try destruct (_ >? _); cbn; now rewrite app_nil_r.
Qed.

Section FooterFacts.
Context {num : Type}.
Implicit Types (g : Geometry) (st : Pack.t num) (a : Article.t num)
               (ops : list (DrawOp num)).

Lemma footersFrom_app ops1 : forall page ops2,
  footersFrom page (ops1 ++ ops2)
  = footersFrom page ops1
      ++ footersFrom (page + Z.of_nat (addPages ops1)) ops2.
Proof.
  induction ops1 as [| op r IH]; intros page ops2.
  - simpl. f_equal. unfold addPages. simpl. lia.
  - destruct op; cbn [app footersFrom]; rewrite IH;
      unfold addPages; cbn [filter isAddPage List.length];
      try reflexivity.
    f_equal. f_equal. lia.
Qed.

Lemma footersFrom_drawArticles (articles : list (Article.t num)) :
  forall s i y page,
    footersFrom page (fst (drawArticles articles s i y)) = [].
Proof.
  induction articles as [| a rest IH]; intros s i y page; simpl; [reflexivity |].
  specialize (IH s (S i) (y + articleHeight a) page).
  destruct (drawArticles rest s (S i) (y + articleHeight a)); simpl in *.
  exact IH.
Qed.

Lemma footersFrom_drawPages g tp (pages : list (PageBreak.t num)) :
  forall i y page,
    footersFrom page (fst (drawPages g tp pages i y))
    = footersOfItemPages tp (if (0 <? i)%nat then page + 1 else page) pages.
Proof.
  induction pages as [| p rest IH]; intros i y page; [reflexivity |].
  rewrite drawPages_cons. cbv zeta. cbn [fst].
  rewrite !footersFrom_app, footersFrom_drawArticles, drawArticles_addPages.
  cbn [footersOfItemPages].
  destruct (0 <? i)%nat eqn:Ei.
  - cbn [footersFrom app]. unfold addPages.
    cbn [filter isAddPage List.length app footersFrom].
    rewrite IH. change (0 <? S i)%nat with true. cbv iota.
    change (Z.of_nat 1) with 1. change (Z.of_nat 0) with 0.
    rewrite !Z.add_0_r. reflexivity.
  - cbn [footersFrom app]. unfold addPages.
    cbn [filter isAddPage List.length app footersFrom].
    rewrite IH. change (0 <? S i)%nat with true. cbv iota.
    change (Z.of_nat 0) with 0.
    rewrite !Z.add_0_r. reflexivity.
Qed.

Lemma numberedFrom_snoc (pages : list (PageBreak.t num)) p : forall n,
  numberedFrom n pages ->
  PageBreak.page p = n + Z.of_nat (List.length pages) ->
  numberedFrom n (pages ++ [p]).
Proof.
  induction pages as [| q r IH]; intros n Hn Hp; simpl in *.
  - split; [lia | exact I].
  - destruct Hn as [Hq Hr]. split; [exact Hq |]. apply IH; [exact Hr | lia].
Qed.

Lemma packStep_numbering g first st a index :
  numbering first st -> numbering first (packStep g st a index).
Proof.
  intros (Hcur & Hn & Hpage). unfold numbering, packStep. cbv zeta.
  destruct (_ >? _); cbn [Pack.pageBreaks Pack.currentPageArticles
                           Pack.currentPage].
  - destruct (Pack.currentPageArticles st) as [| c cs]; [congruence |].
    cbn [List.length Nat.ltb Nat.leb].
    split; [discriminate |]. split.
    + apply numberedFrom_snoc; [exact Hn | exact Hpage].
    + rewrite length_app. cbn [List.length]. lia.
  - split; [| split; [exact Hn | exact Hpage]].
    destruct (Pack.currentPageArticles st); discriminate.
Qed.

Lemma packFrom_numbering g first (articles : list (Article.t num)) :
  forall st index,
    numbering first st -> numbering first (packFrom g st articles index).
Proof.
  induction articles as [| a rest IH]; intros st index Hn; simpl;
    [exact Hn |].
  apply IH, packStep_numbering, Hn.
Qed.

Lemma footersOfItemPages_numbered total (pages : list (PageBreak.t num)) :
  forall n,
    numberedFrom (Z.of_nat n) pages ->
    footersOfItemPages total (Z.of_nat n) pages
    = map (fun k => (Z.of_nat k, Z.of_nat k, total))
          (seq n (List.length pages)).
Proof.
  induction pages as [| p r IH]; intros n Hn; [reflexivity |].
  destruct Hn as [Hp Hr]. cbn [footersOfItemPages List.length seq map].
  rewrite Hp. f_equal.
  replace (Z.of_nat n + 1) with (Z.of_nat (S n)) in * by lia.
  now apply IH.
Qed.

(** The item pages of a non-empty invoice whose first article fits count
    from 1. *)
Lemma pageBreaksOf_numbered g (articles : list (Article.t num)) :
  firstFits g articles = true ->
  numberedFrom 1 (pageBreaksOf g articles).
Proof.
  destruct articles as [| a rest]; [discriminate |].
  intros Hfits. apply Z.leb_le in Hfits.
  assert (Hfirst : numbering 1 (packStep g (packInit g) a 0)).
  { rewrite packStep_fits by exact Hfits. repeat split. discriminate. }
  pose proof (packFrom_numbering g 1 rest _ 1%nat Hfirst) as (Hcur & Hn & Hpage).
  rewrite (pageBreaksOf_snoc g (a :: rest)) by discriminate.
  cbn [packFrom]. apply numberedFrom_snoc; [exact Hn | exact Hpage].
Qed.
End FooterFacts.

(** X3. When the invoice has an article and the first one fits, with the
    table header, on the first page, every page of the document carries
    exactly one footer, with its own number and the number of pages of the
    document: page [k] of [N] reads [k / N]. *)
Theorem footers_number_the_pages {num} `{Number num}
    (g : Geometry) (articles : list (Article.t num)) :
  firstFits g articles = true ->
  footersFrom 1 (snd (generatePDF g articles))
  = footersOfPages (pagesEmitted (snd (generatePDF g articles)))
  /\ fst (generatePDF g articles) = pagesEmitted (snd (generatePDF g articles)).
Proof.
  intros Hfits.
  assert (Hne : articles <> []) by (destruct articles; [discriminate | discriminate]).
  pose proof (page_count_agrees_nonempty g articles Hne) as Hagree.
  split; [| exact Hagree].
  rewrite <- Hagree.
  pose proof (pageBreaksOf_numbered g articles Hfits) as Hnum.
  revert Hagree. unfold generatePDF.
  pose proof (pageBreaksOf_snoc g articles Hne) as Hpb. cbv zeta in Hpb.
  set (pages := pageBreaksOf g articles) in *.
  set (tp := totalPages g pages).
  pose proof (footersFrom_drawPages g tp pages 0 (tableTop g) 1) as Hfoot.
  pose proof (drawPages_addPages g tp pages 0 (tableTop g)) as Hcount.
  change (0 <? 0)%nat with false in Hfoot, Hcount. cbv iota in Hfoot, Hcount.
  pose proof (footersOfItemPages_numbered tp pages 1 Hnum) as Hitems.
  change (Z.of_nat 1) with 1 in Hitems. rewrite Hitems in Hfoot. clear Hitems.
  destruct (drawPages g tp pages 0 (tableTop g)) as [ops y].
  cbn [fst snd] in *.
  assert (Hlen : (1 <= List.length pages)%nat)
    by (rewrite Hpb, length_app; simpl; lia).
  intros Hagree. unfold pagesEmitted in Hagree.
  rewrite !addPages_app, Hcount in Hagree.
  rewrite !footersFrom_app, Hfoot, Hcount.
  unfold footersOfPages.
  destruct (lastPage pages) as [p |]; [destruct (PageBreak.hasSpaceForTotal p) |];
    try destruct (_ >? _);
    unfold addPages in *; cbn [filter isAddPage List.length app footersFrom] in *;
    rewrite ?app_nil_r;
    match goal with
    | Hg : tp = _ |- _ => rewrite Hg
    end.
  all: try (replace (Z.to_nat _) with (List.length pages) by lia;
            reflexivity).
  all: replace (Z.to_nat _) with (List.length pages + 1)%nat by lia;
       rewrite seq_app, map_app; f_equal; cbn [seq map];
       repeat match goal with
              | |- (_, _) = (_, _) => f_equal
              | |- _ :: _ = _ :: _ => f_equal
              | |- @eq Z _ _ => lia
              end.
Qed.

Section BudgetFacts.
Context {num : Type}.
Implicit Types (g : Geometry) (st : Pack.t num) (a : Article.t num)
               (ops : list (DrawOp num)).

Lemma addHeights_sum (articles : list (Article.t num)) : forall start,
  addHeights start articles = start + sumHeights articles.
Proof.
  unfold sumHeights, addHeights.
  induction articles as [| a r IH]; intros start; cbn [fold_left]; [lia |].
  rewrite (IH (start + articleHeight a)), (IH (0 + articleHeight a)). lia.
Qed.

Lemma sumHeights_snoc (articles : list (Article.t num)) a :
  sumHeights (articles ++ [a]) = sumHeights articles + articleHeight a.
Proof.
  unfold sumHeights, addHeights. rewrite fold_left_app. reflexivity.
Qed.

Lemma pagesWithin_snoc g (pages : list (PageBreak.t num)) p : forall k,
  pagesWithin g k pages ->
  pagesWithin g (k + List.length pages) [p] ->
  pagesWithin g k (pages ++ [p]).
Proof.
  induction pages as [| q r IH]; intros k Hpages Hp.
  - simpl in *. now rewrite Nat.add_0_r in Hp.
  - destruct Hpages as [Hq Hr]. split; [exact Hq |].
    apply IH; [exact Hr |]. cbn [List.length] in Hp.
    now rewrite Nat.add_succ_r in Hp.
Qed.

Lemma packStep_budget g st a index :
  budget g st -> budget g (packStep g st a index).
Proof.
  intros (Hcur & Hpages & Hcursor). unfold budget, packStep, spaceNeeded.
  destruct (Pack.currentPageArticles st) as [| c cs] eqn:Ecur; [congruence |].
  cbn [List.length Nat.eqb Nat.ltb Nat.leb]. cbv zeta.
  destruct (Z.gtb_spec (Pack.currentPageY st + (articleHeight a + 0))
                       (maxYPerPage g - bottomPadding g)) as [Hover | Hfit];
    cbn [Pack.pageBreaks Pack.currentPageArticles Pack.currentPageY].
  - split; [discriminate |]. split.
    + apply pagesWithin_snoc; [exact Hpages |].
      cbn [pagesWithin PageBreak.articles]. split; [| exact I].
      destruct (Pack.pageBreaks st) as [| q r].
      * cbn [List.length Nat.add Nat.ltb Nat.leb]. lia.
      * replace (0 <? 0 + List.length (q :: r))%nat with true by reflexivity.
        destruct Hcursor as [Heq Hle]. intros Hlen. rewrite <- Heq. now apply Hle.
    + destruct (Pack.pageBreaks st ++ _) eqn:Eapp;
        [now destruct (Pack.pageBreaks st) |].
      split; [unfold sumHeights, addHeights; simpl; lia |].
      cbn [List.length]. lia.
  - split; [discriminate |]. split; [exact Hpages |].
    change (c :: cs ++ [a]) with ((c :: cs) ++ [a]).
    rewrite sumHeights_snoc.
    destruct (Pack.pageBreaks st) as [| q r]; destruct Hcursor as [Heq Hle].
    + split; lia.
    + split; [lia |]. intros _. lia.
Qed.

Lemma packFrom_budget g (articles : list (Article.t num)) : forall st index,
  budget g st -> budget g (packFrom g st articles index).
Proof.
  induction articles as [| a rest IH]; intros st index Hb; simpl; [exact Hb |].
  apply IH, packStep_budget, Hb.
Qed.

Lemma pageBreaksOf_within g (articles : list (Article.t num)) :
  firstFits g articles = true ->
  pagesWithin g 0 (pageBreaksOf g articles).
Proof.
  destruct articles as [| a rest]; [discriminate |].
  intros Hfits. apply Z.leb_le in Hfits.
  assert (Hfirst : budget g (packStep g (packInit g) a 0)).
  { rewrite packStep_fits by exact Hfits. unfold budget, spaceNeeded.
    cbn [Pack.pageBreaks Pack.currentPageArticles Pack.currentPageY packInit
         List.length Nat.eqb app].
    split; [discriminate |]. split; [exact I |].
    unfold sumHeights, addHeights. simpl. lia. }
  pose proof (packFrom_budget g rest _ 1%nat Hfirst) as (Hcur & Hpages & Hcursor).
  rewrite (pageBreaksOf_snoc g (a :: rest)) by discriminate.
  cbn [packFrom]. apply pagesWithin_snoc; [exact Hpages |].
  cbn [pagesWithin PageBreak.articles]. split; [| exact I].
  destruct (Pack.pageBreaks _) as [| q r].
  - cbn [List.length Nat.add Nat.ltb Nat.leb]. lia.
  - replace (0 <? 0 + List.length (q :: r))%nat with true by reflexivity.
    destruct Hcursor as [Heq Hle]. intros Hlen. rewrite <- Heq. now apply Hle.
Qed.

Lemma bordersOf_app ops1 ops2 :
  bordersOf (ops1 ++ ops2) = bordersOf ops1 ++ bordersOf ops2.
Proof. unfold bordersOf. apply flat_map_app. Qed.

Lemma bordersOf_drawArticles (articles : list (Article.t num)) :
  forall s i y, bordersOf (fst (drawArticles articles s i y)) = [].
Proof.
  induction articles as [| a rest IH]; intros s i y; simpl; [reflexivity |].
  specialize (IH s (S i) (y + articleHeight a)).
  destruct (drawArticles rest s (S i) (y + articleHeight a)); simpl in *.
  exact IH.
Qed.

Lemma bordersOf_drawPages g tp (pages : list (PageBreak.t num)) :
  forall i y,
    (i = 0%nat -> y = tableTop g) ->
    bordersOf (fst (drawPages g tp pages i y)) = framesFrom g i pages.
Proof.
  induction pages as [| p rest IH]; intros i y Hy; [reflexivity |].
  rewrite drawPages_cons. cbv zeta. cbn [fst].
  rewrite !bordersOf_app, bordersOf_drawArticles, drawArticles_snd,
    addHeights_sum, IH by discriminate.
  cbn [framesFrom].
  destruct i as [| i].
  - rewrite (Hy eq_refl). cbn. f_equal. f_equal. lia.
  - cbn. f_equal. f_equal. lia.
Qed.

Lemma pagesWithin_nth g (pages : list (PageBreak.t num)) : forall k j p,
  pagesWithin g k pages ->
  nth_error pages j = Some p ->
  if (0 <? k + j)%nat
  then (2 <= List.length (PageBreak.articles p))%nat ->
       nextPageTop g + sumHeights (PageBreak.articles p)
       <= maxYPerPage g - bottomPadding g
  else tableTop g + headerHeight g + sumHeights (PageBreak.articles p)
       <= maxYPerPage g - bottomPadding g.
Proof.
  induction pages as [| q r IH]; intros k j p Hw Hnth;
    [destruct j; discriminate |].
  destruct Hw as [Hq Hr]. destruct j as [| j].
  - injection Hnth as <-. now rewrite Nat.add_0_r.
  - replace (k + S j)%nat with (S k + j)%nat by lia. now apply (IH (S k)).
Qed.

Lemma framesFrom_nth g (pages : list (PageBreak.t num)) : forall k j p,
  nth_error pages j = Some p ->
  nth_error (framesFrom g k pages) j
  = Some ((if (0 <? k + j)%nat then nextPageTop g else tableTop g),
          headerHeight g + sumHeights (PageBreak.articles p)).
Proof.
  induction pages as [| q r IH]; intros k j p Hnth;
    [destruct j; discriminate |].
  destruct j as [| j].
  - injection Hnth as <-. now rewrite Nat.add_0_r.
  - replace (k + S j)%nat with (S k + j)%nat by lia. now apply (IH (S k)).
Qed.
End BudgetFacts.

(** X4. When the first article fits, with the table header, on the first
    page, the frame drawn for the first item page ends on or above the
    page limit; the frame of a later item page that holds two articles or
    more ends at most one header height below the limit, because the loop
    does not count the header of a page it opens. *)
Theorem frames_stay_within_budget {num} `{Number num}
    (g : Geometry) (articles : list (Article.t num))
    (k : nat) (p : PageBreak.t num) :
  firstFits g articles = true ->
  nth_error (pageBreaksOf g articles) k = Some p ->
  exists top height,
    nth_error (bordersOf (snd (generatePDF g articles))) k = Some (top, height)
    /\ height = headerHeight g + sumHeights (PageBreak.articles p)
    /\ (k = 0%nat ->
        top = tableTop g
        /\ top + height <= maxYPerPage g - bottomPadding g)
    /\ ((0 < k)%nat ->
        top = nextPageTop g
        /\ ((2 <= List.length (PageBreak.articles p))%nat ->
            top + height <= maxYPerPage g - bottomPadding g + headerHeight g)).
Proof.
  intros Hfits Hnth.
  pose proof (pagesWithin_nth g _ 0 k p (pageBreaksOf_within g articles Hfits) Hnth)
    as Hwithin.
  pose proof (framesFrom_nth g _ 0 k p Hnth) as Hframe.
  cbn [Nat.add] in Hwithin, Hframe.
  eexists. eexists. split.
  - unfold generatePDF.
    pose proof (bordersOf_drawPages g (totalPages g (pageBreaksOf g articles))
                  (pageBreaksOf g articles) 0 (tableTop g) (fun _ => eq_refl))
      as Hb.
    destruct (drawPages g _ (pageBreaksOf g articles) 0 (tableTop g))
      as [ops y]. cbn [fst snd] in *.
    rewrite !bordersOf_app, Hb.
    rewrite nth_error_app1
      by (apply nth_error_Some; rewrite Hframe; discriminate).
    exact Hframe.
  - split; [reflexivity |]. split.
    + intros ->. cbn in *. split; [reflexivity | lia].
    + intros Hk. destruct k; [lia |]. cbn in *. split; [reflexivity |].
      intros Hlen. specialize (Hwithin Hlen). lia.
Qed.

(** Fourteen articles of height 20 on the page of the application: three
    pages, each under its own footer. *)
Lemma footers_number_the_pages_witness :
  footersFrom 1 (snd (generatePDF a4 (repeat (Sample.article "1" 1 2 50) 14)))
  = [(1, 1, 3); (2, 2, 3); (3, 3, 3)].
Proof.
  destruct (footers_number_the_pages a4 (repeat (Sample.article "1" 1 2 50) 14)
              eq_refl) as [Hfooters _].
  rewrite Hfooters. reflexivity.
Defined.

(** The second page of the same invoice holds ten articles: its frame
    runs from 50 to 260, ten below the limit of 250. *)
Lemma frames_stay_within_budget_witness :
  nth_error (bordersOf (snd (generatePDF a4
                               (repeat (Sample.article "1" 1 2 50) 14)))) 1
  = Some (50, 210).
Proof.
  destruct (nth_error (pageBreaksOf a4 (repeat (Sample.article "1" 1 2 50) 14))
                      1) as [p |] eqn:Epage;
    [| vm_compute in Epage; discriminate].
  assert (Hfits : firstFits a4 (repeat (Sample.article "1" 1 2 50) 14) = true)
    by (vm_compute; reflexivity).
  destruct (frames_stay_within_budget
              a4 (repeat (Sample.article "1" 1 2 50) 14) 1 p Hfits Epage)
    as (top & height & Hnth & Hheight & _ & Hlater).
  destruct (Hlater ltac:(lia)) as [Htop _].
  rewrite Hnth, Hheight, Htop.
  vm_compute in Epage. injection Epage as <-.
  vm_compute. reflexivity.
Defined.


(** ** Further properties of the invoice numbers *)

Lemma ints_of_list (l : list JS.number) :
  (forall x, In x l -> exists z, x = JS.Int z) ->
  exists zs, l = map JS.Int zs.
Proof.
  induction l as [| x r IH]; intros Hints; [now exists [] |].
  destruct (Hints x (or_introl eq_refl)) as [z ->].
  destruct (IH (fun y Hy => Hints y (or_intror Hy))) as [zs ->].
  now exists (z :: zs).
Qed.

Section UpsertFacts.
Context {num : Type}.
Implicit Types (history : list (SavedInvoice.t num))
  (inv other : SavedInvoice.t num).

Lemma In_setAt_inv {A} (x y : A) (l : list A) : forall i,
  In x (setAt i y l) -> x = y \/ In x l.
Proof.
  induction l as [| z r IH]; intros [| i]; cbn [setAt In]; auto.
  - intros [<- | H]; auto.
  - intros [<- | H]; auto. destruct (IH _ H); auto.
Qed.

Lemma In_upsert_inv inv history other :
  In other (upsert inv history) -> other = inv \/ In other history.
Proof.
  unfold upsert. destruct (findIndex _ _).
  - apply In_setAt_inv.
  - rewrite in_app_iff. cbn [In]. intuition.
Qed.

Lemma In_upsert_new inv history : In inv (upsert inv history).
Proof.
  unfold upsert.
  induction history as [| x r IH]; cbn [findIndex app In]; [now left |].
  destruct (String.eqb _ _); [now left |].
  destruct (findIndex _ r); cbn [setAt app In]; right; exact IH.
Qed.

End UpsertFacts.

Section IssuedNumbers.
Context {host : Calendar.Host} {num : Type}.
Implicit Types (history : list (SavedInvoice.t num)) (date : Calendar.Date)
  (inv : SavedInvoice.t num).

Lemma monthPrefix_ourEra date :
  inOurEra date = true ->
  exists c,
    Calendar.civil date = Some c
    /\ 0 <= Calendar.cyear c
    /\ 1 <= Calendar.cmonth c <= 12
    /\ monthPrefix date
       = (JS.String_of (Calendar.cyear c) ++ "-"
            ++ JS.padStart0 (JS.String_of (Calendar.cmonth c)) 2)%string.
Proof.
  unfold inOurEra. intros Hera.
  destruct (Calendar.timeValue date) as [tv |] eqn:Htv; [| discriminate].
  destruct (Calendar.civil date) as [c |] eqn:Hc; [| discriminate].
  apply andb_prop in Hera as [Hrange Hyear].
  apply Z.leb_le in Hrange, Hyear.
  destruct (monthPrefix_valid date tv Htv Hrange)
    as (c' & Hc' & Hm & Hy & Hmonth).
  rewrite Hc in Hc'. injection Hc' as <-.
  exists c. split; [reflexivity |]. split; [exact Hyear |].
  split; [exact Hm |]. unfold monthPrefix. now rewrite Hy, Hmonth.
Qed.

(** The number generated for a month of a year of our era has three
    segments; the third one reads back as the sequence number. *)
Lemma generated_number_sequence date (n : Z) inv :
  inOurEra date = true ->
  0 <= n < firstRounded ->
  SavedInvoice.invoiceNumber inv
  = (monthPrefix date ++ "-" ++ JS.padStart0 (JS.String_of n) 4)%string ->
  sequenceOf inv = JS.Int n.
Proof.
  intros Hera Hn Hnumber.
  destruct (monthPrefix_ourEra date Hera) as (c & _ & Hy & Hm & Hprefix).
  rewrite sequenceOf_third_segment, Hnumber, Hprefix.
  unfold JS.split. rewrite !string_app_assoc.
  repeat change ("-" ++ ?x)%string with (String "-" x).
  rewrite split_aux_segment
    by (apply digits_exclude; [reflexivity | now apply String_of_digits]).
  rewrite split_aux_segment
    by (apply digits_exclude; [reflexivity | apply padStart0_digits; lia]).
  rewrite split_aux_last
    by (apply digits_exclude; [reflexivity | apply padStart0_digits; lia]).
  cbn [nth_error JS.parseInt_opt String.append].
  rewrite parseInt_padStart0 by lia.
  reflexivity.
Qed.

Lemma generated_number_in_month date (n : Z) inv :
  SavedInvoice.invoiceNumber inv
  = (monthPrefix date ++ "-" ++ JS.padStart0 (JS.String_of n) 4)%string ->
  JS.startsWith (SavedInvoice.invoiceNumber inv) (monthPrefix date) = true.
Proof. intros ->. apply prefix_app. Qed.

Lemma sequenceOf_same_number (inv other : SavedInvoice.t num) :
  SavedInvoice.invoiceNumber other = SavedInvoice.invoiceNumber inv ->
  sequenceOf other = sequenceOf inv.
Proof. unfold sequenceOf. now intros ->. Qed.

Lemma In_sequencesOf history date other :
  In other history ->
  JS.startsWith (SavedInvoice.invoiceNumber other) (monthPrefix date)
  && Status_eqb (SavedInvoice.status other) finalized = true ->
  In (sequenceOf other) (sequencesOf history date).
Proof.
  intros Hin Hp. unfold sequencesOf, monthInvoices.
  apply in_map, filter_In. split; assumption.
Qed.

(** The number generated on a history of sequences below 2^53. *)
Lemma generated_number_safe history date (sequences : list Z) (m : Z) :
  sequencesOf history date = map JS.Int sequences ->
  (forall z, In z sequences -> z < firstRounded) ->
  isMaxOf m (11 :: sequences) ->
  nextNumber history date = JS.Int (m + 1)
  /\ JS.toString (nextNumber history date) = JS.String_of (m + 1)
  /\ 11 <= m < firstRounded.
Proof.
  intros Hseq Hsafe Hmax.
  destruct (nextNumber_safe history date sequences Hseq Hsafe)
    as (m' & Hmax' & Hnext).
  rewrite (isMaxOf_unique _ _ _ Hmax Hmax'). split; [exact Hnext |].
  assert (Hm : 11 <= m' < firstRounded).
  { destruct Hmax' as [Hin Hle]. split; [apply Hle; now left |].
    destruct Hin as [<- | Hin]; [reflexivity | now apply Hsafe]. }
  split; [| exact Hm].
  rewrite Hnext. apply toString_small. unfold firstRounded in Hm. lia.
Qed.

(** No finalized invoice of the history carries the generated number. *)
Lemma issued_number_fresh history date (sequences : list Z) (m : Z)
    inv other :
  inOurEra date = true ->
  sequencesOf history date = map JS.Int sequences ->
  (forall z, In z sequences -> z < firstRounded - 1) ->
  isMaxOf m (11 :: sequences) ->
  SavedInvoice.invoiceNumber inv
  = (monthPrefix date ++ "-"
       ++ JS.padStart0 (JS.String_of (m + 1)) 4)%string ->
  In other history ->
  SavedInvoice.status other = finalized ->
  SavedInvoice.invoiceNumber other <> SavedInvoice.invoiceNumber inv.
Proof.
  intros Hera Hseq Hsafe Hmax Hnumber Hin Hfin E.
  assert (Hm : 11 <= m < firstRounded - 1).
  { destruct Hmax as [Hm Hle]. split; [apply Hle; now left |].
    destruct Hm as [<- | Hm]; [reflexivity | now apply Hsafe]. }
  pose proof (generated_number_sequence date (m + 1) inv Hera
                ltac:(lia) Hnumber) as Hinv.
  pose proof (generated_number_in_month date (m + 1) inv Hnumber) as Hmonth.
  assert (Hother : In (sequenceOf other) (sequencesOf history date)).
  { apply In_sequencesOf; [exact Hin |]. now rewrite E, Hmonth, Hfin. }
  rewrite (sequenceOf_same_number inv other E), Hinv, Hseq in Hother.
  apply in_map_iff in Hother as (z & [= ->] & Hz).
  destruct Hmax as [_ Hle]. specialize (Hle (m + 1) (or_intror Hz)). lia.
Qed.

(** Once the invoice finalized under the generated number is among the
    records, the next number is the successor. *)
Lemma issued_number_counted history history' date (sequences : list Z)
    (m : Z) inv :
  inOurEra date = true ->
  sequencesOf history date = map JS.Int sequences ->
  (forall z, In z sequences -> z < firstRounded - 1) ->
  isMaxOf m (11 :: sequences) ->
  SavedInvoice.invoiceNumber inv
  = (monthPrefix date ++ "-"
       ++ JS.padStart0 (JS.String_of (m + 1)) 4)%string ->
  SavedInvoice.status inv = finalized ->
  In inv history' ->
  (forall other, In other history' -> other = inv \/ In other history) ->
  nextNumber history' date = JS.Int (m + 2)
  /\ JS.toString (nextNumber history' date) = JS.String_of (m + 2).
Proof.
  intros Hera Hseq Hsafe Hmax Hnumber Hstatus Hnew Hold.
  assert (Hm : 11 <= m < firstRounded - 1).
  { destruct Hmax as [Hm Hle]. split; [apply Hle; now left |].
    destruct Hm as [<- | Hm]; [reflexivity | now apply Hsafe]. }
  pose proof (generated_number_sequence date (m + 1) inv Hera
                ltac:(lia) Hnumber) as Hinv.
  pose proof (generated_number_in_month date (m + 1) inv Hnumber) as Hmonth.
  assert (Hmembers : forall x, In x (sequencesOf history' date) ->
                               x = JS.Int (m + 1)
                               \/ exists z, x = JS.Int z /\ In z sequences).
  { intros x Hx. unfold sequencesOf, monthInvoices in Hx.
    apply in_map_iff in Hx as (other & <- & Hother).
    apply filter_In in Hother as [Hin Hp].
    apply Hold in Hin as [-> | Hin]; [now left | right].
    pose proof (In_sequencesOf history date other Hin Hp) as Hs.
    rewrite Hseq in Hs. apply in_map_iff in Hs as (z & <- & Hz).
    now exists z. }
  destruct (ints_of_list (sequencesOf history' date)) as [zs' Hseq'].
  { intros x Hx. destruct (Hmembers x Hx) as [-> | (z & -> & _)];
      eexists; reflexivity. }
  assert (Hzs' : forall z, In z zs' -> z = m + 1 \/ In z sequences).
  { intros z Hz.
    destruct (Hmembers (JS.Int z)) as [[= ->] | (z' & [= <-] & Hz')];
      [rewrite Hseq'; now apply in_map | now left | now right]. }
  assert (Hmax' : isMaxOf (m + 1) (11 :: zs')).
  { split.
    - right.
      assert (Hs : In (JS.Int (m + 1)) (sequencesOf history' date)).
      { rewrite <- Hinv. apply In_sequencesOf; [exact Hnew |].
        now rewrite Hmonth, Hstatus. }
      rewrite Hseq' in Hs. apply in_map_iff in Hs as (z & [= ->] & Hz).
      exact Hz.
    - destruct Hmax as [_ Hle].
      intros z [<- | Hz]; [lia |].
      destruct (Hzs' z Hz) as [-> | Hz']; [lia |].
      specialize (Hle z (or_intror Hz')). lia. }
  destruct (generated_number_safe history' date zs' (m + 1) Hseq')
    as (Hnext & Htext & _); [| exact Hmax' |].
  { intros z Hz. destruct (Hzs' z Hz) as [-> | Hz']; [lia |].
    specialize (Hsafe z Hz'). lia. }
  replace (m + 2) with (m + 1 + 1) by lia. split; assumption.
Qed.

End IssuedNumbers.

(** X5. For a month of a year that is not negative and a history whose
    finalized invoices of the month carry sequences below 2^53 - 1, an
    invoice finalized under the generated number carries the next
    sequence number; no finalized invoice of the history has its number;
    and once it is written to the history (in place of the record of its
    id, or as a new record), the sequence number generated next for the
    month is its successor. *)
Theorem issued_number_is_fresh_then_counted {host : Calendar.Host} {num}
    (history : list (SavedInvoice.t num)) (now : Calendar.Date)
    (targetDate : option Calendar.Date) (inv : SavedInvoice.t num)
    (sequences : list Z) :
  let date := match targetDate with Some d => d | None => now end in
  inOurEra date = true ->
  sequencesOf history date = map JS.Int sequences ->
  (forall z, In z sequences -> z < firstRounded - 1) ->
  SavedInvoice.invoiceNumber inv
  = SmartNumber.number (generateSmartInvoiceNumber history now targetDate) ->
  SavedInvoice.status inv = finalized ->
  exists m,
    isMaxOf m (11 :: sequences)
    /\ nextNumber history date = JS.Int (m + 1)
    /\ sequenceOf inv = JS.Int (m + 1)
    /\ (forall other, In other history ->
                      SavedInvoice.status other = finalized ->
                      SavedInvoice.invoiceNumber other
                      <> SavedInvoice.invoiceNumber inv)
    /\ nextNumber (upsert inv history) date = JS.Int (m + 2).
Proof.
  intros date Hera Hseq Hsafe Hnumber Hstatus.
  assert (Hsafe' : forall z, In z sequences -> z < firstRounded)
    by (intros z Hz; specialize (Hsafe z Hz); lia).
  destruct (nextNumber_safe history date sequences Hseq Hsafe')
    as (m & Hmax & Hnext).
  destruct (generated_number_safe history date sequences m Hseq Hsafe' Hmax)
    as (_ & Htext & Hm).
  cbn [generateSmartInvoiceNumber SmartNumber.number] in Hnumber.
  fold date in Hnumber. rewrite Htext in Hnumber.
  assert (Hm' : m < firstRounded - 1).
  { destruct Hmax as [[<- | Hin] _]; [reflexivity | now apply Hsafe]. }
  exists m. split; [exact Hmax |]. split; [exact Hnext |]. split.
  { apply (generated_number_sequence date (m + 1) inv Hera); [lia |].
    exact Hnumber. }
  split.
  - intros other Hin Hfin.
    now apply (issued_number_fresh history date sequences m inv other).
  - apply (issued_number_counted history _ date sequences m inv);
      try assumption.
    + apply In_upsert_new.
    + intros other. apply In_upsert_inv.
Qed.

(** The draft [d] of the sample history, finalized under the number
    generated for March 2024: the number generated next is 17. *)
Lemma issued_number_is_fresh_then_counted_witness :
  sequenceOf (Sample.saved "d" "2024-03-0016" finalized) = JS.Int 16
  /\ nextNumber (host := Sample.paris)
       (upsert (Sample.saved "d" "2024-03-0016" finalized) Sample.history)
       Sample.march
     = JS.Int 17.
Proof.
  destruct (issued_number_is_fresh_then_counted (host := Sample.paris)
              Sample.history Sample.june (Some Sample.march)
              (Sample.saved "d" "2024-03-0016" finalized) [15; 12; 13])
    as (m & Hmax & _ & Hseq & _ & Hnext).
  - vm_compute. reflexivity.
  - vm_compute. reflexivity.
  - intros z [<- | [<- | [<- | []]]]; reflexivity.
  - vm_compute. reflexivity.
  - reflexivity.
  - assert (Hm : m = 15).
    { apply (isMaxOf_unique _ _ _ Hmax). split; [simpl; auto |].
      intros x [<- | [<- | [<- | [<- | []]]]]; lia. }
    subst m. split; [exact Hseq | exact Hnext].
Defined.

(** ** The order of the history *)

Section MaxFacts.

Lemma max2_comm (x y : JS.number) : JS.max2 x y = JS.max2 y x.
Proof.
  destruct x as [| [|] | a], y as [| [|] | b]; try reflexivity.
  cbn [JS.max2]. f_equal. lia.
Qed.

Lemma max2_assoc (x y z : JS.number) :
  JS.max2 x (JS.max2 y z) = JS.max2 (JS.max2 x y) z.
Proof.
  destruct x as [| [|] | a], y as [| [|] | b], z as [| [|] | c];
    try reflexivity.
  cbn [JS.max2]. f_equal. lia.
Qed.

Lemma max2_idem (x : JS.number) : JS.max2 x x = x.
Proof. destruct x as [| [|] | a]; try reflexivity. cbn. f_equal. lia. Qed.

(** The greatest element, from the right. *)
Lemma Math_max_fold_right (l : list JS.number) : forall a,
  fold_left JS.max2 l a
  = JS.max2 a (fold_right JS.max2 (JS.Infinity true) l).
Proof.
  induction l as [| x r IH]; intros a; cbn [fold_left fold_right].
  - now destruct a as [| [|] |].
  - now rewrite IH, max2_assoc.
Qed.

Lemma max2_absorbs (l : list JS.number) (x : JS.number) :
  In x l ->
  JS.max2 x (fold_right JS.max2 (JS.Infinity true) l)
  = fold_right JS.max2 (JS.Infinity true) l.
Proof.
  induction l as [| y r IH]; [intros [] |].
  cbn [fold_right]. intros [-> | Hin].
  - now rewrite max2_assoc, max2_idem.
  - rewrite max2_assoc, (max2_comm x y), <- max2_assoc. now rewrite IH.
Qed.

Lemma max2_incl (l l' : list JS.number) :
  (forall x, In x l -> In x l') ->
  JS.max2 (fold_right JS.max2 (JS.Infinity true) l)
          (fold_right JS.max2 (JS.Infinity true) l')
  = fold_right JS.max2 (JS.Infinity true) l'.
Proof.
  induction l as [| y r IH]; intros Hincl; cbn [fold_right].
  - now destruct (fold_right _ _ l') as [| [|] |].
  - rewrite <- max2_assoc, IH by (intros x Hx; apply Hincl; now right).
    apply max2_absorbs, Hincl. now left.
Qed.

(** [Math.max] depends on the numbers it is given, not on their order. *)
Lemma Math_max_ext (l l' : list JS.number) :
  (forall x, In x l <-> In x l') -> JS.Math_max l = JS.Math_max l'.
Proof.
  intros Hext. unfold JS.Math_max. rewrite !Math_max_fold_right.
  f_equal.
  rewrite <- (max2_incl l l') by (intros x; apply Hext).
  rewrite max2_comm.
  now rewrite (max2_incl l' l) by (intros x; apply Hext).
Qed.

End MaxFacts.

Section CreationFacts.
Context {host : Calendar.Host} {num : Type}.
Implicit Types (history : list (SavedInvoice.t num)) (date : Calendar.Date)
  (inv : SavedInvoice.t num) (st : App.t num).

(** The next number depends on the records of the history, not on their
    order. *)
Lemma nextNumber_ext history history' date :
  (forall inv, In inv history <-> In inv history') ->
  nextNumber history date = nextNumber history' date.
Proof.
  intros Hext.
  assert (Hseq : forall x,
             In x (existingNumbers history date)
             <-> In x (existingNumbers history' date)).
  { intros x. unfold existingNumbers, monthInvoices.
    rewrite !sort_asc_In, !in_map_iff.
    split; intros (inv & E & Hin); exists inv; (split; [exact E |]);
      apply filter_In in Hin as [Hin Hp]; apply filter_In;
      (split; [now apply Hext | exact Hp]). }
  unfold nextNumber. cbv zeta.
  destruct (existingNumbers history date) as [| e es] eqn:E,
           (existingNumbers history' date) as [| e' es'] eqn:E'.
  - reflexivity.
  - destruct (proj2 (Hseq e') (or_introl eq_refl)).
  - destruct (proj1 (Hseq e) (or_introl eq_refl)).
  - cbn [List.length Nat.ltb Nat.leb]. f_equal.
    apply Math_max_ext. intros x. rewrite !in_app_iff, Hseq. reflexivity.
Qed.

Lemma find_isSome_ext {A} (p : A -> bool) (l l' : list A) :
  (forall x, In x l -> In x l') ->
  isSome (find p l) = true -> isSome (find p l') = true.
Proof.
  intros Hext Hsome.
  destruct (find p l) as [x |] eqn:El; [| discriminate].
  apply find_some in El as [Hin Hp].
  destruct (find p l') as [y |] eqn:El'; [reflexivity |].
  pose proof (find_none _ _ El' x (Hext x Hin)). congruence.
Qed.

Lemma hasConflict_isSome history now target :
  SmartNumber.hasConflict (generateSmartInvoiceNumber history now target)
  = isSome (draftForMonth history
              (match target with Some d => d | None => now end)).
Proof.
  cbn [generateSmartInvoiceNumber SmartNumber.hasConflict].
  now destruct (draftForMonth _ _).
Qed.

Lemma allFinalized_no_draft history date :
  allFinalized history -> draftForMonth history date = None.
Proof.
  intros Hall. unfold draftForMonth.
  destruct (find _ history) as [inv |] eqn:Efind; [| reflexivity].
  apply find_some in Efind as [Hin Hp].
  rewrite (Hall inv Hin), Bool.andb_false_r in Hp. discriminate.
Qed.

Lemma createNewInvoice_finalized env dateNow history st :
  allFinalized history ->
  createNewInvoice env dateNow history st
  = Created (initializeNewInvoice env dateNow
               (monthPrefix (today env) ++ "-"
                  ++ JS.padStart0
                       (JS.toString (nextNumber history (today env))) 4)%string
               st).
Proof.
  intros Hall. unfold createNewInvoice. cbv zeta.
  rewrite hasConflict_isSome, (allFinalized_no_draft _ _ Hall). reflexivity.
Qed.

End CreationFacts.

(** X6. The number that [generateSmartInvoiceNumber] returns and the
    presence of a conflict depend on the records of the history, not on
    their order: the history read from the remote table (most recent
    first) and the one kept locally (in order of insertion) give the same
    number. *)
Theorem number_ignores_history_order {host : Calendar.Host} {num}
    (history history' : list (SavedInvoice.t num))
    (now : Calendar.Date) (targetDate : option Calendar.Date) :
  (forall inv, In inv history <-> In inv history') ->
  SmartNumber.number (generateSmartInvoiceNumber history now targetDate)
  = SmartNumber.number (generateSmartInvoiceNumber history' now targetDate)
  /\ SmartNumber.hasConflict
       (generateSmartInvoiceNumber history now targetDate)
     = SmartNumber.hasConflict
         (generateSmartInvoiceNumber history' now targetDate).
Proof.
  intros Hext. split.
  - cbn [generateSmartInvoiceNumber SmartNumber.number].
    now rewrite (nextNumber_ext history history' _ Hext).
  - rewrite !hasConflict_isSome. unfold draftForMonth.
    apply Bool.eq_true_iff_eq. split; apply find_isSome_ext;
      intros x Hx; now apply Hext.
Qed.

Lemma number_ignores_history_order_witness :
  SmartNumber.number
    (generateSmartInvoiceNumber (host := Sample.paris)
       (rev Sample.history) Sample.june (Some Sample.march))
  = "2024-03-0016"%string.
Proof.
  destruct (number_ignores_history_order (host := Sample.paris)
              Sample.history (rev Sample.history) Sample.june
              (Some Sample.march)) as [Hnumber _].
  - intros inv. apply in_rev.
  - rewrite <- Hnumber. vm_compute. reflexivity.
Defined.

(** ** Creation, finalization and loading *)

Lemma String_of_nonempty (n : Z) : JS.String_of n <> EmptyString.
Proof.
  unfold JS.String_of.
  destruct (Z.to_int n) as [d | d]; cbn [NilZero.string_of_int];
    [| discriminate].
  unfold NilZero.string_of_uint. destruct d; discriminate.
Qed.

Section FinalizeFacts.
Context {host : Calendar.Host} {num : Type} `{Number num}.
Implicit Types (history : list (SavedInvoice.t num)) (st : App.t num)
  (date : Calendar.Date).

Lemma monthPrefix_same date date' :
  Calendar.getFullYear date' = Calendar.getFullYear date ->
  Calendar.getMonth date' = Calendar.getMonth date ->
  monthPrefix date' = monthPrefix date.
Proof. unfold monthPrefix, monthOf. now intros -> ->. Qed.

Lemma nextNumber_same_month history date date' :
  monthPrefix date' = monthPrefix date ->
  nextNumber history date' = nextNumber history date.
Proof.
  intros E. unfold nextNumber, existingNumbers, monthInvoices. now rewrite E.
Qed.

Lemma sequencesOf_ext history history' date :
  (forall inv, In inv history <-> In inv history') ->
  forall x, In x (sequencesOf history date)
            <-> In x (sequencesOf history' date).
Proof.
  intros Hext x. unfold sequencesOf, monthInvoices. rewrite !in_map_iff.
  split; intros (inv & E & Hin); exists inv; (split; [exact E |]);
    apply filter_In in Hin as [Hin Hp]; apply filter_In;
    (split; [now apply Hext | exact Hp]).
Qed.

(** The history after [finalizeInvoice] is the one before, or the one
    before with the finalized record written into it. *)
Lemma finalizeInvoice_stored cfg env st :
  App.stored (finalizeInvoice cfg env st) = App.stored st
  \/ exists id,
       App.currentInvoiceId st = Some id
       /\ App.stored (finalizeInvoice cfg env st)
          = upsert (invoiceDataOf env st id) (App.stored st).
Proof.
  unfold finalizeInvoice, saveInvoiceToHistory.
  destruct (App.currentInvoiceId st) as [id |] eqn:Eid; [| now left].
  destruct (String.eqb id EmptyString); [now left |].
  destruct (App.user st) as [u |] eqn:Eu; [| now left].
  cbn [isSome negb App.user App.stored App.setMessage App.setInvoiceStatus].
  rewrite Eu.
  destruct (negb _ && isSupabaseConfigured cfg); [now left |].
  destruct (negb (isSupabaseConfigured cfg));
    [right; exists id; split; reflexivity |].
  destruct (invoiceUpsertOk env); [| now left].
  right. exists id. split; reflexivity.
Qed.

Lemma finalizeInvoice_allFinalized cfg env st :
  allFinalized (App.stored st) ->
  allFinalized (App.stored (finalizeInvoice cfg env st)).
Proof.
  intros Hall.
  destruct (finalizeInvoice_stored cfg env st) as [-> | (id & _ & ->)];
    [exact Hall |].
  intros inv Hin. apply In_upsert_inv in Hin as [-> | Hin];
    [reflexivity | now apply Hall].
Qed.

Lemma finalizeProceeds_signed_in cfg env st u id :
  App.user st = Some u ->
  App.currentInvoiceId st = Some id ->
  id <> EmptyString ->
  (isSupabaseConfigured cfg = true ->
   profileUpsertOk env = true /\ invoiceUpsertOk env = true) ->
  finalizeProceeds cfg env st = true.
Proof.
  intros Hu Hid Hne Hremote.
  unfold finalizeProceeds, saveUserProfile, falsy. rewrite Hu, Hid.
  apply String.eqb_neq in Hne. rewrite Hne. cbn [negb isSome andb].
  destruct (isSupabaseConfigured cfg); [| reflexivity].
  destruct (Hremote eq_refl) as [-> ->]. reflexivity.
Qed.

End FinalizeFacts.

(** X7. When every record of the history is finalized, it is so again
    after [finalizeInvoice], whatever the outcome of the call; and on such
    a history, read in any order, [createNewInvoice] never opens the
    confirmation dialog: it initializes the invoice at once under the
    number generated for the month. *)
Theorem finalizing_never_leaves_a_draft {host : Calendar.Host} {num}
    `{Number num} (cfg : Config) (env : Env) (st : App.t num) :
  allFinalized (App.stored st) ->
  let st' := finalizeInvoice cfg env st in
  allFinalized (App.stored st')
  /\ forall (env' : Env) (dateNow : Z) (history : list (SavedInvoice.t num)),
       (forall inv, In inv history <-> In inv (App.stored st')) ->
       createNewInvoice env' dateNow history st'
       = Created (initializeNewInvoice env' dateNow
                    (SmartNumber.number
                       (generateSmartInvoiceNumber (App.stored st')
                                                   (today env') None))
                    st').
Proof.
  intros Hall st'.
  pose proof (finalizeInvoice_allFinalized cfg env st Hall) as Hall'.
  fold st' in Hall'. split; [exact Hall' |].
  intros env' dateNow history Hext.
  rewrite createNewInvoice_finalized
    by (intros inv Hin; apply Hall', Hext, Hin).
  cbn [generateSmartInvoiceNumber SmartNumber.number].
  now rewrite (nextNumber_ext history (App.stored st') _ Hext).
Qed.

(** The archive of the office, one invoice finalized in June 2024: the
    next invoice is created at once under the number 0013. *)
Lemma finalizing_never_leaves_a_draft_witness :
  exists st,
    createNewInvoice (host := Sample.paris) Office.env 1718442000001
      (rev (App.stored
              (finalizeInvoice Sample.demo Office.env
                 (initializeNewInvoice (host := Sample.paris)
                    Office.env 1718442000000 "2024-06-0012" Office.idle))))
      (finalizeInvoice Sample.demo Office.env
         (initializeNewInvoice (host := Sample.paris)
            Office.env 1718442000000 "2024-06-0012" Office.idle))
    = Created st
    /\ Invoice.invoiceNumber (App.invoice st) = "2024-06-0013"%string.
Proof.
  destruct (finalizing_never_leaves_a_draft (host := Sample.paris)
              Sample.demo Office.env
              (initializeNewInvoice (host := Sample.paris)
                 Office.env 1718442000000 "2024-06-0012" Office.idle))
    as [_ Hcreate].
  - intros inv [<- | [<- | [<- | []]]]; reflexivity.
  - eexists. split.
    + apply Hcreate. intros inv. symmetry. apply in_rev.
    + vm_compute. reflexivity.
Defined.

(** X8. Two invoices created in the same month of a year that is not
    negative, the first one finalized in between by a signed-in user
    whose writes succeed (or in demo mode), get consecutive numbers: on a
    history of finalized invoices whose sequences for the month are below
    2^53 - 1, both are created without a dialog, the first under the
    sequence [m + 1] that follows the greatest one of the month (or 11)
    and the second under [m + 2]. The histories may be read in any
    order. *)
Theorem consecutive_invoices_get_consecutive_numbers
    {host : Calendar.Host} {num} `{Number num}
    (cfg : Config) (env1 env2 env3 : Env) (dateNow1 dateNow3 : Z)
    (history history' : list (SavedInvoice.t num)) (st : App.t num)
    (u : AppUser.t) (sequences : list Z) :
  App.user st = Some u ->
  allFinalized (App.stored st) ->
  (forall inv, In inv history <-> In inv (App.stored st)) ->
  inOurEra (today env1) = true ->
  sequencesOf history (today env1) = map JS.Int sequences ->
  (forall z, In z sequences -> z < firstRounded - 1) ->
  Calendar.getFullYear (today env3) = Calendar.getFullYear (today env1) ->
  Calendar.getMonth (today env3) = Calendar.getMonth (today env1) ->
  (isSupabaseConfigured cfg = true ->
   profileUpsertOk env2 = true /\ invoiceUpsertOk env2 = true) ->
  exists m st1 st3,
    let st2 := finalizeInvoice cfg env2 st1 in
    isMaxOf m (11 :: sequences)
    /\ createNewInvoice env1 dateNow1 history st = Created st1
    /\ Invoice.invoiceNumber (App.invoice st1)
       = (monthPrefix (today env1) ++ "-"
            ++ JS.padStart0 (JS.String_of (m + 1)) 4)%string
    /\ ((forall inv, In inv history' <-> In inv (App.stored st2)) ->
        createNewInvoice env3 dateNow3 history' st2 = Created st3
        /\ Invoice.invoiceNumber (App.invoice st3)
           = (monthPrefix (today env1) ++ "-"
                ++ JS.padStart0 (JS.String_of (m + 2)) 4)%string).
Proof.
  intros Huser Hall Hext Hera Hseq Hsafe Hsame_year Hsame_month Hwrites.
  assert (Hsafe' : forall z, In z sequences -> z < firstRounded)
    by (intros z Hz; specialize (Hsafe z Hz); lia).
  destruct (nextNumber_safe history (today env1) sequences Hseq Hsafe')
    as (m & Hmax & Hnext).
  destruct (generated_number_safe history (today env1) sequences m
              Hseq Hsafe' Hmax) as (_ & Htext & _).
  set (number1 := (monthPrefix (today env1) ++ "-"
                     ++ JS.padStart0 (JS.String_of (m + 1)) 4)%string).
  set (st1 := initializeNewInvoice env1 dateNow1 number1 st).
  set (st2 := finalizeInvoice cfg env2 st1).
  set (number3 := (monthPrefix (today env1) ++ "-"
                     ++ JS.padStart0 (JS.String_of (m + 2)) 4)%string).
  exists m, st1, (initializeNewInvoice env3 dateNow3 number3 st2).
  cbv zeta. fold st2.
  assert (Hhistory : allFinalized history)
    by (intros inv Hin; apply Hall, Hext, Hin).
  split; [exact Hmax |].
  split.
  { rewrite createNewInvoice_finalized by exact Hhistory.
    now rewrite Htext. }
  split; [reflexivity |].
  intros Hext'.
  assert (Hproceeds : finalizeProceeds cfg env2 st1 = true).
  { apply (finalizeProceeds_signed_in cfg env2 st1 u (JS.String_of dateNow1));
      [exact Huser | reflexivity | apply String_of_nonempty | exact Hwrites]. }
  destruct (finalizeInvoice_proceeds cfg env2 st1 Hproceeds)
    as (id & _ & Hfinal).
  assert (Hstored2 : App.stored st2
                     = upsert (invoiceDataOf env2 st1 id) (App.stored st))
    by (unfold st2; rewrite Hfinal; reflexivity).
  assert (Hall2 : allFinalized history').
  { intros inv Hin. apply Hext' in Hin.
    now apply (finalizeInvoice_allFinalized cfg env2 st1 Hall). }
  rewrite (createNewInvoice_finalized env3 dateNow3 history' st2 Hall2).
  assert (Hprefix : monthPrefix (today env3) = monthPrefix (today env1))
    by now apply monthPrefix_same.
  destruct (issued_number_counted history history' (today env1) sequences m
              (invoiceDataOf env2 st1 id)) as [_ Htext'];
    try assumption; try reflexivity.
  { apply Hext'. rewrite Hstored2. apply In_upsert_new. }
  { intros other Hin. apply Hext' in Hin. rewrite Hstored2 in Hin.
    apply In_upsert_inv in Hin as [-> | Hin]; [now left | right].
    now apply Hext. }
  rewrite (nextNumber_same_month _ _ _ Hprefix), Hprefix, Htext'.
  split; reflexivity.
Qed.

(** The office in June 2024: the first invoice of the month is 0012, the
    one created after its finalization 0013. *)
Lemma consecutive_invoices_get_consecutive_numbers_witness :
  exists st1 st3,
    Invoice.invoiceNumber (App.invoice st1) = "2024-06-0012"%string
    /\ createNewInvoice (host := Sample.paris) Office.env 1718442000001
         (rev (App.stored (finalizeInvoice Sample.remote Office.env st1)))
         (finalizeInvoice Sample.remote Office.env st1)
       = Created st3
    /\ Invoice.invoiceNumber (App.invoice st3) = "2024-06-0013"%string.
Proof.
  destruct (consecutive_invoices_get_consecutive_numbers
              (host := Sample.paris)
              Sample.remote Office.env Office.env Office.env
              1718442000000 1718442000001
              Office.archive
              (rev (App.stored
                      (finalizeInvoice Sample.remote Office.env
                         (initializeNewInvoice (host := Sample.paris)
                            Office.env 1718442000000
                            "2024-06-0012" Office.idle))))
              Office.idle (AppUser.mk "u1" "ada@example.org") [])
    as (m & st1 & st3 & Hmax & Hcreated & Hnumber1 & Hnext).
  - reflexivity.
  - intros inv [<- | [<- | [<- | []]]]; reflexivity.
  - intros inv. reflexivity.
  - vm_compute. reflexivity.
  - vm_compute. reflexivity.
  - intros z [].
  - reflexivity.
  - reflexivity.
  - intros _. split; reflexivity.
  - cbv zeta in Hnext.
    assert (Hm : m = 11).
    { destruct Hmax as [[<- | []] _]. reflexivity. }
    subst m.
    assert (Est1 : st1 = initializeNewInvoice (host := Sample.paris)
                           Office.env 1718442000000
                           "2024-06-0012" Office.idle).
    { assert (E : Created st1
                  = Created (initializeNewInvoice (host := Sample.paris)
                               Office.env 1718442000000
                               "2024-06-0012" Office.idle))
        by (rewrite <- Hcreated; vm_compute; reflexivity).
      now injection E. }
    exists st1, st3. subst st1.
    destruct Hnext as [Hcreated3 Hnumber3];
      [intros inv; symmetry; apply in_rev |].
    split; [vm_compute; reflexivity |].
    split; [exact Hcreated3 |].
    rewrite Hnumber3. vm_compute. reflexivity.
Defined.



(** X10. When the remote write of the invoice fails after the profile was
    saved, [finalizeInvoice] leaves the history as it was and still sets
    the status of the page to finalized: the invoice is in no history,
    the last message is the error of the write, and the page no longer
    offers to finalize the invoice. *)
Theorem failed_write_still_marks_finalized {num} `{Number num}
    (cfg : Config) (env : Env) (st : App.t num) (u : AppUser.t)
    (id : string) :
  isSupabaseConfigured cfg = true ->
  profileUpsertOk env = true ->
  invoiceUpsertOk env = false ->
  App.user st = Some u ->
  App.currentInvoiceId st = Some id ->
  id <> EmptyString ->
  let st' := finalizeInvoice cfg env st in
  App.stored st' = App.stored st
  /\ App.invoiceStatus st' = finalized
  /\ App.message st' = Some (Message.mk error InvoiceSaveError)
  /\ finalizeOffered st' = false
  /\ finalizeProceeds cfg env st = false.
Proof.
  intros Hcfg Hprofile Hinvoice Huser Hid Hne.
  apply String.eqb_neq in Hne.
  unfold finalizeInvoice, finalizeProceeds, saveInvoiceToHistory,
    saveUserProfile, finalizeOffered, falsy.
  rewrite Hid, Hne, Huser, Hcfg, Hprofile.
  cbn [isSome negb andb App.user App.setMessage App.setInvoiceStatus].
  rewrite Huser, Hinvoice.
  repeat split.
Qed.

Lemma failed_write_still_marks_finalized_witness :
  App.stored (finalizeInvoice Sample.remote Office.offline Sample.editing)
  = Sample.history
  /\ App.invoiceStatus
       (finalizeInvoice Sample.remote Office.offline Sample.editing)
     = finalized.
Proof.
  destruct (failed_write_still_marks_finalized
              Sample.remote Office.offline Sample.editing
              (AppUser.mk "u1" "ada@example.org") "1709283600000"
              eq_refl eq_refl eq_refl eq_refl eq_refl)
    as (Hstored & Hstatus & _).
  - discriminate.
  - split; [exact Hstored | exact Hstatus].
Defined.

(** ** The dates of a new invoice *)

Section NewInvoiceFacts.
Import Calendar.
Context {host : Host}.

(** The day number of a day of a four-digit year. *)
Lemma days_from_civil_four_digits (c : Civil) :
  valid c -> 1000 <= cyear c <= 9999 ->
  -1000000 <= days_from_civil (cyear c) (cmonth c) (cday c) <= 3000000.
Proof.
  intros [Hm Hd] Hy.
  pose proof (CalendarFacts.daysInMonth_bounds (cyear c) (cmonth c)) as Hdim.
  unfold days_from_civil. cbv zeta.
  destruct (cmonth c <=? 2), (2 <? cmonth c); Z.div_mod_to_equations; lia.
Qed.

(** Midnight of a day in universal time falls on the day before in local
    time when local time is behind. *)
Lemma civil_utc_midnight_west (D : Z) :
  localTZA < 0 ->
  civil (mkDate (Some (MakeDate D 0))) = Some (civil_from_days (D - 1)).
Proof.
  intros Hwest. pose proof localTZA_bounds as Hz.
  unfold civil, LocalTime, MakeDate, Day. cbn [timeValue]. do 2 f_equal.
  unfold msPerDay in *. Z.div_mod_to_equations. lia.
Qed.

Lemma civil_valid (t : Date) (c : Civil) : civil t = Some c -> valid c.
Proof.
  unfold civil. destruct (timeValue t); [| discriminate].
  intros [= <-]. apply CalendarFacts.civil_from_days_valid.
Qed.

End NewInvoiceFacts.

(** X11. An invoice initialized while the clock shows a valid date is a
    draft with an identifier, dated and delivered today and due thirty
    days later, under the terms of thirty days; the page offers to
    finalize it. *)
Theorem new_invoice_is_due_in_thirty_days {host : Calendar.Host} {num}
    (env : Env) (dateNow : Z) (number : string) (st : App.t num) (tv : Z) :
  Calendar.timeValue (today env) = Some tv ->
  Z.abs tv <= Calendar.maxTime ->
  let st' := initializeNewInvoice env dateNow number st in
  App.invoiceStatus st' = draft
  /\ finalizeOffered st' = true
  /\ (exists id, App.currentInvoiceId st' = Some id /\ id <> EmptyString)
  /\ Invoice.invoiceNumber (App.invoice st') = number
  /\ Invoice.invoiceDate (App.invoice st')
     = Calendar.toLocaleDateString_fr (today env)
  /\ Invoice.deliveryDate (App.invoice st')
     = Calendar.toLocaleDateString_fr (today env)
  /\ Invoice.paymentTerms (App.invoice st') = terms30
  /\ Invoice.paymentDue (App.invoice st')
     = Calendar.toLocaleDateString_fr (Calendar.plusDays (today env) 30)
  /\ App.articles st' = App.articles st
  /\ App.stored st' = App.stored st.
Proof.
  intros Htv Hrange st'.
  split; [reflexivity |]. split; [reflexivity |].
  split; [eexists; split; [reflexivity | apply String_of_nonempty] |].
  split; [reflexivity |]. split; [reflexivity |]. split; [reflexivity |].
  split; [reflexivity |]. split; [| split; reflexivity].
  cbn [st' initializeNewInvoice App.invoice Invoice.paymentDue].
  unfold calculatePaymentDue.
  replace (String.eqb terms30 EmptyString) with false by reflexivity.
  destruct termDays_of_terms as (_ & _ & H30). fold terms30 in H30.
  rewrite H30. cbn [JS.isNaN]. f_equal.
  now apply (setDate_getDate (today env) tv 30).
Qed.

(** An invoice created on 15 June 2024 is due on 15 July. *)
Lemma new_invoice_is_due_in_thirty_days_witness :
  Invoice.paymentDue
    (App.invoice
       (initializeNewInvoice (host := Sample.paris) Office.env 1718442000000
                             "2024-06-0012" Office.idle))
  = "15/07/2024"%string.
Proof.
  destruct (new_invoice_is_due_in_thirty_days (host := Sample.paris)
              Office.env 1718442000000 "2024-06-0012" Office.idle
              1718406000000)
    as (_ & _ & _ & _ & _ & _ & _ & Hdue & _).
  - vm_compute. reflexivity.
  - vm_compute. discriminate.
  - rewrite Hdue. vm_compute. reflexivity.
Defined.

(** X12. When the invoice date shown is the day/month/year string of a
    day of a four-digit year, choosing payment terms that start with the
    number [n] stores the terms, leaves the invoice date as it is and
    sets the due date [n] days after midnight of that day in universal
    time (when that lies in the range of [Date]): in local time that is
    [n] days after the invoice date where local time is not behind
    universal time, and one day less where it is behind. *)
Theorem chosen_terms_move_the_due_date {host : Calendar.Host} {num}
    (env : Env) (terms : string) (n : Z)
    (date : Calendar.Date) (c : Calendar.Civil) (st : App.t num) :
  termDays terms = JS.Int n ->
  Invoice.invoiceDate (App.invoice st) = Calendar.toLocaleDateString_fr date ->
  Calendar.civil date = Some c ->
  1000 <= Calendar.cyear c <= 9999 ->
  let day := Calendar.days_from_civil (Calendar.cyear c) (Calendar.cmonth c)
                                      (Calendar.cday c) in
  let due := Calendar.mkDate (Some ((day + n) * Calendar.msPerDay)) in
  Z.abs ((day + n) * Calendar.msPerDay) <= Calendar.maxTime ->
  let st' := handlePaymentTermsChange env terms st in
  Calendar.civil_from_days day = c
  /\ Invoice.paymentTerms (App.invoice st') = terms
  /\ Invoice.invoiceDate (App.invoice st')
     = Invoice.invoiceDate (App.invoice st)
  /\ Invoice.paymentDue (App.invoice st')
     = Calendar.toLocaleDateString_fr due
  /\ Calendar.civil due
     = Some (Calendar.civil_from_days
               (day + n + (if Calendar.localTZA <? 0 then -1 else 0))).
Proof.
  intros Hdays Hdate Hc Hyear day due Hrange st'.
  pose proof (civil_valid date c Hc) as Hvalid.
  pose proof (days_from_civil_four_digits c Hvalid Hyear) as Hday.
  fold day in Hday.
  destruct (parse_reversed_date (newDate env) date c Hc Hyear)
    as [Hparse Hcivil].
  fold day in Hparse, Hcivil.
  split; [exact Hcivil |].
  assert (Hterms : String.eqb terms EmptyString = false).
  { destruct terms; [discriminate Hdays | reflexivity]. }
  pose proof (toLocaleDateString_fr_nonempty date) as Hne.
  apply String.eqb_neq in Hne.
  unfold st', handlePaymentTermsChange, updatePaymentDue.
  cbn [App.invoice App.setInvoice Invoice.invoiceDate].
  rewrite Hdate, Hne, Hterms. cbn [orb]. cbv zeta. rewrite Hparse.
  cbn [App.invoice App.setInvoice Invoice.paymentTerms Invoice.paymentDue
       Invoice.invoiceDate].
  split; [reflexivity |]. split; [reflexivity |]. split.
  - unfold calculatePaymentDue. rewrite Hterms, Hdays. cbn [JS.isNaN].
    f_equal.
    rewrite (setDate_getDate
               (Calendar.mkDate (Some (Calendar.MakeDate day 0)))
               (Calendar.MakeDate day 0) n eq_refl)
      by (unfold Calendar.MakeDate, Calendar.maxTime, Calendar.msPerDay; lia).
    unfold Calendar.plusDays, Calendar.TimeClip, due.
    cbn [Calendar.timeValue].
    replace (Calendar.MakeDate day 0 + n * Calendar.msPerDay)
      with ((day + n) * Calendar.msPerDay)
      by (unfold Calendar.MakeDate; ring).
    apply Z.leb_le in Hrange. now rewrite Hrange.
  - unfold due.
    replace ((day + n) * Calendar.msPerDay)
      with (Calendar.MakeDate (day + n) 0)
      by (unfold Calendar.MakeDate; ring).
    destruct (Calendar.localTZA <? 0) eqn:Hwest.
    + apply Z.ltb_lt in Hwest.
      rewrite civil_utc_midnight_west by exact Hwest.
      do 2 f_equal; lia.
    + apply Z.ltb_ge in Hwest.
      rewrite civil_utc_midnight by exact Hwest.
      do 2 f_equal; lia.
Qed.

(** An invoice created on 15 June 2024, the terms then set to twenty
    days: due on 5 July one hour east of universal time, on 4 July five
    hours west. *)
Lemma chosen_terms_move_the_due_date_witness :
  Invoice.paymentDue
    (App.invoice
       (handlePaymentTermsChange (host := Sample.paris)
          Office.env Sample.terms20
          (initializeNewInvoice (host := Sample.paris)
             Office.env 1718442000000 "2024-06-0012" Office.idle)))
  = "05/07/2024"%string
  /\ Invoice.paymentDue
       (App.invoice
          (handlePaymentTermsChange (host := Sample.newYork)
             Office.env Sample.terms20
             (initializeNewInvoice (host := Sample.paris)
                Office.env 1718442000000 "2024-06-0012" Office.idle)))
     = "04/07/2024"%string.
Proof.
  split.
  - destruct (chosen_terms_move_the_due_date (host := Sample.paris)
                Office.env Sample.terms20 20 Sample.june
                (Calendar.mkCivil 2024 6 15)
                (initializeNewInvoice (host := Sample.paris)
                   Office.env 1718442000000 "2024-06-0012" Office.idle))
      as (_ & _ & _ & Hdue & _).
    + vm_compute. reflexivity.
    + reflexivity.
    + vm_compute. reflexivity.
    + vm_compute. split; discriminate.
    + vm_compute. discriminate.
    + rewrite Hdue. vm_compute. reflexivity.
  - destruct (chosen_terms_move_the_due_date (host := Sample.newYork)
                Office.env Sample.terms20 20
                (Calendar.dateOf (host := Sample.newYork) 2024 6 15)
                (Calendar.mkCivil 2024 6 15)
                (initializeNewInvoice (host := Sample.paris)
                   Office.env 1718442000000 "2024-06-0012" Office.idle))
      as (_ & _ & _ & Hdue & _).
    + vm_compute. reflexivity.
    + vm_compute. reflexivity.
    + vm_compute. reflexivity.
    + vm_compute. split; discriminate.
    + vm_compute. discriminate.
    + rewrite Hdue. vm_compute. reflexivity.
Defined.

(** ** More of the line items *)

Section MoreArticleFacts.
Context {num : Type} `{Number num}.
Implicit Types (article : Article.t num) (articles : list (Article.t num))
  (updates : PartialArticle.t num).

Lemma updateOne_id id updates article :
  PartialArticle.id updates = None ->
  Article.id (updateOne id updates article) = Article.id article.
Proof.
  intros Hid. unfold updateOne, mergeArticle.
  destruct (String.eqb _ id); [| reflexivity].
  destruct (isSome _ || isSome _); cbn [Article.id]; now rewrite Hid.
Qed.

Lemma updateOne_elsewhere id updates article :
  Article.id article <> id -> updateOne id updates article = article.
Proof.
  intros Hne. unfold updateOne. apply String.eqb_neq in Hne. now rewrite Hne.
Qed.

Lemma deleteArticle_app id articles more :
  deleteArticle id (articles ++ more)
  = deleteArticle id articles ++ deleteArticle id more.
Proof. unfold deleteArticle. apply filter_app. Qed.

Lemma deleteArticle_fresh id articles :
  (forall article, In article articles -> Article.id article <> id) ->
  deleteArticle id articles = articles.
Proof.
  intros Hfresh. unfold deleteArticle.
  induction articles as [| a r IH]; [reflexivity |]. cbn [filter].
  pose proof (Hfresh a (or_introl eq_refl)) as Ha.
  apply String.eqb_neq in Ha. rewrite Ha. cbn [negb]. f_equal.
  apply IH. intros b Hb. apply Hfresh. now right.
Qed.

Lemma deleteArticle_length id articles :
  (List.length (deleteArticle id articles) <= List.length articles)%nat.
Proof. unfold deleteArticle. apply filter_length_le. Qed.

End MoreArticleFacts.

(** X13. The [updateArticle] of the settings modal, given a field and a
    value, does to the articles what the [updateArticle] of the invoice
    page does with the object that holds this one key: the same articles
    are touched, the total is recomputed for a quantity or a unit price
    and can be set directly. *)
Theorem settings_update_agrees_with_page_update {num} `{Number num}
    (id : string) (fv : FieldValue num) (articles : list (Article.t num)) :
  updateArticleField id fv articles = updateArticle id (oneKey fv) articles.
Proof.
  unfold updateArticleField, updateArticle. apply map_ext. intros article.
  unfold updateOne. destruct (String.eqb _ id); [| reflexivity].
  destruct article, fv; reflexivity.
Qed.

(** X14. The article that [addArticle] appends, at once or when the
    duplicate dialog is confirmed, is removed again by [deleteArticle] on
    its identifier, which gives back the articles there were when no
    article had this identifier; an older article with the same
    identifier (two additions within one millisecond) is deleted with it.
    The dialog is asked exactly when an article is named like the new one,
    letter case and outer white space set aside. *)
Theorem added_article_is_deleted_by_its_id {num} `{Number num}
    (one : num) (dateNow : Z) (articles : list (Article.t num)) :
  let id := JS.String_of dateNow in
  let added := confirmed (addArticle one dateNow articles) in
  added = articles ++ [newArticle one dateNow]
  /\ deleteArticle id added = deleteArticle id articles
  /\ ((forall article, In article articles -> Article.id article <> id) ->
      deleteArticle id added = articles)
  /\ (List.length (deleteArticle id added) < List.length added)%nat
  /\ (addArticle one dateNow articles = Added added
      <-> forall article, In article articles ->
            trim (toLowerCase (Article.name article))
            <> "nouvel article"%string).
Proof.
  intros id added.
  assert (Hadded : added = articles ++ [newArticle one dateNow]).
  { unfold added, addArticle. cbv zeta.
    now destruct (checkDuplicateArticleName _ _ _). }
  assert (Hdelete : deleteArticle id added = deleteArticle id articles).
  { rewrite Hadded, deleteArticle_app.
    unfold deleteArticle at 2. cbn [filter newArticle Article.id].
    fold id. rewrite String.eqb_refl. cbn [negb]. apply app_nil_r. }
  split; [exact Hadded |]. split; [exact Hdelete |]. split.
  { intros Hfresh. rewrite Hdelete. now apply deleteArticle_fresh. }
  split.
  { rewrite Hdelete, Hadded, length_app. cbn [List.length].
    pose proof (deleteArticle_length id articles). lia. }
  unfold addArticle. cbv zeta. fold added in Hadded.
  rewrite <- Hadded.
  destruct (checkDuplicateArticleName articles _ None) eqn:Hcheck.
  - split; [discriminate |]. intros Hnone. exfalso.
    unfold checkDuplicateArticleName in Hcheck.
    apply existsb_exists in Hcheck as (article & Hin & Hsame).
    rewrite Bool.andb_true_r in Hsame. apply String.eqb_eq in Hsame.
    now apply (Hnone article Hin).
  - split; [| reflexivity]. intros _ article Hin Hsame.
    unfold checkDuplicateArticleName in Hcheck.
    assert (Hex : existsb
                    (fun article =>
                       String.eqb (trim (toLowerCase (Article.name article)))
                                  (trim (toLowerCase "Nouvel article"))
                       && negb false) articles = true).
    { apply existsb_exists. exists article. split; [exact Hin |].
      rewrite Hsame. reflexivity. }
    cbn [newArticle Article.name] in Hcheck. congruence.
Qed.

(** An article added to the sample line and deleted again. *)
Lemma added_article_is_deleted_by_its_id_witness :
  deleteArticle "1718442000000"
    (confirmed (addArticle 1 1718442000000 [Sample.article "1" 1 2 50]))
  = [Sample.article "1" 1 2 50].
Proof.
  destruct (added_article_is_deleted_by_its_id
              1 1718442000000 [Sample.article "1" 1 2 50])
    as (_ & _ & Hback & _).
  apply Hback. intros article [<- | []]. discriminate.
Defined.

(** X15. Deleting and editing commute as long as the edit does not carry
    an identifier: the articles left after both are the same in either
    order, for the same identifier or for two; and an edit of the
    identifier just deleted changes nothing. *)
Theorem delete_commutes_with_update {num} `{Number num}
    (id id' : string) (updates : PartialArticle.t num)
    (articles : list (Article.t num)) :
  PartialArticle.id updates = None ->
  deleteArticle id' (updateArticle id updates articles)
  = updateArticle id updates (deleteArticle id' articles)
  /\ updateArticle id updates (deleteArticle id articles)
     = deleteArticle id articles.
Proof.
  intros Hid. split.
  - unfold deleteArticle, updateArticle.
    induction articles as [| a r IH]; [reflexivity |].
    cbn [map filter]. rewrite (updateOne_id id updates a Hid).
    destruct (negb _); cbn [map]; now rewrite IH.
  - unfold deleteArticle, updateArticle.
    induction articles as [| a r IH]; [reflexivity |].
    cbn [filter]. destruct (String.eqb_spec (Article.id a) id) as [E | NE];
      cbn [negb map]; [exact IH |].
    now rewrite IH, (updateOne_elsewhere id updates a NE).
Qed.

(** A new quantity for the first of two articles, the second deleted. *)
Lemma delete_commutes_with_update_witness :
  deleteArticle "2"
    (updateArticle "1" (Sample.quantityAndTotal 3 0)
       [Sample.article "1" 1 2 50; Sample.article "2" 1 1 10])
  = [Sample.article "1" 1 3 50].
Proof.
  destruct (delete_commutes_with_update
              "1" "2" (Sample.quantityAndTotal 3 0)
              [Sample.article "1" 1 2 50; Sample.article "2" 1 1 10]
              eq_refl) as [-> _].
  reflexivity.
Defined.

(** ** The date picker *)

Section PickerFacts.
Import Calendar.
Context {host : Host}.

(** The day number of a day of the years 100 to 275001. *)
Lemma days_from_civil_range (y m d : Z) :
  99 <= y <= 275001 -> 1 <= m <= 12 -> 0 <= d <= 32 ->
  -700000 <= days_from_civil y m d <= 99900000.
Proof.
  intros Hy Hm Hd. unfold days_from_civil. cbv zeta.
  destruct (m <=? 2), (2 <? m); Z.div_mod_to_equations; lia.
Qed.

(** [new Date(year, month, day)] on a month of the year, the day being
    free: the day number counted from the first of the month. *)
Lemma dateOfParts_day (year month day : Z) :
  100 <= year <= 275000 -> 0 <= month <= 11 -> 0 <= day <= 32 ->
  exists tv,
    timeValue (dateOfParts year month day) = Some tv
    /\ Day (LocalTime tv) = days_from_civil year (month + 1) 1 + day - 1.
Proof.
  intros Hy Hm Hd. unfold dateOfParts, MakeDay.
  replace ((0 <=? year) && (year <=? 99)) with false
    by (symmetry; apply Bool.andb_false_iff; right; apply Z.leb_gt; lia).
  rewrite Z.div_small, Z.mod_small, Z.add_0_r by lia.
  pose proof (days_from_civil_range year (month + 1) day
                ltac:(lia) ltac:(lia) Hd) as Hrange.
  rewrite days_from_civil_day in Hrange.
  destruct (civil_local_midnight _ Hrange) as (tv & Hclip & Hday).
  exists tv. cbn [timeValue]. split; assumption.
Qed.



End PickerFacts.



Section PickerGrid.
Import Calendar.
Context {host : Host}.

Lemma pickerInRange_spec (p : Picker.t) :
  pickerInRange p = true ->
  0 <= Picker.currentMonth p <= 11 /\ 100 <= Picker.currentYear p <= 275000.
Proof.
  unfold pickerInRange. intros Hrange.
  apply andb_prop in Hrange as [Hrange Hy2].
  apply andb_prop in Hrange as [Hrange Hy1].
  apply andb_prop in Hrange as [Hm1 Hm2].
  apply Z.leb_le in Hm1, Hm2, Hy1, Hy2. lia.
Qed.

(** The calendar day of [new Date(year, month, day)] for a day of the
    month. *)
Lemma civil_dateOfParts (year month day : Z) :
  100 <= year <= 275000 -> 0 <= month <= 11 ->
  1 <= day <= daysInMonth year (month + 1) ->
  civil (dateOfParts year month day) = Some (mkCivil year (month + 1) day).
Proof.
  intros Hy Hm Hd.
  pose proof (CalendarFacts.daysInMonth_bounds year (month + 1)) as Hdim.
  unfold civil.
  destruct (dateOfParts_day year month day) as (tv & -> & ->);
    [lia | lia | lia |].
  rewrite <- days_from_civil_day.
  rewrite CalendarFacts.civil_from_days_of_civil; [reflexivity |].
  split; cbn [cyear cmonth cday]; lia.
Qed.

End PickerGrid.

(** X17. In the grid of seven columns, headed from Sunday to Saturday,
    the empty cells put before day 1 bring every day of the month under
    the heading of its day of the week. *)
Theorem picker_days_fall_under_their_weekday {host : Calendar.Host}
    (p : Picker.t) (day : Z) :
  pickerInRange p = true ->
  1 <= day <= 31 ->
  exists first,
    firstDayOfMonth p = JS.Int first
    /\ 0 <= first <= 6
    /\ getDay (dateOfParts (Picker.currentYear p) (Picker.currentMonth p) day)
       = JS.Int ((first + (day - 1)) mod 7).
Proof.
  intros Hrange Hday.
  destruct (pickerInRange_spec p Hrange) as [Hm Hy].
  unfold firstDayOfMonth, getDay.
  destruct (dateOfParts_day (Picker.currentYear p) (Picker.currentMonth p) 1)
    as (tv1 & -> & Hday1); [lia | lia | lia |].
  destruct (dateOfParts_day (Picker.currentYear p) (Picker.currentMonth p) day)
    as (tv & -> & Hdayn); [lia | lia | lia |].
  eexists. split; [reflexivity |]. split.
  - pose proof (Z.mod_pos_bound
                  (Calendar.Day (Calendar.LocalTime tv1) + 4) 7).
    lia.
  - f_equal. rewrite Hday1, Hdayn.
    rewrite Zplus_mod_idemp_l. f_equal. lia.
Qed.

(** 1 June 2024 is a Saturday: six empty cells, and the 15th falls under
    Saturday too. *)
Lemma picker_days_fall_under_their_weekday_witness :
  firstDayOfMonth (host := Sample.paris) (Picker.mk 5 2024) = JS.Int 6
  /\ getDay (host := Sample.paris)
       (dateOfParts (host := Sample.paris) 2024 5 15)
     = JS.Int 6.
Proof.
  destruct (picker_days_fall_under_their_weekday (host := Sample.paris)
              (Picker.mk 5 2024) 15 eq_refl)
    as (first & Hfirst & _ & Hday).
  - lia.
  - assert (E : first = 6).
    { assert (E' : JS.Int first = JS.Int 6)
        by (rewrite <- Hfirst; vm_compute; reflexivity).
      now injection E'. }
    subst first. split; [exact Hfirst | exact Hday].
Defined.

(** X18. The button of the next month leads to the month whose first day
    is the day after the last day shown, December leading to January of
    the next year; the button of the previous month undoes it, and the
    other way round. *)
Theorem picker_months_follow_each_other {host : Calendar.Host}
    (p : Picker.t) :
  pickerInRange p = true ->
  pickerInRange (nextMonth p) = true ->
  let year := Picker.currentYear p in
  let month := Picker.currentMonth p in
  let next := nextMonth p in
  previousMonth next = p
  /\ (pickerInRange (previousMonth p) = true ->
      nextMonth (previousMonth p) = p)
  /\ Calendar.civil
       (dateOfParts (Picker.currentYear next) (Picker.currentMonth next) 1)
     = option_map Calendar.nextDay
         (Calendar.civil
            (dateOfParts year month
                         (Calendar.daysInMonth year (month + 1)))).
Proof.
  intros Hrange Hnext year month next.
  destruct (pickerInRange_spec p Hrange) as [Hm Hy].
  destruct (pickerInRange_spec _ Hnext) as [Hm' Hy'].
  fold year month in Hm, Hy. fold next in Hm', Hy'.
  pose proof (CalendarFacts.daysInMonth_bounds year (month + 1)) as Hdim.
  split.
  { unfold next, nextMonth, previousMonth. fold month year.
    destruct p as [m y]. cbn [Picker.currentMonth Picker.currentYear] in *.
    destruct (Z.eqb_spec month 11) as [E | NE];
      cbn [Picker.currentMonth Picker.currentYear].
    - cbn [Z.eqb]. subst month year. rewrite E. f_equal. lia.
    - replace (month + 1 =? 0) with false
        by (symmetry; apply Z.eqb_neq; lia).
      subst month year. f_equal. lia. }
  split.
  { intros _. unfold nextMonth, previousMonth. fold month year.
    destruct p as [m y]. cbn [Picker.currentMonth Picker.currentYear] in *.
    destruct (Z.eqb_spec month 0) as [E | NE];
      cbn [Picker.currentMonth Picker.currentYear].
    - cbn [Z.eqb Pos.eqb]. subst month year. rewrite E. f_equal. lia.
    - replace (month - 1 =? 11) with false
        by (symmetry; apply Z.eqb_neq; lia).
      subst month year. f_equal. lia. }
  rewrite (civil_dateOfParts year month) by lia.
  rewrite civil_dateOfParts
    by (try lia;
        pose proof (CalendarFacts.daysInMonth_bounds
                      (Picker.currentYear next)
                      (Picker.currentMonth next + 1)); lia).
  cbn [option_map]. f_equal.
  unfold Calendar.nextDay.
  cbn [Calendar.cyear Calendar.cmonth Calendar.cday].
  rewrite Z.ltb_irrefl.
  unfold next, nextMonth. fold month year.
  destruct (Z.eqb_spec month 11) as [E | NE];
    cbn [Picker.currentMonth Picker.currentYear].
  - rewrite E. reflexivity.
  - replace (month + 1 <? 12) with true by (symmetry; apply Z.ltb_lt; lia).
    reflexivity.
Qed.

(** December 2024 is followed by January 2025. *)
Lemma picker_months_follow_each_other_witness :
  nextMonth (Picker.mk 11 2024) = Picker.mk 0 2025
  /\ previousMonth (nextMonth (Picker.mk 11 2024)) = Picker.mk 11 2024.
Proof.
  destruct (picker_months_follow_each_other (host := Sample.paris)
              (Picker.mk 11 2024) eq_refl eq_refl) as (Hback & _).
  split; [reflexivity | exact Hback].
Defined.

(** ** The formatters of the form fields *)

Section FormatFacts.

Lemma digit_not_space (a : ascii) :
  JS.isDigit a = true -> JS.isWhiteSpace a = false /\ Ascii.eqb a " " = false.
Proof.
  destruct a as [[] [] [] [] [] [] [] []]; vm_compute; intros E;
    try discriminate E; split; reflexivity.
Qed.

Lemma digitsOnly_digits (s : string) :
  JS.allChars JS.isDigit (digitsOnly s) = true.
Proof.
  induction s as [| a r IH]; [reflexivity |]. cbn [digitsOnly].
  destruct (JS.isDigit a) eqn:Ea; [| exact IH].
  cbn [JS.allChars]. now rewrite Ea.
Qed.

Lemma digitsOnly_fixed (d : string) :
  JS.allChars JS.isDigit d = true -> digitsOnly d = d.
Proof.
  induction d as [| a r IH]; [reflexivity |]. cbn [JS.allChars digitsOnly].
  intros H. apply andb_prop in H as [-> Hr]. now rewrite IH.
Qed.

Lemma digitsOnly_trimStart (s : string) :
  digitsOnly (JS.trimStart s) = digitsOnly s.
Proof.
  induction s as [| a r IH]; [reflexivity |]. cbn [JS.trimStart].
  destruct (JS.isWhiteSpace a) eqn:Ea; [| reflexivity].
  cbn [digitsOnly]. destruct (JS.isDigit a) eqn:Ed; [| exact IH].
  apply digit_not_space in Ed as [Ed _]. congruence.
Qed.

Lemma digitsOnly_trimEnd (s : string) :
  digitsOnly (trimEnd s) = digitsOnly s.
Proof.
  induction s as [| a r IH]; [reflexivity |]. cbn [trimEnd].
  destruct (trimEnd r) as [| b kept] eqn:Er.
  - cbn [digitsOnly] in *. rewrite <- IH.
    destruct (JS.isWhiteSpace a) eqn:Ea.
    + destruct (JS.isDigit a) eqn:Ed; [| reflexivity].
      apply digit_not_space in Ed as [Ed _]. congruence.
    + cbn [digitsOnly]. reflexivity.
  - cbn [digitsOnly] in *. now rewrite IH.
Qed.

Lemma digitsOnly_trim (s : string) : digitsOnly (trim s) = digitsOnly s.
Proof. unfold trim. now rewrite digitsOnly_trimEnd, digitsOnly_trimStart. Qed.

Lemma trimEnd_fixed (s : string) : endsOnDigit s = true -> trimEnd s = s.
Proof.
  induction s as [| a r IH]; [reflexivity |]. intros H.
  destruct r as [| b r'].
  - cbn [endsOnDigit] in H. apply digit_not_space in H as [H _].
    cbn [trimEnd]. now rewrite H.
  - change (endsOnDigit (String b r') = true) in H.
    change (trimEnd (String a (String b r')))
      with (match trimEnd (String b r') with
            | EmptyString => if JS.isWhiteSpace a then EmptyString
                             else String a EmptyString
            | kept => String a kept
            end).
    now rewrite (IH H).
Qed.

Lemma trim_fixed (s : string) :
  digitAhead s = true \/ s = EmptyString ->
  endsOnDigit s = true -> trim s = s.
Proof.
  intros Hfirst Hlast. unfold trim.
  assert (E : JS.trimStart s = s).
  { destruct Hfirst as [Hd | ->]; [| reflexivity].
    destruct s as [| a r]; [discriminate |]. cbn [digitAhead] in Hd.
    apply digit_not_space in Hd as [Hd _]. cbn [JS.trimStart].
    now rewrite Hd. }
  rewrite E. now apply trimEnd_fixed.
Qed.

(** What [spaceAfterPairs] does to a string of digits. *)
Lemma spaceAfterPairs_digits (n : nat) (d : string) :
  (String.length d <= n)%nat ->
  JS.allChars JS.isDigit d = true ->
  digitsOnly (spaceAfterPairs d) = d
  /\ endsOnDigit (spaceAfterPairs d) = true
  /\ digitAhead (spaceAfterPairs d) = digitAhead d
  /\ (d <> EmptyString ->
      JS.split_aux " " (spaceAfterPairs d) EmptyString = pairsOf d)
  /\ String.length (spaceAfterPairs d)
     = (String.length d + (String.length d - 1) / 2)%nat.
Proof.
  revert d. induction n as [| n IH]; intros d Hlen Hd.
  { destruct d; [| cbn [String.length] in Hlen; lia].
    repeat split. intros H. now destruct H. }
  destruct d as [| a [| b rest]].
  - repeat split. intros H. now destruct H.
  - cbn [JS.allChars] in Hd. apply andb_prop in Hd as [Ha _].
    destruct (digit_not_space a Ha) as [_ Hsp].
    cbn [spaceAfterPairs digitsOnly endsOnDigit digitAhead JS.split_aux
         pairsOf]. rewrite Ha, Hsp. repeat split.
  - cbn [JS.allChars] in Hd. apply andb_prop in Hd as [Ha Hd].
    apply andb_prop in Hd as [Hb Hrest].
    destruct (digit_not_space a Ha) as [_ Hspa].
    destruct (digit_not_space b Hb) as [_ Hspb].
    cbn [String.length] in Hlen.
    destruct rest as [| c rest'].
    + cbn [spaceAfterPairs digitAhead]. rewrite Ha, Hb. cbn [andb].
      cbn [digitsOnly endsOnDigit digitAhead JS.split_aux pairsOf].
      rewrite Ha, Hb, Hspa, Hspb. repeat split.
    + assert (Hc : JS.isDigit c = true).
      { cbn [JS.allChars] in Hrest. now apply andb_prop in Hrest as [Hc _]. }
      destruct (IH (String c rest') ltac:(cbn [String.length] in *; lia)
                   Hrest)
        as (Hdig & Hend & Hfirst & Hsplit & Hlength).
      change (spaceAfterPairs (String a (String b (String c rest'))))
        with (if JS.isDigit a && JS.isDigit b
                 && digitAhead (String c rest')
              then String a (String b (String " "
                     (spaceAfterPairs (String c rest'))))
              else String a (spaceAfterPairs (String b (String c rest')))).
      cbn [digitAhead]. rewrite Ha, Hb, Hc. cbn [andb].
      split; [| split; [| split; [| split]]].
      * cbn [digitsOnly]. rewrite Ha, Hb.
        change (JS.isDigit " ") with false. cbv iota. now rewrite Hdig.
      * change (endsOnDigit (String a (String b (String " "
                  (spaceAfterPairs (String c rest'))))))
          with (endsOnDigit (String " " (spaceAfterPairs (String c rest')))).
        destruct (spaceAfterPairs (String c rest')) as [| x r] eqn:E.
        -- cbn [digitAhead] in Hfirst. congruence.
        -- exact Hend.
      * exact Ha.
      * intros _. cbn [JS.split_aux]. rewrite Hspa, Hspb.
        change (Ascii.eqb " " " ") with true. cbv iota.
        cbn [String.append pairsOf]. f_equal.
        apply Hsplit. discriminate.
      * cbn [String.length] in *. rewrite Hlength.
        replace (S (S (S (String.length rest'))) - 1)%nat
          with (S (String.length rest' - 0) + 1 * 2 - 1)%nat by lia.
        replace (S (String.length rest') - 1)%nat
          with (String.length rest')%nat by lia.
        replace (S (String.length rest' - 0) + 1 * 2 - 1)%nat
          with (String.length rest' + 1 * 2)%nat by lia.
        rewrite Nat.div_add by lia. lia.
Qed.

(** What [spaceAfterTriples] does to a string of digits. *)
Lemma spaceAfterTriples_digits (n : nat) (d : string) :
  (String.length d <= n)%nat ->
  JS.allChars JS.isDigit d = true ->
  digitsOnly (spaceAfterTriples d) = d.
Proof.
  revert d. induction n as [| n IH]; intros d Hlen Hd.
  { destruct d; [reflexivity | cbn [String.length] in Hlen; lia]. }
  destruct d as [| a t]; [reflexivity |].
  cbn [JS.allChars] in Hd. apply andb_prop in Hd as [Ha Ht].
  cbn [String.length] in Hlen.
  assert (Hskip : digitsOnly (String a (spaceAfterTriples t)) = String a t).
  { cbn [digitsOnly]. rewrite Ha. f_equal. apply IH; [lia | exact Ht]. }
  destruct t as [| b [| c rest]]; try exact Hskip.
  change (spaceAfterTriples (String a (String b (String c rest))))
    with (if JS.isDigit a && JS.isDigit b && JS.isDigit c && digitAhead rest
          then String a (String b (String c
                 (String " " (spaceAfterTriples rest))))
          else String a (spaceAfterTriples (String b (String c rest)))).
  destruct (JS.isDigit a && JS.isDigit b && JS.isDigit c && digitAhead rest);
    [| exact Hskip].
  cbn [JS.allChars] in Ht. apply andb_prop in Ht as [Hb Ht].
  apply andb_prop in Ht as [Hc Hrest].
  cbn [digitsOnly]. rewrite Ha, Hb, Hc.
  change (JS.isDigit " ") with false. cbv iota.
  do 3 f_equal. apply IH; [cbn [String.length] in Hlen; lia | exact Hrest].
Qed.

(** A string of fourteen digits, character by character. *)
Lemma fourteen_digits (d : string) :
  String.length d = 14%nat ->
  JS.allChars JS.isDigit d = true ->
  digitsOnly (siretGroups d) = d
  /\ String.length (siretGroups d) = 17%nat
  /\ JS.split (siretGroups d) " "
     = [substring 0 3 d; substring 3 3 d; substring 6 3 d; substring 9 5 d].
Proof.
  intros Hlen Hd.
  do 14 (destruct d as [| ? d]; [discriminate Hlen |]).
  destruct d; [| discriminate Hlen].
  cbn [JS.allChars] in Hd.
  repeat match type of Hd with
         | (_ && _) = true => apply andb_prop in Hd as [?H Hd]
         end.
  repeat match goal with
         | H : JS.isDigit ?a = true |- _ =>
             let Hs := fresh "Hs" in
             destruct (digit_not_space a H) as [_ Hs];
             revert H Hs
         end.
  intros.
  unfold siretGroups, JS.split.
  cbn [substring String.append digitsOnly String.length JS.split_aux].
  change (JS.isDigit " ") with false.
  change (Ascii.eqb " " " ") with true.
  repeat match goal with
         | H : JS.isDigit _ = true |- _ => rewrite H; clear H
         end.
  repeat match goal with
         | H : Ascii.eqb _ " " = false |- _ => rewrite H; clear H
         end.
  repeat split.
Qed.

End FormatFacts.

(** X19. The telephone number shown is the digits typed, two by two with
    a space between the pairs, whatever else was typed with them; it
    keeps the digits, and formatting it again, as the page and the PDF do
    with the stored value, changes nothing. *)
Theorem phone_number_is_shown_in_pairs (phone : string) :
  let digits := digitsOnly phone in
  let shown := formatPhoneNumber phone in
  digitsOnly shown = digits
  /\ formatPhoneNumber shown = shown
  /\ (digits <> EmptyString -> JS.split shown " " = pairsOf digits)
  /\ (digits = EmptyString -> shown = EmptyString)
  /\ String.length shown
     = (String.length digits + (String.length digits - 1) / 2)%nat.
Proof.
  intros digits shown.
  destruct (spaceAfterPairs_digits (String.length digits) digits
              (le_n _) (digitsOnly_digits phone))
    as (Hdig & Hend & Hfirst & Hsplit & Hlength).
  assert (Htrim : shown = spaceAfterPairs digits).
  { unfold shown, formatPhoneNumber. cbv zeta. fold digits.
    apply trim_fixed; [| exact Hend].
    rewrite Hfirst. destruct digits as [| a r] eqn:E; [now right |].
    left. pose proof (digitsOnly_digits phone) as Hall. fold digits in Hall.
    rewrite E in Hall. cbn [JS.allChars] in Hall.
    now apply andb_prop in Hall as [Ha _]. }
  assert (Hsame : digitsOnly shown = digits) by now rewrite Htrim.
  split; [exact Hsame |]. split.
  { unfold formatPhoneNumber at 1. cbv zeta. rewrite Hsame.
    reflexivity. }
  split; [intros Hne; rewrite Htrim; now apply Hsplit |].
  split; [intros E; rewrite Htrim, E; reflexivity |].
  now rewrite Htrim.
Qed.

(** X20. The SIRET shown keeps the digits typed, so that it is valid
    exactly when what was typed holds fourteen digits, and formatting it
    again changes nothing; a valid one is shown as three groups of three
    digits and one of five. *)
Theorem siret_format_keeps_validity (siret : string) :
  let digits := digitsOnly siret in
  let shown := formatSiret siret in
  digitsOnly shown = digits
  /\ validateSiret shown = validateSiret siret
  /\ formatSiret shown = shown
  /\ (validateSiret siret = true ->
      String.length shown = 17%nat
      /\ JS.split shown " "
         = [substring 0 3 digits; substring 3 3 digits;
            substring 6 3 digits; substring 9 5 digits]).
Proof.
  intros digits shown.
  pose proof (digitsOnly_digits siret) as Hall. fold digits in Hall.
  assert (Hsame : digitsOnly shown = digits).
  { unfold shown, formatSiret. cbv zeta. fold digits.
    destruct (Nat.eqb_spec (String.length digits) 14) as [E | NE].
    - now apply fourteen_digits.
    - rewrite digitsOnly_trim.
      now apply (spaceAfterTriples_digits (String.length digits)). }
  split; [exact Hsame |]. split.
  { unfold validateSiret. cbv zeta. now rewrite Hsame. }
  split.
  { unfold formatSiret at 1. cbv zeta. rewrite Hsame. reflexivity. }
  unfold validateSiret. cbv zeta. fold digits. intros Hvalid.
  apply Nat.eqb_eq in Hvalid.
  unfold shown, formatSiret. cbv zeta. fold digits.
  apply Nat.eqb_eq in Hvalid as Hb. rewrite Hb.
  now apply fourteen_digits.
Qed.

(** A SIRET typed with dots is valid and shown in its four groups. *)
Lemma siret_format_keeps_validity_witness :
  formatSiret "123.456.789.01234" = "123 456 789 01234"
  /\ validateSiret (formatSiret "123.456.789.01234") = true.
Proof.
  destruct (siret_format_keeps_validity "123.456.789.01234")
    as (_ & Hvalid & _ & _).
  split; [reflexivity |]. rewrite Hvalid. reflexivity.
Defined.

(** ** Storage of the sensitive fields *)

Section CryptoFacts.
Import Base64.

Ltac bits :=
  cbn beta in *; zify; Z.to_euclidean_division_equations; lia.

Lemma sextet_cases (s : N) (P : N -> Prop) :
  (s < 64)%N ->
  (forall n, (n < 64)%nat -> P (N.of_nat n)) -> P s.
Proof.
  intros Hs HP. rewrite <- (N2Nat.id s). apply HP. lia.
Qed.

Lemma charOf_spec (s : N) :
  (s < 64)%N ->
  sextetOf (charOf s) = Some s
  /\ (charOf s =? 61)%N = false
  /\ isAsciiWhitespace (charOf s) = false.
Proof.
  intros Hs. apply (sextet_cases s); [exact Hs |]. clear s Hs.
  intros n Hn.
  do 64 (destruct n as [| n]; [vm_compute; repeat split |]).
  lia.
Qed.

Lemma padding_cons3 (a b c : N) (rest : list N) :
  padding (a :: b :: c :: rest) = padding rest.
Proof.
  unfold padding. cbn [List.length].
  replace (S (S (S (List.length rest))))
    with (List.length rest + 1 * 3)%nat by lia.
  now rewrite Nat.Div0.mod_add.
Qed.

(** Bytes cut into groups of six bits and put together again. *)
Lemma toSextets_spec (n : nat) (l : list N) :
  (List.length l <= n)%nat -> bytes l ->
  Forall (fun s => (s < 64)%N) (toSextets l)
  /\ fromSextets (toSextets l) = l
  /\ (List.length (toSextets l) mod 4 <> 1)%nat
  /\ (List.length (toSextets l) + List.length (padding l)
      = 4 * ((List.length l + 2) / 3))%nat.
Proof.
  revert l. induction n as [| n IH]; intros l Hlen Hl.
  { destruct l; [| cbn [List.length] in Hlen; lia].
    repeat split; [constructor | discriminate]. }
  destruct l as [| a [| b [| c rest]]].
  - repeat split; [constructor | discriminate].
  - apply Forall_inv in Hl. cbn [toSextets fromSextets].
    split; [| split; [| split]].
    + repeat constructor; bits.
    + do 2 f_equal. bits.
    + discriminate.
    + reflexivity.
  - pose proof (Forall_inv Hl) as Ha.
    pose proof (Forall_inv (Forall_inv_tail Hl)) as Hb.
    cbn beta in Ha, Hb. cbn [toSextets fromSextets].
    split; [| split; [| split]].
    + repeat constructor; bits.
    + f_equal; [| f_equal]; bits.
    + discriminate.
    + reflexivity.
  - pose proof (Forall_inv Hl) as Ha.
    pose proof (Forall_inv (Forall_inv_tail Hl)) as Hb.
    pose proof (Forall_inv (Forall_inv_tail (Forall_inv_tail Hl))) as Hc.
    pose proof (Forall_inv_tail (Forall_inv_tail (Forall_inv_tail Hl)))
      as Hrest.
    cbn beta in Ha, Hb, Hc. cbn [List.length] in Hlen.
    destruct (IH rest ltac:(lia) Hrest) as (Hrange & Hback & Hmod & Hlength).
    change (toSextets (a :: b :: c :: rest))
      with ((a / 4 :: (a mod 4) * 16 + b / 16 :: (b mod 16) * 4 + c / 64
               :: c mod 64 :: toSextets rest)%N).
    split; [| split; [| split]].
    + repeat (constructor; [bits |]).
      exact Hrange.
    + change (fromSextets
                (a / 4 :: (a mod 4) * 16 + b / 16 :: (b mod 16) * 4 + c / 64
                   :: c mod 64 :: toSextets rest)%N)
        with (((a / 4) * 4 + ((a mod 4) * 16 + b / 16) / 16
               :: (((a mod 4) * 16 + b / 16) mod 16) * 16
                  + ((b mod 16) * 4 + c / 64) / 4
               :: (((b mod 16) * 4 + c / 64) mod 4) * 64 + c mod 64
               :: fromSextets (toSextets rest))%N).
      rewrite Hback.
      f_equal; [| f_equal; [| f_equal]]; bits.
    + cbn [List.length].
      replace (S (S (S (S (List.length (toSextets rest))))))
        with (List.length (toSextets rest) + 1 * 4)%nat by lia.
      now rewrite Nat.Div0.mod_add.
    + rewrite padding_cons3. cbn [List.length].
      replace (S (S (S (List.length rest))) + 2)%nat
        with (List.length rest + 2 + 1 * 3)%nat by lia.
      rewrite Nat.div_add by lia. lia.
Qed.

Lemma sextetsOf_chars (l : list N) :
  Forall (fun s => (s < 64)%N) l -> sextetsOf (map charOf l) = Some l.
Proof.
  induction 1 as [| s l Hs _ IH]; [reflexivity |].
  cbn [map sextetsOf]. destruct (charOf_spec s Hs) as (-> & _).
  now rewrite IH.
Qed.

Lemma padding_cases (l : list N) :
  padding l = [] \/ padding l = [61%N] \/ padding l = [61%N; 61%N].
Proof.
  unfold padding. destruct (List.length l mod 3)%nat as [| [| [| k]]]; auto.
Qed.

Lemma dropPadding_body (body pad : list N) :
  Forall (fun c => (c =? 61)%N = false) body ->
  pad = [] \/ pad = [61%N] \/ pad = [61%N; 61%N] ->
  dropPadding (body ++ pad) = body.
Proof.
  intros Hbody Hpad. unfold dropPadding. rewrite rev_app_distr.
  assert (Hlast : forall c r, rev body = c :: r -> (c =? 61)%N = false).
  { intros c r E. rewrite Forall_forall in Hbody. apply Hbody.
    apply in_rev. rewrite E. now left. }
  destruct Hpad as [-> | [-> | ->]]; cbn [rev app].
  - rewrite app_nil_r. destruct (rev body) as [| c r] eqn:E; [reflexivity |].
    now rewrite (Hlast c r eq_refl).
  - change (61 =? 61)%N with true. cbv iota.
    destruct (rev body) as [| c r] eqn:E.
    + rewrite <- (rev_involutive body), E. reflexivity.
    + rewrite (Hlast c r eq_refl), <- E. apply rev_involutive.
  - change (61 =? 61)%N with true. cbv iota. apply rev_involutive.
Qed.

Lemma filter_keeps (l : list N) :
  Forall (fun c => isAsciiWhitespace c = false) l ->
  filter (fun c => negb (isAsciiWhitespace c)) l = l.
Proof.
  induction 1 as [| c l Hc _ IH]; [reflexivity |].
  cbn [filter]. now rewrite Hc, IH.
Qed.

(** [atob] undoes [btoa]. *)
Lemma atob_btoa (l : list N) :
  bytes l ->
  btoa l = Some (map charOf (toSextets l) ++ padding l)
  /\ atob (map charOf (toSextets l) ++ padding l) = Some l.
Proof.
  intros Hl.
  destruct (toSextets_spec (List.length l) l (le_n _) Hl)
    as (Hrange & Hback & Hmod & Hlength).
  split.
  { unfold btoa. replace (forallb _ l) with true; [reflexivity |].
    symmetry. apply forallb_forall. intros u Hu.
    unfold bytes in Hl. rewrite Forall_forall in Hl.
    apply N.ltb_lt. now apply Hl. }
  assert (Hchars : Forall (fun c => (c =? 61)%N = false
                                    /\ isAsciiWhitespace c = false)
                          (map charOf (toSextets l))).
  { apply Forall_map. eapply Forall_impl; [| exact Hrange].
    intros s Hs. cbn beta. now destruct (charOf_spec s Hs) as (_ & ? & ?). }
  unfold atob. cbv zeta.
  rewrite filter_keeps.
  2:{ apply Forall_app. split.
      - eapply Forall_impl; [| exact Hchars]. now intros c [_ ?].
      - destruct (padding_cases l) as [-> | [-> | ->]];
          repeat constructor. }
  rewrite length_app, length_map, Hlength.
  replace (4 * ((List.length l + 2) / 3))%nat
    with (((List.length l + 2) / 3) * 4)%nat by lia.
  rewrite Nat.Div0.mod_mul. cbn [Nat.eqb].
  rewrite dropPadding_body.
  2:{ eapply Forall_impl; [| exact Hchars]. now intros c [? _]. }
  2:{ apply padding_cases. }
  rewrite length_map.
  destruct (Nat.eqb_spec (List.length (toSextets l) mod 4) 1) as [E | _];
    [contradiction |].
  rewrite (sextetsOf_chars _ Hrange). now rewrite Hback.
Qed.

Lemma xorFrom_twice (key : list N) (i : nat) (l : list N) :
  xorFrom key i (xorFrom key i l) = l.
Proof.
  revert i. induction l as [| a r IH]; intros i; [reflexivity |].
  cbn [xorFrom]. rewrite IH. f_equal.
  now rewrite N.lxor_assoc, N.lxor_nilpotent, N.lxor_0_r.
Qed.

Lemma xorFrom_length (key : list N) (i : nat) (l : list N) :
  List.length (xorFrom key i l) = List.length l.
Proof.
  revert i. induction l as [| a r IH]; intros i; [reflexivity |].
  cbn [xorFrom List.length]. now rewrite IH.
Qed.

Lemma lxor_byte (a k : N) : (a < 256 -> k < 256 -> N.lxor a k < 256)%N.
Proof.
  intros Ha Hk.
  destruct (N.eq_dec (N.lxor a k) 0) as [-> | Hne]; [reflexivity |].
  change 256%N with (2 ^ 8)%N in *.
  apply N.log2_lt_pow2; [lia |].
  pose proof (N.log2_lxor a k) as Hlog.
  assert (Hla : (N.log2 a < 8)%N).
  { destruct (N.eq_dec a 0) as [-> | Hna]; [reflexivity |].
    apply N.log2_lt_pow2; [lia | exact Ha]. }
  assert (Hlk : (N.log2 k < 8)%N).
  { destruct (N.eq_dec k 0) as [-> | Hnk]; [reflexivity |].
    apply N.log2_lt_pow2; [lia | exact Hk]. }
  lia.
Qed.

Lemma xorFrom_bytes (key : list N) (i : nat) (l : list N) :
  bytes key -> (bytes (xorFrom key i l) <-> bytes l).
Proof.
  intros Hkey.
  assert (Hk : forall j, (nth j key 0 < 256)%N).
  { intros j. destruct (nth_in_or_default j key 0%N) as [Hin | ->];
      [| reflexivity].
    unfold bytes in Hkey. rewrite Forall_forall in Hkey. now apply Hkey. }
  revert i. induction l as [| a r IH]; intros i; [reflexivity |].
  cbn [xorFrom]. unfold bytes in *. split; intros H.
  - constructor.
    + pose proof (lxor_byte _ _ (Forall_inv H) (Hk (i mod List.length key)%nat))
        as Hx.
      now rewrite N.lxor_assoc, N.lxor_nilpotent, N.lxor_0_r in Hx.
    + apply (IH (S i)). exact (Forall_inv_tail H).
  - constructor.
    + apply lxor_byte; [exact (Forall_inv H) | apply Hk].
    + apply (IH (S i)). exact (Forall_inv_tail H).
Qed.

Lemma bytes_dec (l : list N) :
  forallb (fun u => u <? 256)%N l = true <-> bytes l.
Proof.
  unfold bytes. rewrite forallb_forall, Forall_forall.
  split; intros H u Hu; apply N.ltb_lt; now apply H.
Qed.

End CryptoFacts.

(** X21. A field is read back from the store as it was written exactly
    when every code unit, combined with the key, is below 256: it is then
    stored as base64 text of four characters for three code units and
    [decryptData] gives the field back; otherwise it is stored as the
    empty string and read back empty. With a key of code units below 256,
    such as the default key, the fields that come back are those whose
    code units are all below 256. *)
Theorem stored_field_is_read_back (encryptionKey : option (list N))
    (data : list N) :
  let key := keyOf encryptionKey in
  let stored := encryptData encryptionKey (Some data) in
  (bytes (xorFrom key 0 data) ->
     decryptData encryptionKey (Some stored) = data
     /\ List.length stored = (4 * ((List.length data + 2) / 3))%nat)
  /\ (~ bytes (xorFrom key 0 data) ->
     stored = [] /\ decryptData encryptionKey (Some stored) = [])
  /\ (bytes key -> (bytes (xorFrom key 0 data) <-> bytes data))
  /\ bytes (keyOf None).
Proof.
  intros key stored.
  split; [| split; [| split]].
  - intros Hbytes.
    destruct data as [| c rest] eqn:Edata; [now split |].
    rewrite <- Edata in *.
    destruct (atob_btoa _ Hbytes) as [Hbtoa Hatob].
    destruct (toSextets_spec _ _ (le_n _) Hbytes)
      as (_ & _ & _ & Hlength).
    assert (Hstored : stored = map Base64.charOf
                                 (Base64.toSextets (xorFrom key 0 data))
                               ++ Base64.padding (xorFrom key 0 data)).
    { unfold stored, encryptData. rewrite Edata at 1. rewrite <- Edata.
      cbv zeta. fold key. now rewrite Hbtoa. }
    split.
    + rewrite Hstored.
      remember (map Base64.charOf (Base64.toSextets (xorFrom key 0 data))
                  ++ Base64.padding (xorFrom key 0 data)) as text eqn:Etext.
      unfold decryptData. destruct text as [| e text'].
      * exfalso. apply (f_equal (@List.length N)) in Etext.
        rewrite length_app, length_map, Hlength, xorFrom_length in Etext.
        rewrite Edata in Etext. cbn [List.length] in Etext.
        assert (1 <= (S (List.length rest) + 2) / 3)%nat
          by (apply Nat.div_le_lower_bound; lia).
        lia.
      * cbv zeta. fold key. rewrite Hatob. apply xorFrom_twice.
    + rewrite Hstored, length_app, length_map, Hlength.
      now rewrite xorFrom_length.
  - intros Hnot.
    assert (Hstored : stored = []).
    { unfold stored, encryptData. destruct data as [| c rest]; [reflexivity |].
      cbv zeta. fold key. unfold Base64.btoa.
      destruct (forallb _ _) eqn:E; [| reflexivity].
      exfalso. apply Hnot. now apply bytes_dec. }
    now rewrite Hstored.
  - apply xorFrom_bytes.
  - apply bytes_dec. reflexivity.
Qed.

(** [Ada] is stored as [JQEH] under the default key and read back; a
    name in U+0152 (338) is stored as the empty string. *)
Lemma stored_field_is_read_back_witness :
  encryptData None (Some (unitsOf "Ada")) = unitsOf "JQEH"
  /\ decryptData None (Some (encryptData None (Some (unitsOf "Ada"))))
     = unitsOf "Ada"
  /\ encryptData None (Some [338%N; 117%N]) = [].
Proof.
  split; [reflexivity |].
  destruct (stored_field_is_read_back None (unitsOf "Ada"))
    as (Hback & _).
  destruct (stored_field_is_read_back None [338%N; 117%N])
    as (_ & Hlost & _).
  split.
  - apply Hback. apply bytes_dec. reflexivity.
  - apply Hlost. intros H. apply bytes_dec in H. discriminate H.
Defined.
